(** * ConvertEverything API client (src/client.ts, src/types.ts) and its
      batch tool (src/index.ts)

    A shallow embedding of the resilient API client: the retry transport,
    the request wrapper, the format cache, the polling loop, the local
    validators and the output-size estimator, and of the batch handler of
    the server, followed by the properties proved about them.

    Conventions.
    - JavaScript strings are [string]s; a character stands for one code
      unit in the range 0..255.
    - Numbers that are integers in the source (status codes, milliseconds,
      attempt counters, byte lengths) are [Z] or [nat]; they are exact below
      2^53.  The size estimator divides and rounds, so it works on binary64
      floats ([PrimFloat]).
    - Asynchronous methods are functions of an explicit [State] (clock,
      counters, trace of network and timer events) in a state-and-exception
      monad; everything the platform decides (network outcomes, randomness,
      URL parsing, the file system) is read from a [Platform] record.
    - Timers follow [setTimeout]: a delay below 1 ms or above 2^31 - 1 ms
      lasts 1 ms. *)

From Stdlib Require Import ZArith List String Ascii Bool Lia.
From Stdlib Require Import Floats.PrimFloat Floats.FloatOps Floats.SpecFloat.
From Stdlib Require Import DecimalString.
Import ListNotations.

Local Open Scope string_scope.
Local Open Scope Z_scope.

(* ================================================================== *)
(** ** String primitives of the JavaScript runtime *)
(* ================================================================== *)

Module Js.

Definition chars : string -> list ascii := list_ascii_of_string.
Definition str : list ascii -> string := string_of_list_ascii.

Definition code (c : ascii) : nat := nat_of_ascii c.

(** [s.startsWith(p)] *)
Definition startsWith (s p : string) : bool := String.prefix p s.

(** [s.includes(sub)] *)
Fixpoint includes (s sub : string) : bool :=
  String.prefix sub s ||
  match s with
  | EmptyString => false
  | String _ t => includes t sub
  end.

Fixpoint drop (n : nat) (s : string) : string :=
  match n, s with
  | O, _ => s
  | S k, EmptyString => EmptyString
  | S k, String _ t => drop k t
  end.

(** [s.replace(pat, rep)] for a string pattern: the first occurrence only. *)
Fixpoint replace (s pat rep : string) : string :=
  if String.prefix pat s then rep ++ drop (String.length pat) s
  else match s with
       | EmptyString => EmptyString
       | String c t => String c (replace t pat rep)
       end.

(** [s.replace(/\/+$/, "")] *)
Fixpoint stripTrailingSlashes (s : string) : string :=
  match s with
  | EmptyString => EmptyString
  | String c t =>
      let t' := stripTrailingSlashes t in
      if (c =? "/")%char && (t' =? "")%string then EmptyString else String c t'
  end.

(** [s.replace(/^\./, "")] *)
Definition stripLeadingDot (s : string) : string :=
  match s with
  | String "." t => t
  | _ => s
  end.

Definition lowerChar (c : ascii) : ascii :=
  let n := code c in
  if ((65 <=? n) && (n <=? 90))%nat then ascii_of_nat (n + 32)
  else if ((192 <=? n) && (n <=? 222) && negb (n =? 215))%nat
       then ascii_of_nat (n + 32)
  else c.

(** [s.toLowerCase()] on code units 0..255. *)
Fixpoint toLowerCase (s : string) : string :=
  match s with
  | EmptyString => EmptyString
  | String c t => String (lowerChar c) (toLowerCase t)
  end.

Definition isDigit (c : ascii) : bool :=
  ((48 <=? code c) && (code c <=? 57))%nat.

Definition isHex (c : ascii) : bool :=
  let n := code c in
  (((48 <=? n) && (n <=? 57)) || ((97 <=? n) && (n <=? 102))
   || ((65 <=? n) && (n <=? 70)))%nat.

(** White space skipped by [parseInt]: TAB, LF, VT, FF, CR, SP, NBSP. *)
Definition isWhite (c : ascii) : bool :=
  let n := code c in
  (((9 <=? n) && (n <=? 13)) || (n =? 32) || (n =? 160))%nat.

Fixpoint skipWhite (s : string) : string :=
  match s with
  | String c t => if isWhite c then skipWhite t else s
  | EmptyString => s
  end.

(** Value of the longest prefix of decimal digits; [None] when there is
    no digit at the front. *)
Fixpoint digitsFrom (acc : option Z) (s : string) : option Z :=
  match s with
  | String c t =>
      if isDigit c then
        let d := Z.of_nat (code c) - 48 in
        digitsFrom (Some (match acc with Some a => 10 * a + d | None => d end)) t
      else acc
  | EmptyString => acc
  end.

(** [parseInt(s, 10)]; [None] is NaN. *)
Definition parseInt (s : string) : option Z :=
  match skipWhite s with
  | String "-" t => option_map Z.opp (digitsFrom None t)
  | String "+" t => digitsFrom None t
  | t => digitsFrom None t
  end.

(** [x || d] on a number: 0 and NaN are falsy. *)
Definition numOr (x : option Z) (d : Z) : Z :=
  match x with
  | Some n => if n =? 0 then d else n
  | None => d
  end.

(** [x || undefined] on a number. *)
Definition numOrUndefined (x : option Z) : option Z :=
  match x with
  | Some n => if n =? 0 then None else Some n
  | None => None
  end.

(** [s || d] on a possibly absent string: the empty string is falsy. *)
Definition strOr (s : option string) (d : string) : string :=
  match s with
  | Some v => if (v =? "")%string then d else v
  | None => d
  end.

(** [Number.MAX_SAFE_INTEGER]: up to it, whole numbers are exact as
    numbers and are rendered in plain decimal digits. *)
Definition MAX_SAFE_INTEGER : Z := 2 ^ 53 - 1.

(** Template-literal rendering of an integer. *)
Definition showZ (n : Z) : string := NilZero.string_of_int (Z.to_int n).

Fixpoint takeWhile {A} (p : A -> bool) (l : list A) : list A :=
  match l with
  | x :: t => if p x then x :: takeWhile p t else []
  | [] => []
  end.

Fixpoint dropWhile {A} (p : A -> bool) (l : list A) : list A :=
  match l with
  | x :: t => if p x then dropWhile p t else l
  | [] => []
  end.

Definition charsEqb (a b : list ascii) : bool := (str a =? str b)%string.

End Js.

(* ================================================================== *)
(** ** Node's [path] module, POSIX flavour, as far as the client uses it *)
(* ================================================================== *)

Module path.

Definition isSep (c : ascii) : bool := (c =? "/")%char.
Definition isDot (c : ascii) : bool := (c =? ".")%char.
Definition notSep (c : ascii) : bool := negb (isSep c).
Definition notDot (c : ascii) : bool := negb (isDot c).

(** Last path component, trailing separators ignored. *)
Definition basenameChars (p : list ascii) : list ascii :=
  rev (Js.takeWhile notSep (Js.dropWhile isSep (rev p))).

(** From the last dot of the last component to its end; empty when there is
    no dot, when the only dot leads the component, and for [".."]. *)
Definition extnameChars (p : list ascii) : list ascii :=
  let b := basenameChars p in
  if Js.charsEqb b (Js.chars "..") then []
  else
    let r := rev b in
    match Js.dropWhile notDot r with
    | [] => []
    | _dot :: [] => []
    | dot :: _ => dot :: rev (Js.takeWhile notDot r)
    end.

Definition basename (p : string) : string := Js.str (basenameChars (Js.chars p)).
Definition extname (p : string) : string := Js.str (extnameChars (Js.chars p)).

(** [path.isAbsolute] *)
Definition isAbsolute (p : string) : bool := Js.startsWith p "/".

End path.

(* ================================================================== *)
(** ** src/types.ts: the format registry and the configuration defaults *)
(* ================================================================== *)

Module Category.
Inductive t :=
| audio | video | image | document | ebook | data | three_d | font | archive | cad.
End Category.
Definition FormatCategory := Category.t.

Definition DEFAULT_BASE_URL : string := "https://converteverything.io".
Definition DEFAULT_TIMEOUT : Z := 300000.

(** The entries of one commented group of the table, in source order. *)
Definition entries (category : FormatCategory) (formats : list string)
    : list (string * FormatCategory) :=
  map (fun format => (format, category)) formats.

Definition FORMAT_CATEGORIES : list (string * FormatCategory) :=
  (entries Category.audio
     ["mp3"; "wav"; "flac"; "aac"; "ogg"; "m4a"; "wma"; "aiff"; "midi"; "mid";
      "opus"; "ac3"; "amr"; "ape"]
   ++ entries Category.video
     ["mp4"; "avi"; "mkv"; "mov"; "webm"; "wmv"; "flv"; "m4v"; "3gp"; "ts";
      "vob"; "mts"; "mpeg"; "m2ts"; "divx"]
   ++ entries Category.image
     ["jpg"; "jpeg"; "png"; "gif"; "webp"; "bmp"; "tiff"; "tif"; "svg"; "ico"; "heic"]
   ++ entries Category.document
     ["pdf"; "docx"; "doc"; "xlsx"; "xls"; "pptx"; "ppt"; "txt"; "md"; "html";
      "htm"; "rtf"; "odt"; "odp"; "ods"; "docm"; "xlsm"]
   ++ entries Category.ebook ["epub"; "mobi"; "azw3"]
   ++ entries Category.data ["json"; "csv"; "xml"; "yaml"; "yml"; "tsv"]
   ++ entries Category.three_d
     ["obj"; "stl"; "ply"; "gltf"; "glb"; "dae"; "off"; "fbx"; "3ds"; "blend";
      "usdz"; "step"; "stp"; "iges"; "igs"; "ifc"]
   ++ entries Category.font ["ttf"; "otf"; "woff"; "woff2"; "eot"]
   ++ entries Category.archive ["zip"; "tar"; "gz"; "bz2"; "7z"]
   ++ entries Category.cad ["dxf"])%list.

(** Property names every object literal inherits from [Object.prototype];
    the [in] operator sees them as well as the object's own keys. *)
Definition OBJECT_PROTOTYPE_KEYS : list string :=
  [ "constructor"; "__defineGetter__"; "__defineSetter__"; "hasOwnProperty";
    "__lookupGetter__"; "__lookupSetter__"; "isPrototypeOf";
    "propertyIsEnumerable"; "toString"; "valueOf"; "__proto__";
    "toLocaleString" ].

Definition hasKey {A} (k : string) (o : list (string * A)) : bool :=
  existsb (fun e => (fst e =? k)%string) o.

(** [k in o] for an object literal [o]. *)
Definition js_in {A} (k : string) (o : list (string * A)) : bool :=
  hasKey k o || existsb (String.eqb k) OBJECT_PROTOTYPE_KEYS.

Definition isFormatSupported (format : string) : bool :=
  js_in (Js.toLowerCase format) FORMAT_CATEGORIES.

(** [arr.includes(x)] on an array of strings. *)
Definition includesStr (arr : list string) (x : string) : bool :=
  existsb (String.eqb x) arr.

(* ================================================================== *)
(** ** JSON values, conversion options, binary64 helpers *)
(* ================================================================== *)

#[local] Set Warnings "-register-all".

Inductive Json :=
| JNull
| JBool (b : bool)
| JNum (x : float)
| JStr (s : string)
| JArr (items : list Json)
| JObj (fields : list (string * Json)).

(** A JavaScript value read out of parsed JSON: [None] is [undefined]. *)
Definition JsVal := option Json.

Fixpoint assoc {A} (k : string) (o : list (string * A)) : option A :=
  match o with
  | (k', v) :: t => if (k' =? k)%string then Some v else assoc k t
  | [] => None
  end.

(** [o.k] on a non-null value: own fields of objects, [undefined] otherwise. *)
Definition prop (o : Json) (k : string) : JsVal :=
  match o with
  | JObj fields => assoc k fields
  | _ => None
  end.

Module Num.

Definition ofZ (z : Z) : float := SF2Prim (binary_normalize prec emax z 0 false).

(** Truthiness of a number: [0], [-0] and [NaN] are falsy. *)
Definition truthy (x : float) : bool := negb (is_nan x || is_zero x).

(** [Math.round]: the integer nearest to [x], ties towards +infinity. *)
Definition round (x : float) : float :=
  match Prim2SF x with
  | S754_finite s m e =>
      if 0 <=? e then x
      else
        let num := if s then Z.neg m else Z.pos m in
        let den := 2 ^ (- e) in
        let r := (2 * num + den) / (2 * den) in
        if (r =? 0) && s then (- 0)%float else ofZ r
  | _ => x
  end.

End Num.

Definition truthy (v : JsVal) : bool :=
  match v with
  | None | Some JNull => false
  | Some (JBool b) => b
  | Some (JNum x) => Num.truthy x
  | Some (JStr s) => negb (s =? "")%string
  | Some (JArr _) | Some (JObj _) => true
  end.

(** The option bag, read through the shapes the estimator casts it to
    ([bitrate?: string], [crf?: number], [quality?: number]); [extra] holds
    the remaining keys. *)
Record ConversionOptions := {
  bitrate : option string;
  crf : option float;
  quality : option float;
  extra : list (string * Json)
}.

Definition noOptions : ConversionOptions :=
  {| bitrate := None; crf := None; quality := None; extra := [] |}.

Definition present {A} (o : option A) : nat :=
  match o with Some _ => 1%nat | None => 0%nat end.

(** [Object.keys(options).length] *)
Definition keyCount (o : ConversionOptions) : nat :=
  (present (bitrate o) + present (crf o) + present (quality o)
   + List.length (extra o))%nat.

(* ================================================================== *)
(** ** Pure helpers of the client: identifiers, file names, estimates *)
(* ================================================================== *)

(** [n] hexadecimal digits at the front of [s]; returns what follows. *)
Fixpoint hexRun (n : nat) (s : string) : option string :=
  match n with
  | O => Some s
  | S k => match s with
           | String c t => if Js.isHex c then hexRun k t else None
           | EmptyString => None
           end
  end.

Definition dash (s : option string) : option string :=
  match s with
  | Some (String "-" t) => Some t
  | _ => None
  end.

Definition andThen {A B} (o : option A) (f : A -> option B) : option B :=
  match o with Some a => f a | None => None end.

(** [/^[0-9a-f]{8}-[0-9a-f]{4}-[0-9a-f]{4}-[0-9a-f]{4}-[0-9a-f]{12}$/i.test(id)] *)
Definition isValidUuid (id : string) : bool :=
  match
    andThen (dash (andThen (dash (andThen (dash (andThen (dash (hexRun 8 id))
      (hexRun 4))) (hexRun 4))) (hexRun 4))) (hexRun 12)
  with
  | Some EmptyString => true
  | _ => false
  end.

Module Filename.

(** Code units removed by [/[\x00-\x1f\x80-\x9f]/g]. *)
Definition unsafe (c : ascii) : bool :=
  let n := Js.code c in
  ((n <=? 31) || ((128 <=? n) && (n <=? 159)))%nat.

Definition clean (name : list ascii) : list ascii :=
  filter (fun c => negb (unsafe c)) name.

(** [path.basename(name, ext)] where [name] has no separator and [ext] is
    [path.extname(name)]: the name without that suffix. *)
Definition stem (name ext : list ascii) : list ascii :=
  firstn (List.length name - List.length ext) name.

Definition FALLBACK : list ascii := Js.chars "file".

Definition sanitizeChars (filename : list ascii) : list ascii :=
  let name := path.basenameChars filename in
  let name := clean name in
  let name :=
    if (255 <? Z.of_nat (List.length name)) then
      let ext := path.extnameChars name in
      let base := stem name ext in
      (firstn (Z.to_nat (255 - Z.of_nat (List.length ext))) base ++ ext)%list
    else name in
  match name with
  | [] => FALLBACK
  | _ => if Js.charsEqb name (Js.chars ".") then FALLBACK else name
  end.

End Filename.

Definition sanitizeFilename (filename : string) : string :=
  Js.str (Filename.sanitizeChars (Js.chars filename)).

(* ------------------------------------------------------------------ *)
(** *** estimateOutputSize *)

Inductive Confidence := low | medium | high.

(** The rationale string, kept as the template and the values spliced in. *)
Inductive Notes :=
| NoNotes
| BasedOnBitrate (bitrate : string)
| ExpandingLossy
| CrfNote (crf : float) (verdict : string)
| QualityNote (quality : float)
| LosslessLarger
| DependsOnContent.

Record Estimate := {
  estimatedSize : float;
  confidence : Confidence;
  notes : Notes
}.

Definition AUDIO_KBPS_BASELINE : Z := 1400.

Definition estimateOutputSize (inputSize : float) (sourceFormat targetFormat : string)
    (options : option ConversionOptions) : Estimate :=
  let src := Js.toLowerCase sourceFormat in
  let tgt := Js.toLowerCase targetFormat in
  let st0 := (1%float, medium, NoNotes) in
  (* Audio conversions *)
  let st1 :=
    if includesStr ["mp3"; "aac"; "ogg"; "opus"] tgt then
      if includesStr ["wav"; "flac"; "aiff"] src then
        let bitrate := Js.strOr (andThen options bitrate) "192k" in
        let kbps := Js.numOr (Js.parseInt (Js.replace bitrate "k" "")) 192 in
        ((Num.ofZ kbps / Num.ofZ AUDIO_KBPS_BASELINE)%float, high, BasedOnBitrate bitrate)
      else st0
    else if includesStr ["wav"; "flac"] tgt then
      if includesStr ["mp3"; "aac"; "ogg"] src then
        ((if (src =? "mp3")%string then 8 else 6)%float, medium, ExpandingLossy)
      else st0
    else st0 in
  (* Video conversions *)
  let st2 :=
    if includesStr ["mp4"; "webm"; "mkv"] tgt then
      match andThen options crf with
      | Some crf =>
          ((if (crf <? 20)%float then 1.5 else if (28 <? crf)%float then 0.5 else 1)%float,
           medium,
           CrfNote crf (if (crf <? 20)%float then "high quality, larger file"
                        else if (28 <? crf)%float then "lower quality, smaller file"
                        else "balanced"))
      | None => st1
      end
    else st1 in
  (* Image conversions *)
  let st3 :=
    if includesStr ["jpg"; "jpeg"; "webp"] tgt then
      let quality :=
        match andThen options quality with
        | Some q => if Num.truthy q then q else 85%float
        | None => 85%float
        end in
      if includesStr ["png"; "bmp"; "tiff"] src then
        (* 0.1 + (quality / 100) * 0.3 *)
        ((0x1.999999999999ap-4 + (quality / 100) * 0x1.3333333333333p-2)%float,
         high, QualityNote quality)
      else st2
    else if (tgt =? "png")%string then
      if includesStr ["jpg"; "jpeg"; "webp"] src then (3%float, medium, LosslessLarger)
      else st2
    else st2 in
  (* Document conversions *)
  let st4 :=
    if (tgt =? "pdf")%string && includesStr ["docx"; "doc"; "pptx"] src then
      (* 0.8 *)
      (0x1.999999999999ap-1%float, low, DependsOnContent)
    else st3 in
  let '(ratio, confidence, notes) := st4 in
  {| estimatedSize := Num.round (inputSize * ratio)%float;
     confidence := confidence;
     notes := notes |}.

(* ================================================================== *)
(** ** The platform: errors, HTTP messages, the world *)
(* ================================================================== *)

(** Error messages, kept as the template that builds them and the values
    spliced in. *)
Inductive Message :=
| MsgPlatform (text : string)
| MsgApiKeyRequired
| MsgInvalidApiKeyFormat
| MsgInvalidBaseUrl (url : string)
| MsgRateLimit (seconds : Z)
| MsgRequestFailedAfterRetries
| MsgApi (status : Z) (statusText : string) (detail : JsVal) (correlationId : string)
| MsgInvalidConversionId
| MsgNullBytes
| MsgFileNotFound (filePath : string)
| MsgNotAFile (filePath : string)
| MsgTraversal
| MsgUnsupportedTarget (targetFormat : string)
| MsgFileTooLarge
| MsgNotComplete (status errorMessage : JsVal)
| MsgNoDownloadUrl
| MsgDownloadExpired
| MsgDownloadFailed (status : Z) (statusText : string)
| MsgTimedOut (timeout : Z) (status : JsVal)
| MsgRetryOnlyFailed (status : JsVal)
| MsgRetryGuidance (conversionId : string) (originalFilename targetFormat errorMessage : JsVal)
| MsgCannotCancel
| MsgDeleted
| MsgApiKeyMissing
| MsgIssues.   (* the issues of a ZodError, as zod renders them *)

Record JsError := { name : string; message : Message }.

(** [new Error(m)] *)
Definition Error (m : Message) : JsError := {| name := "Error"; message := m |}.

(** Errors raised by the platform itself carry a name and a text. *)
Definition platformError (errorName text : string) : JsError :=
  {| name := errorName; message := MsgPlatform text |}.

Definition AbortError : JsError := platformError "AbortError" "This operation was aborted".
Definition TypeError (text : string) : JsError := platformError "TypeError" text.
Definition SyntaxError (text : string) : JsError := platformError "SyntaxError" text.

(** Only the byte length of a buffer is looked at by the client. *)
Record Buffer := { byteLength : Z }.

Definition Headers := list (string * string).

(** [{...a, k: v}] on string-keyed objects: an existing key keeps its place. *)
Fixpoint setKey (k v : string) (o : Headers) : Headers :=
  match o with
  | (k', v') :: t => if (k' =? k)%string then (k, v) :: t else (k', v') :: setKey k v t
  | [] => [(k, v)]
  end.

(** [{...a, ...b}] *)
Definition spread (a b : Headers) : Headers :=
  fold_left (fun acc e => setKey (fst e) (snd e) acc) b a.

(** [headers.get(name)] of a response: names compare case-insensitively. *)
Fixpoint headerGet (name : string) (h : Headers) : option string :=
  match h with
  | (k, v) :: t =>
      if (Js.toLowerCase k =? Js.toLowerCase name)%string then Some v
      else headerGet name t
  | [] => None
  end.

Record FormData := {
  file : Buffer;
  fileName : string;
  output_format : string;
  optionsField : option ConversionOptions
}.

Record RequestInit := {
  method : option string;
  headers : Headers;
  body : option FormData
}.

Definition noInit : RequestInit := {| method := None; headers := []; body := None |}.

Record Request := { url : string; init : RequestInit }.

Record Response := {
  status : Z;
  statusText : string;
  responseHeaders : Headers;
  json : option Json;      (* [None]: the body is not JSON, [json()] rejects *)
  arrayBuffer : Buffer
}.

(** [response.ok] *)
Definition ok (r : Response) : bool := (200 <=? status r) && (status r <=? 299).

Inductive FetchResult :=
| Responds (r : Response)
| Rejects (errorName text : string).

(** What the network does with one [fetch]: how long it takes and how it
    settles when it is left alone. *)
Record Attempt := { latency : Z; settles : FetchResult }.

(** What [fs.readFileSync(p)] does: it returns the contents, or throws (a
    file that cannot be read, a file of 2 GiB or more). *)
Inductive ReadResult :=
| Reads (b : Buffer)
| ReadFails (errorName text : string).

Record Platform := {
  network : nat -> Request -> Attempt;      (* the n-th fetch of the run *)
  random36 : nat -> string;                 (* n-th [Math.random().toString(36).substring(2, 9)] *)
  urlParses : string -> bool;               (* [new URL(s)] does not throw *)
  dateParse : Json -> option Z;             (* [new Date(v).getTime()], [None] is NaN *)
  toString : Json -> string;                (* [String(v)] *)
  resolve : string -> string;               (* [path.resolve] *)
  existsSync : string -> bool;
  isFile : string -> bool;                  (* [fs.statSync(p).isFile()] *)
  realpathSync : string -> string;
  readFileSync : string -> ReadResult;
  fromBase64 : string -> Buffer             (* [Buffer.from(s, "base64")] *)
}.

Inductive Event :=
| Fetch (req : Request)
| Sleep (ms : Z).

Record CacheEntry := { cached : Json; timestamp : Z }.

(** The state a method call runs in: the only mutable field of the client
    instance and the world around it. *)
Record State := {
  formatCache : option CacheEntry;
  now : Z;               (* [Date.now()] *)
  fetches : nat;         (* fetches issued so far *)
  randoms : nat;         (* random numbers drawn so far *)
  trace : list Event     (* network and timer events, oldest first *)
}.

Inductive Result (A : Type) :=
| Ok (a : A)
| Throw (e : JsError).
Arguments Ok {A} a.
Arguments Throw {A} e.

Definition M (A : Type) : Type := State -> Result A * State.

Definition ret {A} (a : A) : M A := fun s => (Ok a, s).
Definition throw {A} (e : JsError) : M A := fun s => (Throw e, s).
Definition bind {A B} (m : M A) (k : A -> M B) : M B :=
  fun s => match m s with
           | (Ok a, s') => k a s'
           | (Throw e, s') => (Throw e, s')
           end.
Definition tryCatch {A} (m : M A) (handler : JsError -> M A) : M A :=
  fun s => match m s with
           | (Ok a, s') => (Ok a, s')
           | (Throw e, s') => handler e s'
           end.

Declare Scope js_scope.
Delimit Scope js_scope with js.
Notation "x <- m ;; k" := (bind m (fun x => k))
  (at level 100, m at next level, right associativity) : js_scope.
Notation "m ;;; k" := (bind m (fun _ => k))
  (at level 100, right associativity) : js_scope.
Local Open Scope js_scope.

Definition dateNow : M Z := fun s => (Ok (now s), s).

Definition logEvent (e : Event) (s : State) : State :=
  {| formatCache := formatCache s; now := now s; fetches := fetches s;
     randoms := randoms s; trace := trace s ++ [e] |}.

Definition advance (ms : Z) (s : State) : State :=
  {| formatCache := formatCache s; now := now s + ms; fetches := fetches s;
     randoms := randoms s; trace := trace s |}.

(** The longest delay a timer takes: 2^31 - 1 ms. *)
Definition TIMEOUT_MAX : Z := 2147483647.

(** How long [setTimeout(f, ms)] waits for a whole number [ms]: a delay
    below 1 or above [TIMEOUT_MAX] is replaced by 1 ms. *)
Definition timerDelay (ms : Z) : Z :=
  if (ms <? 1) || (TIMEOUT_MAX <? ms) then 1 else ms.

(** [await new Promise(resolve => setTimeout(resolve, ms))]: the trace
    keeps the delay asked for, the clock moves by the delay the timer
    takes. *)
Definition sleep (ms : Z) : M unit :=
  fun s => (Ok tt, advance (timerDelay ms) (logEvent (Sleep ms) s)).

Definition setCache (e : option CacheEntry) : M unit :=
  fun s => (Ok tt, {| formatCache := e; now := now s; fetches := fetches s;
                      randoms := randoms s; trace := trace s |}).

Definition getCache : M (option CacheEntry) := fun s => (Ok (formatCache s), s).

(* ================================================================== *)
(** ** src/client.ts: configuration and transport *)
(* ================================================================== *)

Definition CLIENT_VERSION : string := "1.2.0".

Definition DEFAULT_MAX_RETRIES : nat := 3.
Definition DEFAULT_RETRY_DELAY : Z := 1000.
Definition RETRYABLE_STATUS_CODES : list Z := [408; 429; 500; 502; 503; 504].

Definition FORMAT_CACHE_TTL : Z := 3600000.

Module ClientConfig.
Record t := { apiKey : string; baseUrl : option string; timeout : option Z }.
End ClientConfig.

Module WaitOptions.
Record t := { pollInterval : option Z; timeout : option Z }.
Definition none : t := {| pollInterval := None; timeout := None |}.
End WaitOptions.

(** The read-only fields of a client instance. *)
Record Client := {
  apiKey : string;
  baseUrl : string;
  timeout : Z;
  userAgent : string;
  maxRetries : nat
}.

(** [RETRYABLE_STATUS_CODES.includes(code)] *)
Definition retryable (code : Z) : bool := existsb (Z.eqb code) RETRYABLE_STATUS_CODES.

Definition getRetryDelay (attempt : nat) (retryAfter : option Z) : Z :=
  match Js.numOrUndefined retryAfter with
  | Some seconds => seconds * 1000
  | None => DEFAULT_RETRY_DELAY * 2 ^ Z.of_nat attempt
  end.

Inductive Step :=
| Continue
| Return (r : Response).

Section WithPlatform.

Variable P : Platform.

Definition sanitizeUrl (url : string) : Result string :=
  let sanitized := Js.stripTrailingSlashes url in
  let sanitized :=
    if Js.startsWith sanitized "http://" && negb (Js.includes sanitized "localhost")
    then Js.replace sanitized "http://" "https://"
    else sanitized in
  if urlParses P sanitized then Ok sanitized
  else Throw (Error (MsgInvalidBaseUrl url)).

Definition constructor (config : ClientConfig.t) : Result Client :=
  if (ClientConfig.apiKey config =? "")%string then Throw (Error MsgApiKeyRequired)
  else if negb (Js.startsWith (ClientConfig.apiKey config) "ce_")
  then Throw (Error MsgInvalidApiKeyFormat)
  else
    match sanitizeUrl (Js.strOr (ClientConfig.baseUrl config) DEFAULT_BASE_URL) with
    | Throw e => Throw e
    | Ok u =>
        Ok {| apiKey := ClientConfig.apiKey config;
              baseUrl := u;
              timeout := Js.numOr (ClientConfig.timeout config) DEFAULT_TIMEOUT;
              userAgent := "converteverything-mcp/" ++ CLIENT_VERSION ++ " (Node.js)";
              maxRetries := DEFAULT_MAX_RETRIES |}
    end.

Definition generateCorrelationId : M string :=
  fun s =>
    (Ok ("mcp-" ++ Js.showZ (now s) ++ "-" ++ random36 P (randoms s)),
     {| formatCache := formatCache s; now := now s; fetches := fetches s;
        randoms := S (randoms s); trace := trace s |}).

(** One [fetch] raced against the abort timer armed with
    [setTimeout(..., timeout c)]: the timer wins when the network needs at
    least as long as the timer takes, and the fetch then rejects with an
    AbortError. *)
Definition fetchWithTimeout (c : Client) (url : string) (options : RequestInit)
    : M Response :=
  fun s =>
    let req := {| url := url; init := options |} in
    let a := network P (fetches s) req in
    let issued (elapsed : Z) :=
      {| formatCache := formatCache s; now := now s + elapsed;
         fetches := S (fetches s); randoms := randoms s;
         trace := trace s ++ [Fetch req] |} in
    if timerDelay (timeout c) <=? latency a
    then (Throw AbortError, issued (timerDelay (timeout c)))
    else match settles a with
         | Responds r => (Ok r, issued (latency a))
         | Rejects errorName text =>
             (Throw (platformError errorName text), issued (latency a))
         end.

(** The [try] block of one iteration of the retry loop. *)
Definition attemptOnce (c : Client) (url : string) (options : RequestInit)
    (correlationId : string) (attempt : nat) : M Step :=
  response <- fetchWithTimeout c url
                {| method := method options;
                   headers := setKey "X-Correlation-ID" correlationId (headers options);
                   body := body options |} ;;
  if status response =? 429 then
    let retryAfter :=
      Js.parseInt (Js.strOr (headerGet "Retry-After" (responseHeaders response)) "0") in
    if (attempt <? maxRetries c)%nat then
      sleep (getRetryDelay attempt (Js.numOrUndefined retryAfter)) ;;;
      ret Continue
    else throw (Error (MsgRateLimit (Js.numOr retryAfter 60)))
  else if retryable (status response) && (attempt <? maxRetries c)%nat then
    sleep (getRetryDelay attempt None) ;;;
    ret Continue
  else ret (Return response).

(** The [for] loop of [fetchWithRetry], entered at [attempt]; [fuel] bounds
    the iterations and [S (maxRetries c)] is always enough. *)
Fixpoint retryLoop (c : Client) (url : string) (options : RequestInit)
    (correlationId : string) (fuel attempt : nat) (lastError : option JsError)
    : M Response :=
  let exhausted : M Response :=
    throw (match lastError with
           | Some e => e
           | None => Error MsgRequestFailedAfterRetries
           end) in
  match fuel with
  | O => exhausted
  | S fuel' =>
      if (attempt <=? maxRetries c)%nat then
        fun s =>
          match attemptOnce c url options correlationId attempt s with
          | (Ok (Return response), s1) => (Ok response, s1)
          | (Ok Continue, s1) =>
              retryLoop c url options correlationId fuel' (S attempt) lastError s1
          | (Throw error, s1) =>
              (* catch: the error is remembered; a network error that is not
                 an abort is followed by the backoff sleep; then the loop
                 goes on to its next iteration *)
              if (attempt <? maxRetries c)%nat && negb (name error =? "AbortError")%string
              then (sleep (getRetryDelay attempt None) ;;;
                    retryLoop c url options correlationId fuel' (S attempt) (Some error)) s1
              else retryLoop c url options correlationId fuel' (S attempt) (Some error) s1
          end
      else exhausted
  end.

Definition fetchWithRetry (c : Client) (url : string) (options : RequestInit)
    (correlationId : string) : M Response :=
  retryLoop c url options correlationId (S (maxRetries c)) 0 None.

(** [errorData.detail] when it is truthy; a body that is not JSON or is
    [null] makes the [try] fail and leaves the default message. *)
Definition errorDetail (r : Response) : JsVal :=
  match json r with
  | Some JNull | None => None
  | Some errorData =>
      if truthy (prop errorData "detail") then prop errorData "detail" else None
  end.

Definition request (c : Client) (endpoint : string) (options : RequestInit) : M Json :=
  let url := baseUrl c ++ "/api" ++ endpoint in
  correlationId <- generateCorrelationId ;;
  response <- fetchWithRetry c url
                {| method := method options;
                   headers := spread [("Authorization", "Bearer " ++ apiKey c);
                                      ("User-Agent", userAgent c)]
                                     (headers options);
                   body := body options |}
                correlationId ;;
  if negb (ok response) then
    throw (Error (MsgApi (status response) (statusText response)
                         (errorDetail response) correlationId))
  else
    match json response with
    | Some value => ret value
    | None => throw (SyntaxError "Unexpected token in JSON")
    end.

(* ---------------------------------------------------------------- *)
(** *** API operations *)

Definition getSupportedFormats (c : Client) (skipCache : bool) : M Json :=
  let fresh : M Json :=
    value <- request c "/convert/formats" noInit ;;
    t <- dateNow ;;
    setCache (Some {| cached := value; timestamp := t |}) ;;;
    ret value in
  cache <- getCache ;;
  match (if skipCache then None else cache) with
  | Some entry =>
      t <- dateNow ;;
      let age := t - timestamp entry in
      if age <? FORMAT_CACHE_TTL then ret (cached entry) else fresh
  | None => fresh
  end.

Definition clearFormatCache : M unit := setCache None.

Definition getUsage (c : Client) : M Json := request c "/user/usage" noInit.

Definition getConversionStatus (c : Client) (conversionId : string) : M Json :=
  if negb (isValidUuid conversionId) then throw (Error MsgInvalidConversionId)
  else request c ("/convert/" ++ conversionId) noInit.

Definition NUL : string := String (ascii_of_nat 0) EmptyString.

Definition validateFilePath (filePath : string) : Result string :=
  let absolutePath := resolve P filePath in
  if Js.includes absolutePath NUL then Throw (Error MsgNullBytes)
  else if negb (existsSync P absolutePath) then Throw (Error (MsgFileNotFound filePath))
  else if negb (isFile P absolutePath) then Throw (Error (MsgNotAFile filePath))
  else
    let realPath := realpathSync P absolutePath in
    if Js.includes realPath ".." || negb (path.isAbsolute realPath)
    then Throw (Error MsgTraversal)
    else Ok realPath.

(** [data: Buffer | string] *)
Inductive Payload :=
| Bytes (b : Buffer)
| Base64 (s : string).

(** [s.replace(/^data:[^;]+;base64,/, "")] *)
Definition stripDataUrlPrefix (s : string) : string :=
  if Js.startsWith s "data:" then
    let rest := Js.chars (Js.drop 5 s) in
    let mime := Js.takeWhile (fun ch => negb (ch =? ";")%char) rest in
    let after := Js.str (Js.dropWhile (fun ch => negb (ch =? ";")%char) rest) in
    match mime with
    | [] => s
    | _ => if Js.startsWith after ";base64," then Js.drop 8 after else s
    end
  else s.

Definition MAX_SIZE : Z := 10 * 1024 * 1024 * 1024.

(** [targetFormat.toLowerCase().replace(/^\./, "")] *)
Definition normalizeFormat (targetFormat : string) : string :=
  Js.stripLeadingDot (Js.toLowerCase targetFormat).

Definition convertFileBuffer (c : Client) (payload : Payload) (name : string)
    (targetFormat : string) (options : option ConversionOptions) : M Json :=
  let buffer :=
    match payload with
    | Base64 s => fromBase64 P (stripDataUrlPrefix s)
    | Bytes b => b
    end in
  if byteLength buffer >? MAX_SIZE then throw (Error MsgFileTooLarge)
  else
    let normalizedFormat := normalizeFormat targetFormat in
    if negb (isFormatSupported normalizedFormat)
    then throw (Error (MsgUnsupportedTarget targetFormat))
    else
      let sanitizedName := sanitizeFilename name in
      let formData :=
        {| file := buffer;
           fileName := sanitizedName;
           output_format := normalizedFormat;
           optionsField :=
             match options with
             | Some o => if (0 <? keyCount o)%nat then Some o else None
             | None => None
             end |} in
      request c "/convert"
        {| method := Some "POST"; headers := []; body := Some formData |}.

Definition convertFile (c : Client) (filePath targetFormat : string)
    (options : option ConversionOptions) : M Json :=
  match validateFilePath filePath with
  | Throw e => throw e
  | Ok realPath =>
      let normalizedFormat := normalizeFormat targetFormat in
      if negb (isFormatSupported normalizedFormat)
      then throw (Error (MsgUnsupportedTarget targetFormat))
      else
        match readFileSync P realPath with
        | ReadFails errorName text => throw (platformError errorName text)
        | Reads fileBuffer =>
            let name := path.basename realPath in
            convertFileBuffer c (Bytes fileBuffer) name normalizedFormat options
        end
  end.

(** [o.k] where [o] came out of [response.json()]: reading a property of
    [null] throws. *)
Definition getProp (o : Json) (k : string) : M JsVal :=
  match o with
  | JNull => throw (TypeError "Cannot read properties of null")
  | _ => ret (prop o k)
  end.

(** [v === s] for a string literal [s]. *)
Definition isStr (v : JsVal) (s : string) : bool :=
  match v with
  | Some (JStr x) => (x =? s)%string
  | _ => false
  end.

(** [String(v)], as template literals apply it. *)
Definition render (v : JsVal) : string :=
  match v with
  | Some (JStr s) => s
  | Some j => toString P j
  | None => "undefined"
  end.

Definition orUndefined (v : JsVal) : JsVal := if truthy v then v else None.

Definition QUOTE : ascii := ascii_of_nat 34.

(** First match of the Content-Disposition pattern: the word filename, an
    equals sign, an optional double quote, then (group 1) the longest run
    of characters other than a double quote, a semicolon and a line feed,
    which must not be empty. *)
Definition filenameChar (ch : ascii) : bool :=
  negb ((ch =? QUOTE)%char || (ch =? ";")%char || (Js.code ch =? 10)%nat).

Fixpoint matchFilename (s : string) : option string :=
  let here :=
    if Js.startsWith s "filename=" then
      let u := Js.drop 9 s in
      let u := match u with
               | String ch t => if (ch =? QUOTE)%char then t else u
               | EmptyString => u
               end in
      match Js.takeWhile filenameChar (Js.chars u) with
      | [] => None
      | run => Some (Js.str run)
      end
    else None in
  match here with
  | Some m => Some m
  | None => match s with
            | String _ t => matchFilename t
            | EmptyString => None
            end
  end.

(** [s.replace(/\.[^.]+$/, "")]: a last dot followed by at least one
    character is cut off together with what follows it. *)
Definition stripExtension (s : string) : string :=
  let r := rev (Js.chars s) in
  match Js.takeWhile path.notDot r, Js.dropWhile path.notDot r with
  | _ :: _, _dot :: before => Js.str (rev before)
  | _, _ => s
  end.

Record Download := {
  downloaded : Buffer;
  filename : string;
  contentType : string
}.

Definition downloadFile (c : Client) (conversionId : string) : M Download :=
  if negb (isValidUuid conversionId) then throw (Error MsgInvalidConversionId)
  else
    conversion <- getConversionStatus c conversionId ;;
    st <- getProp conversion "status" ;;
    if negb (isStr st "completed") then
      throw (Error (MsgNotComplete st (orUndefined (prop conversion "error_message"))))
    else if negb (truthy (prop conversion "download_url")) then
      throw (Error MsgNoDownloadUrl)
    else
      t <- dateNow ;;
      let expired :=
        match orUndefined (prop conversion "download_expires_at") with
        | Some v => match dateParse P v with
                    | Some expiresAt => expiresAt <? t
                    | None => false
                    end
        | None => false
        end in
      if expired then throw (Error MsgDownloadExpired)
      else
        response <- fetchWithTimeout c (render (prop conversion "download_url"))
                      {| method := None;
                         headers := [("User-Agent", userAgent c)];
                         body := None |} ;;
        if negb (ok response) then
          throw (Error (MsgDownloadFailed (status response) (statusText response)))
        else
          let fallback := "converted." ++ render (prop conversion "target_format") in
          name <-
            match headerGet "Content-Disposition" (responseHeaders response) with
            | Some (String ch rest) =>
                ret (match matchFilename (String ch rest) with
                     | Some m => m
                     | None => fallback
                     end)
            | _ =>
                match orUndefined (prop conversion "original_filename") with
                | Some (JStr original) =>
                    ret (stripExtension original ++ "."
                         ++ render (prop conversion "target_format"))
                | Some _ => throw (TypeError "replace is not a function")
                | None => ret fallback
                end
            end ;;
          ret {| downloaded := arrayBuffer response;
                 filename := name;
                 contentType :=
                   Js.strOr (headerGet "Content-Type" (responseHeaders response))
                            "application/octet-stream" |}.

(** [status.status === "completed" || status.status === "failed"] *)
Definition terminal (st : JsVal) : bool := isStr st "completed" || isStr st "failed".

(** One pass through the body of the [while (true)] loop: [Some status]
    when it returns, [None] when it falls through to the next pass. *)
Definition pollOnce (c : Client) (conversionId : string)
    (pollInterval timeout startTime : Z) : M (option Json) :=
  conversion <- getConversionStatus c conversionId ;;
  st <- getProp conversion "status" ;;
  if terminal st then ret (Some conversion)
  else
    t <- dateNow ;;
    if t - startTime >? timeout then throw (Error (MsgTimedOut timeout st))
    else
      sleep pollInterval ;;;
      ret None.

(** The loop itself, cut off after [fuel] passes: [None] means that it is
    still polling. *)
Fixpoint pollLoop (c : Client) (conversionId : string)
    (pollInterval timeout startTime : Z) (fuel : nat) (s : State)
    : option (Result Json * State) :=
  match fuel with
  | O => None
  | S fuel' =>
      match pollOnce c conversionId pollInterval timeout startTime s with
      | (Ok (Some conversion), s1) => Some (Ok conversion, s1)
      | (Ok None, s1) => pollLoop c conversionId pollInterval timeout startTime fuel' s1
      | (Throw e, s1) => Some (Throw e, s1)
      end
  end.

Definition waitForConversion (c : Client) (conversionId : string)
    (options : WaitOptions.t) (fuel : nat) (s : State)
    : option (Result Json * State) :=
  let pollInterval := Js.numOr (WaitOptions.pollInterval options) 2000 in
  let timeout := Js.numOr (WaitOptions.timeout options) 300000 in
  let startTime := now s in
  if negb (isValidUuid conversionId) then Some (Throw (Error MsgInvalidConversionId), s)
  else pollLoop c conversionId pollInterval timeout startTime fuel s.

Record CancelResult := { success : bool; cancelMessage : Message }.

Definition cancelConversion (c : Client) (conversionId : string) : M CancelResult :=
  if negb (isValidUuid conversionId) then throw (Error MsgInvalidConversionId)
  else
    conversion <- getConversionStatus c conversionId ;;
    st <- getProp conversion "status" ;;
    if isStr st "processing" then
      ret {| success := false; cancelMessage := MsgCannotCancel |}
    else
      tryCatch
        (request c ("/convert/" ++ conversionId)
           {| method := Some "DELETE"; headers := []; body := None |} ;;;
         ret {| success := true; cancelMessage := MsgDeleted |})
        (fun error => ret {| success := false; cancelMessage := message error |}).

Definition retryConversion (c : Client) (conversionId : string)
    (newOptions : option ConversionOptions) : M Json :=
  if negb (isValidUuid conversionId) then throw (Error MsgInvalidConversionId)
  else
    original <- getConversionStatus c conversionId ;;
    st <- getProp original "status" ;;
    if negb (isStr st "failed") then throw (Error (MsgRetryOnlyFailed st))
    else
      throw (Error (MsgRetryGuidance conversionId
                      (prop original "original_filename")
                      (prop original "target_format")
                      (if truthy (prop original "error_message")
                       then prop original "error_message"
                       else Some (JStr "Unknown")))).

End WithPlatform.

(* ================================================================== *)
(** ** More of the code: registry helpers, presets, paging, batches *)
(* ================================================================== *)

(** [o[k]] on an object literal: an own value, a value inherited from
    [Object.prototype], or [undefined]. *)
Inductive Lookup (A : Type) :=
| Own (a : A)
| Inherited (key : string)
| Missing.
Arguments Own {A} a.
Arguments Inherited {A} key.
Arguments Missing {A}.

Definition jsIndex {A} (o : list (string * A)) (k : string) : Lookup A :=
  match assoc k o with
  | Some a => Own a
  | None => if existsb (String.eqb k) OBJECT_PROTOTYPE_KEYS then Inherited k else Missing
  end.

(** src/types.ts, [getFormatCategory] *)
Definition getFormatCategory (format : string) : Lookup FormatCategory :=
  jsIndex FORMAT_CATEGORIES (Js.toLowerCase format).

Definition categoryEqb (a b : FormatCategory) : bool :=
  match a, b with
  | Category.audio, Category.audio | Category.video, Category.video
  | Category.image, Category.image | Category.document, Category.document
  | Category.ebook, Category.ebook | Category.data, Category.data
  | Category.three_d, Category.three_d | Category.font, Category.font
  | Category.archive, Category.archive | Category.cad, Category.cad => true
  | _, _ => false
  end.

(** The string a category is in the source. *)
Definition categoryName (category : FormatCategory) : string :=
  match category with
  | Category.audio => "audio" | Category.video => "video" | Category.image => "image"
  | Category.document => "document" | Category.ebook => "ebook" | Category.data => "data"
  | Category.three_d => "3d" | Category.font => "font" | Category.archive => "archive"
  | Category.cad => "cad"
  end.

(** [Array.prototype.sort] without a comparator, on strings: ascending by
    code units. *)
Fixpoint insertSorted (x : string) (l : list string) : list string :=
  match l with
  | [] => [x]
  | y :: t => if (x <=? y)%string then x :: y :: t else y :: insertSorted x t
  end.

Definition sortStrings (l : list string) : list string :=
  fold_right insertSorted [] l.

(** src/types.ts, [getFormatsByCategory] *)
Definition getFormatsByCategory (category : FormatCategory) : list string :=
  sortStrings
    (map fst (filter (fun entry => categoryEqb (snd entry) category) FORMAT_CATEGORIES)).

(** An option bag as the adapter receives it: [Record<string, unknown>]. *)
Definition Bag := list (string * Json).

(** [{...a, k: v}] and [{...a, ...b}] on bags. *)
Fixpoint objSet {A} (k : string) (v : A) (o : list (string * A)) : list (string * A) :=
  match o with
  | (k', v') :: t => if (k' =? k)%string then (k, v) :: t else (k', v') :: objSet k v t
  | [] => [(k, v)]
  end.

Definition objSpread {A} (a b : list (string * A)) : list (string * A) :=
  fold_left (fun acc e => objSet (fst e) (snd e) acc) b a.

Module PresetConfig.
Record t := { description : string; options : list (string * Bag) }.
End PresetConfig.

(** src/types.ts, [PRESET_CONFIGS] *)
Definition PRESET_CONFIGS : list (string * PresetConfig.t) :=
  [ ("web-optimized",
     {| PresetConfig.description := "Smaller files optimized for web delivery";
        PresetConfig.options :=
          [ ("audio", [("bitrate", JStr "128k"); ("sample_rate", JNum 44100);
                       ("channels", JNum 2)]);
            ("video", [("crf", JNum 28); ("preset", JStr "fast");
                       ("resolution", JStr "1280x720")]);
            ("image", [("quality", JNum 80); ("max_dimension", JNum 1920);
                       ("strip_metadata", JBool true)]);
            ("document", [("pdf_quality", JStr "screen")]) ] |});
    ("high-quality",
     {| PresetConfig.description := "Maximum quality, larger file sizes";
        PresetConfig.options :=
          [ ("audio", [("bitrate", JStr "320k"); ("sample_rate", JNum 48000);
                       ("channels", JNum 2)]);
            ("video", [("crf", JNum 18); ("preset", JStr "slow")]);
            ("image", [("quality", JNum 95); ("strip_metadata", JBool false)]);
            ("document", [("pdf_quality", JStr "prepress")]) ] |});
    ("smallest-size",
     {| PresetConfig.description := "Aggressive compression for minimum file size";
        PresetConfig.options :=
          [ ("audio", [("bitrate", JStr "64k"); ("sample_rate", JNum 22050);
                       ("channels", JNum 1)]);
            ("video", [("crf", JNum 35); ("preset", JStr "ultrafast");
                       ("resolution", JStr "854x480")]);
            ("image", [("quality", JNum 60); ("max_dimension", JNum 1024);
                       ("strip_metadata", JBool true)]);
            ("document", [("pdf_quality", JStr "screen")]) ] |});
    ("balanced",
     {| PresetConfig.description := "Good balance of quality and file size";
        PresetConfig.options :=
          [ ("audio", [("bitrate", JStr "192k"); ("sample_rate", JNum 44100);
                       ("channels", JNum 2)]);
            ("video", [("crf", JNum 23); ("preset", JStr "medium")]);
            ("image", [("quality", JNum 85); ("strip_metadata", JBool false)]);
            ("document", [("pdf_quality", JStr "ebook")]) ] |});
    ("print-ready",
     {| PresetConfig.description := "Optimized for printing (300 DPI, high quality)";
        PresetConfig.options :=
          [ ("image", [("quality", JNum 100); ("dpi", JNum 300);
                       ("strip_metadata", JBool false)]);
            ("document", [("pdf_quality", JStr "printer"); ("page_size", JStr "a4")]) ] |});
    ("archive",
     {| PresetConfig.description := "Archival quality, preserves maximum detail";
        PresetConfig.options :=
          [ ("audio", [("bitrate", JStr "320k"); ("sample_rate", JNum 48000)]);
            ("video", [("crf", JNum 15); ("preset", JStr "veryslow")]);
            ("image", [("quality", JNum 100); ("strip_metadata", JBool false)]);
            ("document", [("pdf_quality", JStr "prepress")]) ] |}) ].

(** src/types.ts, [PRESETS]: each preset name with its options only. *)
Definition PRESETS : list (string * list (string * Bag)) :=
  map (fun entry => (fst entry, PresetConfig.options (snd entry))) PRESET_CONFIGS.

Definition categoryMap : list (string * string) :=
  [ ("audio", "audio"); ("video", "video"); ("image", "image");
    ("document", "document"); ("ebook", "document") ].

(** src/types.ts, [getPresetOptions].  A name that [PRESETS] or
    [categoryMap] only inherits from [Object.prototype] selects a function
    or the prototype object, on which the following lookup finds nothing:
    the result is [undefined] as for a name that is missing. *)
Definition getPresetOptions (preset formatCategory : string) : option Bag :=
  match assoc preset PRESETS with
  | None => None
  | Some presetConfig =>
      match assoc formatCategory categoryMap with
      | Some key => assoc key presetConfig
      | None => None
      end
  end.

(** src/index.ts, [resolveOptions].  An inherited category (a target
    format such as [constructor]) is truthy, but its text is no key of
    [categoryMap], so no preset applies. *)
Definition resolveOptions (targetFormat : string) (preset : option string)
    (options : option Bag) : option Bag :=
  match preset with
  | Some name =>
      if (name =? "")%string then options
      else
        match getFormatCategory targetFormat with
        | Own category =>
            match getPresetOptions name (categoryName category) with
            | Some presetOptions =>
                Some (objSpread presetOptions
                        (match options with Some o => o | None => [] end))
            | None => options
            end
        | Inherited _ | Missing => options
        end
  | None => options
  end.

(** The cast [options as ConversionOptions]: the three keys the estimator
    reads, when they have the declared type, and the rest of the bag. *)
Definition viewOptions (o : Bag) : ConversionOptions :=
  let typed (entry : string * Json) : bool :=
    match entry with
    | ("bitrate", JStr _) | ("crf", JNum _) | ("quality", JNum _) => true
    | _ => false
    end in
  {| bitrate := match assoc "bitrate" o with Some (JStr s) => Some s | _ => None end;
     crf := match assoc "crf" o with Some (JNum x) => Some x | _ => None end;
     quality := match assoc "quality" o with Some (JNum x) => Some x | _ => None end;
     extra := filter (fun entry => negb (typed entry)) o |}.

(** The text of an error message is empty. *)
Definition messageBlank (m : Message) : bool :=
  match m with
  | MsgPlatform text => (text =? "")%string
  | _ => false
  end.

Module BatchFile.
Record t := { file_path : string; target_format : string }.
End BatchFile.

Module BatchArgs.
Record t := { files : list BatchFile.t; options : option Bag; preset : option string }.
End BatchArgs.

Definition ZodError : JsError := {| name := "ZodError"; message := MsgIssues |}.

(** src/index.ts, [BatchConvertSchema], and its [parse]: the value must be
    an object whose [files] is an array of 1 to 50 objects, each with a
    [file_path] of at least one character and a [target_format] of 1 to 10
    characters; [options], when present, must be an object and [preset],
    when present, a string.  Keys the schema does not name are dropped.
    Anything else throws a ZodError. *)
Module BatchConvertSchema.

Definition lengthWithin (low : nat) (high : option nat) (text : string) : bool :=
  (low <=? String.length text)%nat &&
  match high with
  | Some h => (String.length text <=? h)%nat
  | None => true
  end.

Definition file (j : Json) : option BatchFile.t :=
  match j with
  | JObj fields =>
      match assoc "file_path" fields, assoc "target_format" fields with
      | Some (JStr filePath), Some (JStr targetFormat) =>
          if lengthWithin 1 None filePath && lengthWithin 1 (Some 10%nat) targetFormat
          then Some {| BatchFile.file_path := filePath;
                       BatchFile.target_format := targetFormat |}
          else None
      | _, _ => None
      end
  | _ => None
  end.

Fixpoint each (items : list Json) : option (list BatchFile.t) :=
  match items with
  | [] => Some []
  | j :: rest =>
      match file j, each rest with
      | Some f, Some fs => Some (f :: fs)
      | _, _ => None
      end
  end.

(** [z.record(z.unknown()).optional()] and [z.string().optional()]:
    [None] is a value the schema refuses. *)
Definition optionalRecord (v : JsVal) : option (option Bag) :=
  match v with
  | None => Some None
  | Some (JObj fields) => Some (Some fields)
  | Some _ => None
  end.

Definition optionalString (v : JsVal) : option (option string) :=
  match v with
  | None => Some None
  | Some (JStr text) => Some (Some text)
  | Some _ => None
  end.

Definition parse (args : JsVal) : Result BatchArgs.t :=
  match args with
  | Some (JObj fields) =>
      match assoc "files" fields with
      | Some (JArr items) =>
          match each items, optionalRecord (assoc "options" fields),
                optionalString (assoc "preset" fields) with
          | Some files, Some options, Some preset =>
              if ((1 <=? List.length files) && (List.length files <=? 50))%nat
              then Ok {| BatchArgs.files := files; BatchArgs.options := options;
                         BatchArgs.preset := preset |}
              else Throw ZodError
          | _, _, _ => Throw ZodError
          end
      | _ => Throw ZodError
      end
  | _ => Throw ZodError
  end.

End BatchConvertSchema.

(** src/index.ts: the configuration read at start-up and the field
    [client] of the server. *)
Module Server.
Record t := { API_KEY : option string; BASE_URL : string; client : option Client }.
End Server.

(** One line of the batch report: [{ file, id }] or [{ file, error }]. *)
Record BatchEntry := {
  entryFile : string;
  entryId : JsVal;
  entryError : option Message
}.

(** What the text of the batch report is built from. *)
Record BatchReport := {
  results : list BatchEntry;
  successful : list BatchEntry;
  failed : list BatchEntry
}.

Section MoreOperations.

Variable P : Platform.

(** src/client.ts, [listConversions]; an absent argument takes its
    default.  The arguments are whole numbers; the arithmetic and the
    rendering are those of the source as long as [(page - 1) * 100] does
    not exceed [Js.MAX_SAFE_INTEGER] (beyond, the source rounds and prints
    in exponent notation, which is not modelled). *)
Definition listConversions (c : Client) (page perPage : option Z) : M Json :=
  let page := match page with Some p => p | None => 1 end in
  let perPage := match perPage with Some n => n | None => 10 end in
  let page := if page <? 1 then 1 else page in
  let perPage := if perPage <? 1 then 1 else perPage in
  let perPage := if perPage >? 100 then 100 else perPage in
  let skip := (page - 1) * perPage in
  let limit := perPage in
  request P c ("/convert/list?skip=" ++ Js.showZ skip ++ "&limit=" ++ Js.showZ limit) noInit.

(** The body of the [for] loop of [handleBatchConvert]. *)
Definition batchOne (c : Client) (args : BatchArgs.t) (f : BatchFile.t) : M BatchEntry :=
  tryCatch
    (let options :=
       resolveOptions (BatchFile.target_format f) (BatchArgs.preset args)
                      (BatchArgs.options args) in
     result <- convertFile P c (BatchFile.file_path f) (BatchFile.target_format f)
                 (option_map viewOptions options) ;;
     id <- getProp result "id" ;;
     ret {| entryFile := BatchFile.file_path f; entryId := id; entryError := None |})
    (fun error =>
       ret {| entryFile := BatchFile.file_path f; entryId := None;
              entryError := Some (message error) |}).

Fixpoint batchLoop (c : Client) (args : BatchArgs.t) (todo : list BatchFile.t)
    (done : list BatchEntry) : M (list BatchEntry) :=
  match todo with
  | [] => ret done
  | f :: rest =>
      entry <- batchOne c args f ;;
      batchLoop c args rest (done ++ [entry])%list
  end.

(** src/index.ts, [getClient]: the client of the server, built on first
    use from the start-up configuration and kept. *)
Definition getClient (server : Server.t) : Result Client * Server.t :=
  match Server.client server with
  | Some c => (Ok c, server)
  | None =>
      let key := Js.strOr (Server.API_KEY server) "" in
      if (key =? "")%string then (Throw (Error MsgApiKeyMissing), server)
      else
        match constructor P {| ClientConfig.apiKey := key;
                               ClientConfig.baseUrl := Some (Server.BASE_URL server);
                               ClientConfig.timeout := None |} with
        | Ok c => (Ok c, {| Server.API_KEY := Server.API_KEY server;
                            Server.BASE_URL := Server.BASE_URL server;
                            Server.client := Some c |})
        | Throw e => (Throw e, server)
        end
  end.

(** The rest of [handleBatchConvert] once the arguments are parsed and the
    client is there, up to the rendering of the text. *)
Definition batchReport (c : Client) (parsed : BatchArgs.t) : M BatchReport :=
  all <- batchLoop c parsed (BatchArgs.files parsed) [] ;;
  ret {| results := all;
         successful := filter (fun r => truthy (entryId r)) all;
         failed := filter (fun r => match entryError r with
                                    | Some m => negb (messageBlank m)
                                    | None => false
                                    end) all |}.

(** src/index.ts, [handleBatchConvert], up to the rendering of the text:
    what the call does to the world, and the server it leaves.  Both
    [parse] and [getClient] are over before anything is awaited. *)
Definition handleBatchConvert (server : Server.t) (args : JsVal)
    : M BatchReport * Server.t :=
  match BatchConvertSchema.parse args with
  | Throw e => (throw e, server)
  | Ok parsed =>
      match getClient server with
      | (Throw e, server') => (throw e, server')
      | (Ok c, server') => (batchReport c parsed, server')
      end
  end.

End MoreOperations.

(* ================================================================== *)
(** ** Vocabulary of the statements *)
(* ================================================================== *)

Local Open Scope list_scope.

(** Number of fetches in a stretch of the trace. *)
Fixpoint fetchCount (t : list Event) : nat :=
  match t with
  | Fetch _ :: r => S (fetchCount r)
  | Sleep _ :: r => fetchCount r
  | [] => O
  end.

(** The timer delays in a stretch of the trace, in order. *)
Fixpoint sleeps (t : list Event) : list Z :=
  match t with
  | Sleep ms :: r => ms :: sleeps r
  | Fetch _ :: r => sleeps r
  | [] => []
  end.

(** What [fetchWithTimeout] obtains from the n-th fetch of the run. *)
Definition answer (P : Platform) (c : Client) (n : nat) (req : Request) : FetchResult :=
  let a := network P n req in
  if timerDelay (timeout c) <=? latency a
  then Rejects "AbortError" "This operation was aborted"
  else settles a.

(** How an answer reaches the caller of [fetchWithTimeout]. *)
Definition thrown (a : FetchResult) : Result Response :=
  match a with
  | Responds r => Ok r
  | Rejects errorName text => Throw (platformError errorName text)
  end.

(** The request [fetchWithRetry] sends on every attempt of one call. *)
Definition tagged (url : string) (options : RequestInit) (correlationId : string) : Request :=
  {| url := url;
     init := {| method := method options;
                headers := setKey "X-Correlation-ID" correlationId (headers options);
                body := body options |} |}.

(** [n] retries of [req], entered at [attempt], each fetch but the last
    followed by the backoff sleep of its attempt. *)
Fixpoint backoffTrace (req : Request) (attempt n : nat) : list Event :=
  match n with
  | O => [Fetch req]
  | S k => Fetch req :: Sleep (DEFAULT_RETRY_DELAY * 2 ^ Z.of_nat attempt)
             :: backoffTrace req (S attempt) k
  end.

(** State [s'] continues [s]: same cache and random draws, no fewer
    fetches, a longer trace. *)
Definition continues (s s' : State) : Prop :=
  formatCache s' = formatCache s /\ randoms s' = randoms s /\
  (fetches s <= fetches s')%nat /\ exists ev, trace s' = trace s ++ ev.

(** ... and the first thing that happened after [s] was a fetch of [req]. *)
Definition fetchedFirst (req : Request) (s s' : State) : Prop :=
  formatCache s' = formatCache s /\ randoms s' = randoms s /\
  (fetches s < fetches s')%nat /\ exists ev, trace s' = trace s ++ Fetch req :: ev.

Definition isTimedOut (e : JsError) : bool :=
  match message e with
  | MsgTimedOut _ _ => true
  | _ => false
  end.

(** No path separator, no code unit of the ranges the sanitizer removes. *)
Definition noSeparator (l : list ascii) : Prop := Forall (fun ch => path.notSep ch = true) l.
Definition noUnsafe (l : list ascii) : Prop := Forall (fun ch => Filename.unsafe ch = false) l.

(** The stages of [sanitizeChars], named: the base name without the unsafe
    code units, and the length limit applied to it. *)
Definition cleaned (filename : list ascii) : list ascii :=
  Filename.clean (path.basenameChars filename).

Definition shortened (name : list ascii) : list ascii :=
  if (255 <? Z.of_nat (List.length name)) then
    let ext := path.extnameChars name in
    firstn (Z.to_nat (255 - Z.of_nat (List.length ext))) (Filename.stem name ext) ++ ext
  else name.

(** Logical requests started so far: [request] draws one correlation id
    per call and nothing else draws random numbers. *)
Definition requestsStarted (s : State) : nat := randoms s.

(** A status fetch happened between [s] and [s']: the first event after [s]
    is a fetch of the job's status address. *)
Definition statusFetched (c : Client) (conversionId : string) (s s' : State) : Prop :=
  (fetches s < fetches s')%nat /\
  exists req ev, trace s' = trace s ++ Fetch req :: ev /\
                 url req = (baseUrl c ++ "/api/convert/" ++ conversionId)%string.

(** Last character of a string. *)
Fixpoint lastChar (s : string) : option ascii :=
  match s with
  | EmptyString => None
  | String ch EmptyString => Some ch
  | String _ t => lastChar t
  end.

Module Spec.

(** Wording of the specification, for comparison with the code. *)

(** Host of an address: what stands between the scheme separator and the
    next slash, question mark or hash, without user info and port. *)
Definition authority (address : string) : list ascii :=
  let afterScheme :=
    if Js.startsWith address "http://" then Js.drop 7 address
    else if Js.startsWith address "https://" then Js.drop 8 address
    else address in
  Js.takeWhile (fun ch => negb ((ch =? "/")%char || (ch =? "?")%char || (ch =? "#")%char))
               (Js.chars afterScheme).

Definition host (address : string) : string :=
  let a := authority address in
  let noUser :=
    if existsb (fun ch => (ch =? "@")%char) a
    then tl (Js.dropWhile (fun ch => negb (ch =? "@")%char) a)
    else a in
  Js.str (Js.takeWhile (fun ch => negb (ch =? ":")%char) noUser).

(** A loopback host: the name localhost or an address of 127.0.0.0/8. *)
Definition loopback (h : string) : bool :=
  (Js.toLowerCase h =? "localhost")%string || Js.startsWith h "127.".

Definition insecure (address : string) : bool := Js.startsWith address "http://".
Definition secure (address : string) : bool := Js.startsWith address "https://".

(** The value a wait option is configured to: the caller's when given,
    the default otherwise. *)
Definition configured (given : option Z) (default : Z) : Z :=
  match given with
  | Some v => v
  | None => default
  end.

(** How long a sleep asked for [interval] milliseconds lasts: the
    interval when it lies between 1 and 2147483647, and 1 ms otherwise. *)
Definition lasts (interval : Z) : Z :=
  if (1 <=? interval) && (interval <=? 2147483647) then interval else 1.

(** The world after a sleep asked for [interval] milliseconds: the clock
    has moved by what the sleep lasts, one timer was armed, nothing was
    sent. *)
Definition asleep (interval : Z) (s : State) : State :=
  {| formatCache := formatCache s; now := now s + lasts interval;
     fetches := fetches s; randoms := randoms s;
     trace := trace s ++ [Sleep interval] |}.

(** The polling state machine: on each tick fetch the status; a terminal
    status is returned; otherwise, when the time elapsed since the start
    exceeds the timeout, fail reporting the status last seen; otherwise
    sleep for the poll interval and repeat.  A failing fetch ends the
    wait with its error. *)
Inductive waits (fetchStatus : M (Json * JsVal)) (pollInterval timeout startTime : Z)
  : State -> Result Json -> State -> Prop :=
| waits_terminal s conversion st s1 :
    fetchStatus s = (Ok (conversion, st), s1) ->
    terminal st = true ->
    waits fetchStatus pollInterval timeout startTime s (Ok conversion) s1
| waits_timeout s conversion st s1 :
    fetchStatus s = (Ok (conversion, st), s1) ->
    terminal st = false ->
    now s1 - startTime > timeout ->
    waits fetchStatus pollInterval timeout startTime s
          (Throw (Error (MsgTimedOut timeout st))) s1
| waits_sleep s conversion st s1 r s2 :
    fetchStatus s = (Ok (conversion, st), s1) ->
    terminal st = false ->
    now s1 - startTime <= timeout ->
    waits fetchStatus pollInterval timeout startTime (asleep pollInterval s1) r s2 ->
    waits fetchStatus pollInterval timeout startTime s r s2
| waits_error s e s1 :
    fetchStatus s = (Throw e, s1) ->
    waits fetchStatus pollInterval timeout startTime s (Throw e) s1.

End Spec.

(** "Fetch the current status": the status call and the read of its
    [status] field. *)
Definition fetchStatus (P : Platform) (c : Client) (conversionId : string)
    : M (Json * JsVal) :=
  conversion <- getConversionStatus P c conversionId ;;
  st <- getProp conversion "status" ;;
  ret (conversion, st).

(* ------------------------------------------------------------------ *)
(** *** Concrete platforms, clients and inputs used as instances *)

Module Example.

Definition respond (code : Z) (h : Headers) (j : option Json) : Response :=
  {| status := code; statusText := "-"; responseHeaders := h; json := j;
     arrayBuffer := {| byteLength := 0 |} |}.

Definition within (ms : Z) (r : Response) : Attempt :=
  {| latency := ms; settles := Responds r |}.

(** A platform that answers through [net], accepts every address and sees
    a file of [size] bytes at every path. *)
Definition platform (net : nat -> Request -> Attempt) (size : Z) : Platform :=
  {| network := net;
     random36 := fun _ => "k3j9x2a";
     urlParses := fun _ => true;
     dateParse := fun _ => None;
     toString := fun _ => "[object Object]";
     resolve := fun p => p;
     existsSync := fun _ => true;
     isFile := fun _ => true;
     realpathSync := fun p => p;
     readFileSync := fun _ => Reads {| byteLength := size |};
     fromBase64 := fun _ => {| byteLength := size |} |}.

Definition client : Client :=
  {| apiKey := "ce_live_key";
     baseUrl := "https://converteverything.io";
     timeout := DEFAULT_TIMEOUT;
     userAgent := "converteverything-mcp/1.2.0 (Node.js)";
     maxRetries := DEFAULT_MAX_RETRIES |}.

Definition start : State :=
  {| formatCache := None; now := 1700000000000; fetches := 0; randoms := 0;
     trace := [] |}.

Definition uuid : string := "123e4567-e89b-12d3-a456-426614174000".

Definition job (st : string) : Json :=
  JObj [("id", JStr uuid); ("status", JStr st)].

(** Every fetch is answered 503 after 5 ms. *)
Definition unavailable : Platform :=
  platform (fun _ _ => within 5 (respond 503 [] None)) 10.

(** The first fetch is answered 429 with the given Retry-After value, the
    following ones 200. *)
Definition rateLimitedOnce (retryAfter : string) : Platform :=
  platform (fun n _ =>
              within 5 (if (n =? 0)%nat
                        then respond 429 [("Retry-After", retryAfter)] None
                        else respond 200 [] (Some (JObj [])))) 10.

(** The first fetch needs as long as the client's timeout, the following
    ones are answered 200 after 5 ms. *)
Definition slowOnce : Platform :=
  platform (fun n _ =>
              if (n =? 0)%nat then within DEFAULT_TIMEOUT (respond 200 [] (Some (JObj [])))
              else within 5 (respond 200 [] (Some (JObj [])))) 10.

(** The first fetch fails with a network error, the following ones are
    answered 200. *)
Definition flakyOnce : Platform :=
  platform (fun n _ =>
              if (n =? 0)%nat
              then {| latency := 5; settles := Rejects "TypeError" "fetch failed" |}
              else within 5 (respond 200 [] (Some (JObj [])))) 10.

(** The job is seen processing once, then completed. *)
Definition processingOnce : Platform :=
  platform (fun n _ =>
              within 5 (respond 200 []
                          (Some (job (if (n =? 0)%nat then "processing" else "completed")))))
           10.

(** The job is completed from the start. *)
Definition completed : Platform :=
  platform (fun _ _ => within 5 (respond 200 [] (Some (job "completed")))) 10.

Definition formatList : Json := JObj [("total_formats", JNum 93)].

(** The format list is served after 5 ms. *)
Definition formats : Platform :=
  platform (fun _ _ => within 5 (respond 200 [] (Some formatList))) 10.

(** The state a first call for the formats leaves behind. *)
Definition listed : State :=
  Eval vm_compute in snd (getSupportedFormats formats client false start).

(** A platform whose files are all larger than the 10 GiB ceiling. *)
Definition hugeFiles : Platform :=
  platform (fun _ _ => within 5 (respond 200 [] (Some (JObj [])))) (MAX_SIZE + 1).

(** A 302-character name whose extension alone has 301 characters. *)
Definition longExtension : string :=
  Js.str (Js.chars "a." ++ repeat "b"%char 300).

(** A 300-character name with the extension [.txt]. *)
Definition longName : string :=
  Js.str (repeat "n"%char 296 ++ Js.chars ".txt").

Definition wavToMp3 : ConversionOptions :=
  {| bitrate := Some "128k"; crf := None; quality := None; extra := [] |}.

End Example.

(* ------------------------------------------------------------------ *)
(** *** Further vocabulary and instances *)

(** Every fetch in a stretch of the trace is a fetch of [req]. *)
Definition sends (req : Request) (ev : list Event) : Prop :=
  Forall (fun e => match e with Fetch q => q = req | Sleep _ => True end) ev.

(** The network never answers in negative time. *)
Definition causal (P : Platform) : Prop :=
  forall n req, 0 <= latency (network P n req).

(** The request [request] sends for one call started in state [s]. *)
Definition outgoing (P : Platform) (c : Client) (endpoint : string)
    (options : RequestInit) (s : State) : Request :=
  tagged (baseUrl c ++ "/api" ++ endpoint)%string
         {| method := method options;
            headers := spread [("Authorization", ("Bearer " ++ apiKey c)%string);
                               ("User-Agent", userAgent c)] (headers options);
            body := body options |}
         ("mcp-" ++ Js.showZ (now s) ++ "-" ++ random36 P (randoms s))%string.

Module Sample.

(** Every fetch is answered 404 after 5 ms. *)
Definition notFound : Platform :=
  Example.platform
    (fun _ _ => Example.within 5
                  (Example.respond 404 [] (Some (JObj [("detail", JStr "Not found")])))) 10.

(** Every fetch is answered 429 with [Retry-After: 7]. *)
Definition alwaysLimited : Platform :=
  Example.platform
    (fun _ _ => Example.within 5 (Example.respond 429 [("Retry-After", "7")] None)) 10.

(** The job is processing for ever. *)
Definition processing : Platform :=
  Example.platform
    (fun _ _ => Example.within 5 (Example.respond 200 [] (Some (Example.job "processing")))) 10.

(** The job has failed. *)
Definition failedJob : Platform :=
  Example.platform
    (fun _ _ => Example.within 5 (Example.respond 200 [] (Some (Example.job "failed")))) 10.

(** A completed job with a download locator; every fetch is answered 200. *)
Definition readyJob : Json :=
  JObj [("id", JStr Example.uuid); ("status", JStr "completed");
        ("target_format", JStr "mp3"); ("original_filename", JStr "song.wav");
        ("download_url", JStr "https://cdn.example.com/f/song.mp3")].

Definition ready : Platform :=
  Example.platform
    (fun _ _ => Example.within 5 (Example.respond 200 [] (Some readyJob))) 10.

(** The first three fetches are answered 503, the following ones serve
    the format list. *)
Definition formatsAfterRetries : Platform :=
  Example.platform
    (fun n _ => Example.within 5
                  (if (n <? 3)%nat then Example.respond 503 [] None
                   else Example.respond 200 [] (Some Example.formatList))) 10.

(** A submission is answered with a new job. *)
Definition accepting : Platform :=
  Example.platform
    (fun _ _ => Example.within 5 (Example.respond 200 [] (Some (Example.job "pending")))) 10.

End Sample.

(** Every character of a string passes a test. *)
Fixpoint everyChar (p : ascii -> bool) (s : string) : bool :=
  match s with
  | EmptyString => true
  | String ch t => p ch && everyChar p t
  end.

(** A hexadecimal digit or a hyphen. *)
Definition uuidChar (ch : ascii) : bool := Js.isHex ch || (ch =? "-")%char.

(** No string occurs twice. *)
Fixpoint distinct (l : list string) : bool :=
  match l with
  | [] => true
  | x :: t => negb (existsb (String.eqb x) t) && distinct t
  end.

(** Each string is at most the next one, by code units. *)
Fixpoint ascending (l : list string) : Prop :=
  match l with
  | x :: t => match t with
              | y :: _ => (x <=? y)%string = true
              | [] => True
              end /\ ascending t
  | [] => True
  end.

(** An entry of the batch report never has both an identifier and an
    error. *)
Definition oneSided (e : BatchEntry) : Prop := entryId e = None \/ entryError e = None.

(** A platform on which no file can be read. *)
Definition unreadable : Platform :=
  {| network := network Example.completed;
     random36 := random36 Example.completed;
     urlParses := urlParses Example.completed;
     dateParse := dateParse Example.completed;
     toString := toString Example.completed;
     resolve := resolve Example.completed;
     existsSync := existsSync Example.completed;
     isFile := isFile Example.completed;
     realpathSync := realpathSync Example.completed;
     readFileSync := fun _ => ReadFails "Error" "EACCES: permission denied, open";
     fromBase64 := fromBase64 Example.completed |}.

(** A platform whose URL parser rejects the empty address, as [new URL]
    does, and accepts every other one. *)
Definition strictPlatform : Platform :=
  {| network := network Example.completed;
     random36 := random36 Example.completed;
     urlParses := fun u => negb (u =? "")%string;
     dateParse := dateParse Example.completed;
     toString := toString Example.completed;
     resolve := resolve Example.completed;
     existsSync := existsSync Example.completed;
     isFile := isFile Example.completed;
     realpathSync := realpathSync Example.completed;
     readFileSync := readFileSync Example.completed;
     fromBase64 := fromBase64 Example.completed |}.

(* ================================================================== *)
(** ** Lists and strings *)
(* ================================================================== *)

Section WhileLemmas.

Context {A : Type} (p : A -> bool).

Lemma takeWhile_dropWhile (l : list A) :
  Js.takeWhile p l ++ Js.dropWhile p l = l.
Proof.
  induction l as [|x l IH]; simpl; [reflexivity|].
  destruct (p x); simpl; [now rewrite IH | reflexivity].
Qed.

Lemma takeWhile_all (l : list A) :
  Forall (fun x => p x = true) (Js.takeWhile p l).
Proof.
  induction l as [|x l IH]; simpl; [constructor|].
  destruct (p x) eqn:E; [constructor; assumption | constructor].
Qed.

Lemma takeWhile_incl (l : list A) : incl (Js.takeWhile p l) l.
Proof.
  intros x Hx. rewrite <- (takeWhile_dropWhile l). apply in_or_app. now left.
Qed.

Lemma dropWhile_incl (l : list A) : incl (Js.dropWhile p l) l.
Proof.
  intros x Hx. rewrite <- (takeWhile_dropWhile l). apply in_or_app. now right.
Qed.

Lemma takeWhile_id (l : list A) :
  Forall (fun x => p x = true) l -> Js.takeWhile p l = l.
Proof.
  induction 1 as [|x l Hx _ IH]; simpl; [reflexivity|].
  now rewrite Hx, IH.
Qed.

End WhileLemmas.

Lemma chars_str (l : list ascii) : Js.chars (Js.str l) = l.
Proof. apply list_ascii_of_string_of_list_ascii. Qed.

Lemma str_chars (s : string) : Js.str (Js.chars s) = s.
Proof. apply string_of_list_ascii_of_string. Qed.

Lemma length_str (l : list ascii) : String.length (Js.str l) = List.length l.
Proof. induction l as [|x l IH]; simpl; [reflexivity | now rewrite IH]. Qed.

Lemma charsEqb_eq (a b : list ascii) : Js.charsEqb a b = true <-> a = b.
Proof.
  unfold Js.charsEqb. rewrite String.eqb_eq. split; [|now intros ->].
  intros H. rewrite <- (chars_str a), <- (chars_str b). now rewrite H.
Qed.

(* ================================================================== *)
(** ** File names *)
(* ================================================================== *)


Lemma basenameChars_noSeparator (p : list ascii) : noSeparator (path.basenameChars p).
Proof.
  unfold noSeparator, path.basenameChars. apply Forall_rev. apply takeWhile_all.
Qed.

Lemma basenameChars_id (name : list ascii) :
  noSeparator name -> path.basenameChars name = name.
Proof.
  intros H. unfold path.basenameChars.
  assert (Hr : Forall (fun ch => path.notSep ch = true) (rev name)) by now apply Forall_rev.
  assert (Hd : Js.dropWhile path.isSep (rev name) = rev name).
  { destruct (rev name) as [|x r]; simpl; [reflexivity|].
    inversion Hr as [|? ? Hx _]; subst. unfold path.notSep in Hx.
    destruct (path.isSep x); [discriminate | reflexivity]. }
  rewrite Hd, takeWhile_id by assumption. apply rev_involutive.
Qed.

Lemma clean_noUnsafe (l : list ascii) : noUnsafe (Filename.clean l).
Proof.
  unfold noUnsafe, Filename.clean. apply Forall_forall. intros x Hx.
  apply filter_In in Hx. destruct Hx as [_ Hx]. now apply negb_true_iff in Hx.
Qed.

Lemma clean_incl (l : list ascii) : incl (Filename.clean l) l.
Proof. intros x Hx. apply filter_In in Hx. tauto. Qed.

(** Without a separator a name is its stem followed by its extension. *)
Lemma extname_suffix (name : list ascii) :
  noSeparator name ->
  exists base, name = base ++ path.extnameChars name.
Proof.
  intros H. unfold path.extnameChars. rewrite (basenameChars_id name H).
  destruct (Js.charsEqb name (Js.chars "..")); [exists name; now rewrite app_nil_r|].
  pose proof (takeWhile_dropWhile path.notDot (rev name)) as Hsplit.
  destruct (Js.dropWhile path.notDot (rev name)) as [|dot [|x rest]] eqn:Hd.
  - exists name. now rewrite app_nil_r.
  - exists name. now rewrite app_nil_r.
  - exists (rev (x :: rest)).
    set (tw := Js.takeWhile path.notDot (rev name)) in *.
    apply (f_equal (@rev ascii)) in Hsplit.
    rewrite rev_involutive, rev_app_distr in Hsplit.
    change (dot :: x :: rest) with ([dot] ++ (x :: rest)) in Hsplit.
    rewrite rev_app_distr, <- app_assoc in Hsplit. simpl in Hsplit.
    symmetry. exact Hsplit.
Qed.

Lemma stem_app (base ext : list ascii) : Filename.stem (base ++ ext) ext = base.
Proof.
  unfold Filename.stem. rewrite length_app.
  replace (List.length base + List.length ext - List.length ext)%nat with (List.length base) by lia.
  rewrite firstn_app, Nat.sub_diag, firstn_all. simpl. apply app_nil_r.
Qed.


Lemma sanitizeChars_stages (filename : list ascii) :
  Filename.sanitizeChars filename =
  let name := shortened (cleaned filename) in
  match name with
  | [] => Filename.FALLBACK
  | _ => if Js.charsEqb name (Js.chars ".") then Filename.FALLBACK else name
  end.
Proof. reflexivity. Qed.

Lemma cleaned_noSeparator (f : list ascii) : noSeparator (cleaned f).
Proof.
  unfold cleaned. eapply incl_Forall; [apply clean_incl | apply basenameChars_noSeparator].
Qed.

Lemma shortened_incl (name : list ascii) :
  noSeparator name -> incl (shortened name) name.
Proof.
  intros H. unfold shortened.
  destruct (255 <? Z.of_nat (List.length name)); [|apply incl_refl].
  destruct (extname_suffix name H) as [base Hb].
  cbv zeta. set (ext := path.extnameChars name) in *.
  rewrite Hb at 1. rewrite stem_app.
  intros x Hx. rewrite Hb. apply in_app_or in Hx. apply in_or_app.
  destruct Hx as [Hx|Hx]; [left | now right].
  rewrite <- (firstn_skipn (Z.to_nat (255 - Z.of_nat (List.length ext))) base).
  apply in_or_app. now left.
Qed.

Lemma shortened_long (name : list ascii) :
  noSeparator name -> (255 < List.length name)%nat ->
  exists base, name = base ++ path.extnameChars name /\
    shortened name = firstn (255 - List.length (path.extnameChars name)) base
                       ++ path.extnameChars name /\
    (255 <= List.length (shortened name))%nat /\
    ((List.length (path.extnameChars name) <= 255)%nat -> List.length (shortened name) = 255%nat).
Proof.
  intros H Hlen. destruct (extname_suffix name H) as [base Hb]. exists base.
  split; [exact Hb|]. unfold shortened.
  replace (255 <? Z.of_nat (List.length name)) with true by (symmetry; apply Z.ltb_lt; lia).
  cbv zeta. set (ext := path.extnameChars name) in *.
  replace (Filename.stem name ext) with base by (rewrite Hb at 1; now rewrite stem_app).
  replace (Z.to_nat (255 - Z.of_nat (List.length ext))) with (255 - List.length ext)%nat by lia.
  split; [reflexivity|].
  assert (Hn : List.length name = (List.length base + List.length ext)%nat)
    by (rewrite Hb at 1; apply length_app).
  rewrite length_app, length_firstn. split; [lia | intros; lia].
Qed.

Lemma sanitizeChars_cases (f : list ascii) :
  (Filename.sanitizeChars f = Filename.FALLBACK /\
   (shortened (cleaned f) = [] \/ shortened (cleaned f) = Js.chars ".")) \/
  (Filename.sanitizeChars f = shortened (cleaned f) /\
   shortened (cleaned f) <> [] /\ shortened (cleaned f) <> Js.chars ".").
Proof.
  rewrite sanitizeChars_stages. cbv zeta.
  destruct (shortened (cleaned f)) as [|a l] eqn:E; [left; split; [reflexivity | now left]|].
  destruct (Js.charsEqb (a :: l) (Js.chars ".")) eqn:Hd.
  - left. split; [reflexivity|]. right. now apply charsEqb_eq.
  - right. split; [reflexivity|]. split; [discriminate|].
    intros Heq. apply charsEqb_eq in Heq. congruence.
Qed.

(** X26: what the file-name sanitizer does.  The path
    [../../etc/passwd] yields [passwd] and the empty string yields the
    fallback name [file]; the result never holds a path separator nor a code
    unit of the ranges 0x00-0x1f and 0x80-0x9f, and is never empty nor a
    lone dot; a name whose cleaned base name (the base name without those
    code units) is empty or a lone dot yields the fallback; a cleaned base
    name longer than 255 characters is replaced by its extension preceded
    by the first 255 - |ext| characters of its stem, which has exactly 255
    characters whenever the extension has at most 255; and every other
    cleaned base name is the result as it is. *)
Theorem sanitizeFilename_contract :
  sanitizeFilename "../../etc/passwd" = "passwd" /\
  sanitizeFilename "" = "file" /\
  (forall f, let out := Js.chars (sanitizeFilename f) in
     noSeparator out /\ noUnsafe out /\ out <> [] /\ out <> Js.chars ".") /\
  (forall f, let name := cleaned (Js.chars f) in
     name = [] \/ name = Js.chars "." -> sanitizeFilename f = "file") /\
  (forall f, let name := cleaned (Js.chars f) in
     let ext := path.extnameChars name in
     (255 < List.length name)%nat ->
     exists stem,
       name = stem ++ ext /\
       sanitizeFilename f = Js.str (firstn (255 - List.length ext) stem ++ ext) /\
       ((List.length ext <= 255)%nat -> String.length (sanitizeFilename f) = 255%nat)) /\
  (forall f, let name := cleaned (Js.chars f) in
     name <> [] -> name <> Js.chars "." -> (List.length name <= 255)%nat ->
     sanitizeFilename f = Js.str name).
Proof.
  split; [reflexivity|]. split; [reflexivity|]. split; [|split; [|split]].
  - intros f out. subst out. unfold sanitizeFilename. rewrite chars_str.
    destruct (sanitizeChars_cases (Js.chars f)) as [[-> _]|[-> [Hne Hnd]]].
    + repeat split; try discriminate;
        repeat (constructor; try reflexivity).
    + pose proof (cleaned_noSeparator (Js.chars f)) as Hs.
      pose proof (shortened_incl _ Hs) as Hi.
      repeat split; try assumption.
      * eapply incl_Forall; eassumption.
      * eapply incl_Forall; [eassumption|]. apply clean_noUnsafe.
  - intros f name Hname. subst name. unfold sanitizeFilename.
    rewrite sanitizeChars_stages. cbv zeta. unfold shortened at 1 2 3.
    destruct Hname as [-> | ->]; reflexivity.
  - intros f name ext Hlen. subst name ext.
    destruct (shortened_long _ (cleaned_noSeparator (Js.chars f)) Hlen)
      as [stem [Hstem [Hshort [Hge H255]]]].
    exists stem. split; [exact Hstem|].
    assert (Hout : Filename.sanitizeChars (Js.chars f) = shortened (cleaned (Js.chars f))).
    { destruct (sanitizeChars_cases (Js.chars f)) as [[_ [Hnil|Hdot]]|[Hs _]];
        [rewrite Hnil in Hge; simpl in Hge; lia
        |rewrite Hdot in Hge; simpl in Hge; lia
        |exact Hs]. }
    unfold sanitizeFilename. rewrite Hout. split; [now rewrite Hshort|].
    intros Hext. rewrite length_str. now apply H255.
  - intros f name Hne Hnd Hlen. subst name.
    assert (Hsame : shortened (cleaned (Js.chars f)) = cleaned (Js.chars f)).
    { unfold shortened.
      replace (255 <? Z.of_nat (List.length (cleaned (Js.chars f)))) with false
        by (symmetry; apply Z.ltb_ge; lia).
      reflexivity. }
    unfold sanitizeFilename.
    destruct (sanitizeChars_cases (Js.chars f)) as [[_ [Hnil|Hdot]]|[Hs _]].
    + rewrite Hsame in Hnil. contradiction.
    + rewrite Hsame in Hdot. contradiction.
    + now rewrite Hs, Hsame.
Qed.

(** Instances of the contract: a path ending in a lone dot yields the
    fallback, and the 300-character name ending in [.txt] comes out with
    255 characters, the extension kept. *)
Lemma sanitizeFilename_contract_witness :
  (cleaned (Js.chars "uploads/.") = Js.chars "." /\
   sanitizeFilename "uploads/." = "file") /\
  (255 < List.length (cleaned (Js.chars Example.longName)))%nat /\
  exists stem,
    cleaned (Js.chars Example.longName)
      = stem ++ path.extnameChars (cleaned (Js.chars Example.longName)) /\
    sanitizeFilename Example.longName
      = Js.str (firstn (255 - List.length (path.extnameChars (cleaned (Js.chars Example.longName)))) stem
                ++ path.extnameChars (cleaned (Js.chars Example.longName))) /\
    ((List.length (path.extnameChars (cleaned (Js.chars Example.longName))) <= 255)%nat ->
     String.length (sanitizeFilename Example.longName) = 255%nat).
Proof.
  assert (H : (255 < List.length (cleaned (Js.chars Example.longName)))%nat)
    by (vm_compute; lia).
  split.
  { split; [reflexivity|].
    apply (proj1 (proj2 (proj2 (proj2 sanitizeFilename_contract))) "uploads/.").
    right. reflexivity. }
  split; [exact H|].
  exact (proj1 (proj2 (proj2 (proj2 (proj2 sanitizeFilename_contract)))) Example.longName H).
Defined.

(** C8, where the code departs from it: a 302-character name whose
    extension has 301 characters is not truncated to the limit of 255
    characters; the whole extension is kept and nothing else, 301
    characters. *)
Theorem sanitizeFilename_long_extension :
  String.length Example.longExtension = 302%nat /\
  String.length (sanitizeFilename Example.longExtension) = 301%nat /\
  (255 < String.length (sanitizeFilename Example.longExtension))%nat /\
  path.extname Example.longExtension = sanitizeFilename Example.longExtension.
Proof. vm_compute. repeat split; lia. Qed.

(** C9: the estimate for a 150 000 000-byte WAV converted to MP3 at 128k is
    the integer nearest to 150000000 * 128 / 1400, that is 13 714 286 bytes
    (13.7 MB), with confidence high. *)
Theorem estimateOutputSize_wav_mp3_128k :
  let e := estimateOutputSize 150000000 "wav" "mp3" (Some Example.wavToMp3) in
  estimatedSize e = Num.ofZ ((2 * (150000000 * 128) + 1400) / (2 * 1400)) /\
  estimatedSize e = 13714286%float /\
  confidence e = high /\
  notes e = BasedOnBitrate "128k".
Proof. vm_compute. repeat split. Qed.

(* ================================================================== *)
(** ** Base address *)
(* ================================================================== *)

Lemma prefix_split (p s : string) :
  String.prefix p s = true -> s = (p ++ Js.drop (String.length p) s)%string.
Proof.
  revert s. induction p as [|a p IH]; intros s H; simpl in *; [reflexivity|].
  destruct s as [|b s]; [discriminate|]. simpl in H.
  destruct (ascii_dec a b) as [Hab|Hab]; [|discriminate].
  subst b. simpl. f_equal. now apply IH.
Qed.

Lemma replace_prefix (s pat rep : string) :
  String.prefix pat s = true ->
  Js.replace s pat rep = (rep ++ Js.drop (String.length pat) s)%string.
Proof. intros H. destruct s; cbn [Js.replace]; now rewrite H. Qed.

Lemma lastChar_append (a b : string) :
  b <> EmptyString -> lastChar (a ++ b)%string = lastChar b.
Proof.
  intros Hb. induction a as [|ch a IH]; simpl; [reflexivity|].
  destruct (a ++ b)%string eqn:E; [|exact IH].
  destruct a; simpl in E; [congruence | discriminate].
Qed.

Lemma stripTrailingSlashes_last (s : string) :
  lastChar (Js.stripTrailingSlashes s) <> Some "/"%char.
Proof.
  induction s as [|ch s IH]; simpl; [discriminate|].
  destruct (Js.stripTrailingSlashes s) as [|b t] eqn:E.
  - simpl. destruct (Ascii.eqb_spec ch "/"); simpl; [discriminate|congruence].
  - rewrite andb_false_r. exact IH.
Qed.

Lemma upgrade_last (trimmed : string) :
  lastChar trimmed <> Some "/"%char ->
  String.prefix "http://" trimmed = true ->
  lastChar ("https://" ++ Js.drop 7 trimmed)%string <> Some "/"%char.
Proof.
  intros Hlast Hp. pose proof (prefix_split _ _ Hp) as Hs. simpl String.length in Hs.
  destruct (Js.drop 7 trimmed) as [|ch r] eqn:E.
  - rewrite Hs in Hlast. exfalso. apply Hlast. reflexivity.
  - rewrite lastChar_append by discriminate.
    rewrite Hs, lastChar_append in Hlast by discriminate. exact Hlast.
Qed.

Lemma sanitizeUrl_ok (P : Platform) (address u : string) :
  sanitizeUrl P address = Ok u ->
  let trimmed := Js.stripTrailingSlashes address in
  urlParses P u = true /\
  lastChar u <> Some "/"%char /\
  (Spec.insecure trimmed = true -> Js.includes trimmed "localhost" = false ->
   u = ("https://" ++ Js.drop 7 trimmed)%string) /\
  (Spec.insecure trimmed = false \/ Js.includes trimmed "localhost" = true ->
   u = trimmed).
Proof.
  intros H trimmed. unfold sanitizeUrl in H. unfold Spec.insecure. fold trimmed in H.
  pose proof (stripTrailingSlashes_last address) as Hlast. fold trimmed in Hlast.
  destruct (Js.startsWith trimmed "http://") eqn:Hp;
    destruct (Js.includes trimmed "localhost") eqn:Hl; simpl in H.
  - destruct (urlParses P trimmed) eqn:Hu; inversion H; subst u.
    repeat split; try assumption; try discriminate; reflexivity.
  - rewrite (replace_prefix _ _ _ Hp) in H. simpl String.length in H.
    destruct (urlParses P ("https://" ++ Js.drop 7 trimmed)%string) eqn:Hu;
      inversion H; subst u.
    repeat split; try assumption.
    + now apply upgrade_last.
    + intros [Hc|Hc]; discriminate.
  - destruct (urlParses P trimmed) eqn:Hu; inversion H; subst u.
    repeat split; try assumption; try discriminate; reflexivity.
  - destruct (urlParses P trimmed) eqn:Hu; inversion H; subst u.
    repeat split; try assumption; try discriminate; reflexivity.
Qed.

(** X25: the base address a client stores.  When construction
    succeeds the stored address has no trailing slash and is one the URL
    parser accepts; if the given address, once its trailing slashes are
    removed, starts with [http://] and does not contain the text
    [localhost], the stored address is that address with the scheme replaced
    by [https://]; otherwise it is the trimmed address itself.  When the URL
    parser rejects the address so normalized, construction fails with the
    invalid-base-URL error. *)
Theorem baseUrl_normalization (P : Platform) (config : ClientConfig.t) :
  let given := Js.strOr (ClientConfig.baseUrl config) DEFAULT_BASE_URL in
  let trimmed := Js.stripTrailingSlashes given in
  (forall c, constructor P config = Ok c ->
     urlParses P (baseUrl c) = true /\
     lastChar (baseUrl c) <> Some "/"%char /\
     (Spec.insecure trimmed = true -> Js.includes trimmed "localhost" = false ->
      baseUrl c = ("https://" ++ Js.drop 7 trimmed)%string /\
      Spec.secure (baseUrl c) = true) /\
     (Spec.insecure trimmed = false \/ Js.includes trimmed "localhost" = true ->
      baseUrl c = trimmed)) /\
  (Js.startsWith (ClientConfig.apiKey config) "ce_" = true ->
   (Spec.insecure trimmed = true -> Js.includes trimmed "localhost" = false ->
    urlParses P ("https://" ++ Js.drop 7 trimmed)%string = false ->
    constructor P config = Throw (Error (MsgInvalidBaseUrl given))) /\
   (Spec.insecure trimmed = false \/ Js.includes trimmed "localhost" = true ->
    urlParses P trimmed = false ->
    constructor P config = Throw (Error (MsgInvalidBaseUrl given)))).
Proof.
  intros given trimmed. split.
  - intros c H. unfold constructor in H.
    destruct (ClientConfig.apiKey config =? "")%string; [discriminate|].
    destruct (negb (Js.startsWith (ClientConfig.apiKey config) "ce_")); [discriminate|].
    fold given in H. destruct (sanitizeUrl P given) as [u|e] eqn:Hs; [|discriminate].
    inversion H; subst c; clear H. simpl.
    destruct (sanitizeUrl_ok P given u Hs) as [Hu [Hl [Hup Hkeep]]]. fold trimmed in Hup, Hkeep.
    repeat split; try assumption.
    + now apply Hup.
    + rewrite (Hup H H0). unfold Spec.secure, Js.startsWith.
      generalize (Js.drop 7 trimmed). intros r. simpl. now destruct r.
  - intros Hkey. unfold constructor.
    destruct (ClientConfig.apiKey config =? "")%string eqn:He.
    { apply String.eqb_eq in He. rewrite He in Hkey. discriminate. }
    rewrite Hkey. simpl negb. cbv iota. fold given.
    unfold sanitizeUrl, Spec.insecure. fold trimmed. split.
    + intros Hp Hl Hu. rewrite Hp, Hl. simpl.
      rewrite (replace_prefix _ _ _ Hp). simpl String.length. now rewrite Hu.
    + intros Hc Hu.
      destruct (Js.startsWith trimmed "http://") eqn:Hp;
        destruct (Js.includes trimmed "localhost") eqn:Hl; simpl;
        try (now rewrite Hu).
      destruct Hc; discriminate.
Qed.

(** Instance: an insecure address of a remote host is stored with the
    secure scheme and without its trailing slashes. *)
Lemma baseUrl_normalization_witness :
  let config := {| ClientConfig.apiKey := "ce_live_key";
                   ClientConfig.baseUrl := Some "http://api.example.com//";
                   ClientConfig.timeout := None |} in
  exists c, constructor Example.completed config = Ok c /\
            baseUrl c = "https://api.example.com" /\
            Spec.secure (baseUrl c) = true.
Proof.
  intros config.
  destruct (constructor Example.completed config) as [c|e] eqn:H; [|discriminate H].
  exists c. split; [reflexivity|].
  destruct (proj1 (baseUrl_normalization Example.completed config) c H)
    as [_ [_ [Hup _]]].
  destruct (Hup eq_refl eq_refl) as [Hb Hs]. split; [exact Hb | exact Hs].
Defined.

(** C7, where the code departs from it: an insecure address whose host is
    not a loopback host, but whose path holds the text [localhost], is
    stored unchanged, with the http scheme. *)
Theorem insecure_address_kept :
  let address := "http://example.com/localhost" in
  let config := {| ClientConfig.apiKey := "ce_live_key";
                   ClientConfig.baseUrl := Some address;
                   ClientConfig.timeout := None |} in
  Spec.insecure address = true /\
  Spec.host address = "example.com" /\
  Spec.loopback (Spec.host address) = false /\
  exists c, constructor Example.completed config = Ok c /\
            baseUrl c = address /\
            Spec.secure (baseUrl c) = false.
Proof.
  cbv zeta. repeat split.
  eexists. split; [reflexivity|]. split; reflexivity.
Qed.

(* ================================================================== *)
(** ** Transport: frames and first events *)
(* ================================================================== *)

Lemma continues_refl (s : State) : continues s s.
Proof. repeat split; try lia. exists []. now rewrite app_nil_r. Qed.

Lemma continues_trans (s1 s2 s3 : State) :
  continues s1 s2 -> continues s2 s3 -> continues s1 s3.
Proof.
  intros [Hc1 [Hr1 [Hf1 [e1 Ht1]]]] [Hc2 [Hr2 [Hf2 [e2 Ht2]]]].
  repeat split; try congruence; try lia.
  exists (e1 ++ e2). now rewrite Ht2, Ht1, app_assoc.
Qed.

Lemma fetchedFirst_continues (req : Request) (s1 s2 s3 : State) :
  fetchedFirst req s1 s2 -> continues s2 s3 -> fetchedFirst req s1 s3.
Proof.
  intros [Hc1 [Hr1 [Hf1 [e1 Ht1]]]] [Hc2 [Hr2 [Hf2 [e2 Ht2]]]].
  repeat split; try congruence; try lia.
  exists (e1 ++ e2). now rewrite Ht2, Ht1, <- app_assoc.
Qed.

Lemma fetchedFirst_weaken (req : Request) (s s' : State) :
  fetchedFirst req s s' -> continues s s'.
Proof.
  intros [Hc [Hr [Hf [e Ht]]]]. repeat split; try assumption; try lia.
  now exists (Fetch req :: e).
Qed.

Lemma timerDelay_range (ms : Z) : 1 <= timerDelay ms <= TIMEOUT_MAX.
Proof.
  unfold timerDelay, TIMEOUT_MAX.
  destruct (Z.ltb_spec ms 1); destruct (Z.ltb_spec 2147483647 ms); simpl; lia.
Qed.

Lemma timerDelay_exact (ms : Z) : 1 <= ms <= TIMEOUT_MAX -> timerDelay ms = ms.
Proof.
  unfold timerDelay, TIMEOUT_MAX. intros H.
  destruct (Z.ltb_spec ms 1); destruct (Z.ltb_spec 2147483647 ms); simpl; lia.
Qed.

Lemma sleep_run (ms : Z) (s : State) :
  exists s', sleep ms s = (Ok tt, s') /\
    formatCache s' = formatCache s /\ randoms s' = randoms s /\
    fetches s' = fetches s /\ trace s' = trace s ++ [Sleep ms] /\
    now s' = now s + timerDelay ms.
Proof. eexists. split; [reflexivity|]. repeat split. Qed.

Lemma sleep_continues (ms : Z) (s : State) : continues s (snd (sleep ms s)).
Proof. repeat split; simpl; try lia. now exists [Sleep ms]. Qed.

Section TransportLemmas.

Variable P : Platform.
Variable c : Client.

Lemma fetchWithTimeout_run (url : string) (options : RequestInit) (s : State) :
  let req := {| url := url; init := options |} in
  exists s1,
    fetchWithTimeout P c url options s = (thrown (answer P c (fetches s) req), s1) /\
    formatCache s1 = formatCache s /\ randoms s1 = randoms s /\
    fetches s1 = S (fetches s) /\ trace s1 = trace s ++ [Fetch req].
Proof.
  intros req. unfold fetchWithTimeout, answer. fold req.
  destruct (timerDelay (timeout c) <=? latency (network P (fetches s) req)).
  - eexists. split; [reflexivity|]. repeat split.
  - destruct (settles (network P (fetches s) req));
      (eexists; split; [reflexivity|]; repeat split).
Qed.

Lemma fetchWithTimeout_first (url : string) (options : RequestInit) (s : State) r s1 :
  fetchWithTimeout P c url options s = (r, s1) ->
  fetchedFirst {| url := url; init := options |} s s1.
Proof.
  intros H. destruct (fetchWithTimeout_run url options s) as [s1' [Hrun [Hc [Hr [Hf Ht]]]]].
  rewrite Hrun in H. inversion H; subst.
  repeat split; try assumption; try lia. now exists [].
Qed.

(** What one pass of the retry loop does, by what the fetch obtains. *)
Lemma attemptOnce_run (url : string) (options : RequestInit) (cid : string)
    (attempt : nat) (s : State) :
  exists s1,
    fetchWithTimeout P c (url) (init (tagged url options cid)) s
      = (thrown (answer P c (fetches s) (tagged url options cid)), s1) /\
    attemptOnce P c url options cid attempt s =
    match answer P c (fetches s) (tagged url options cid) with
    | Rejects errorName text => (Throw (platformError errorName text), s1)
    | Responds response =>
        if status response =? 429 then
          let retryAfter :=
            Js.parseInt (Js.strOr (headerGet "Retry-After" (responseHeaders response)) "0") in
          if (attempt <? maxRetries c)%nat
          then (Ok Continue,
                snd (sleep (getRetryDelay attempt (Js.numOrUndefined retryAfter)) s1))
          else (Throw (Error (MsgRateLimit (Js.numOr retryAfter 60))), s1)
        else if retryable (status response) && (attempt <? maxRetries c)%nat
        then (Ok Continue, snd (sleep (getRetryDelay attempt None) s1))
        else (Ok (Return response), s1)
    end.
Proof.
  destruct (fetchWithTimeout_run url (init (tagged url options cid)) s)
    as [s1 [Hrun _]].
  exists s1. split; [exact Hrun|].
  unfold attemptOnce, bind. change
    {| method := method options;
       headers := setKey "X-Correlation-ID" cid (headers options);
       body := body options |} with (init (tagged url options cid)).
  rewrite Hrun.
  change {| url := url; init := init (tagged url options cid) |}
    with (tagged url options cid).
  destruct (answer P c (fetches s) (tagged url options cid)) as [response|n t]; simpl;
    [|reflexivity].
  destruct (status response =? 429).
  - destruct (attempt <? maxRetries c)%nat; reflexivity.
  - destruct (retryable (status response) && (attempt <? maxRetries c)%nat); reflexivity.
Qed.

Lemma attemptOnce_first (url : string) (options : RequestInit) (cid : string)
    (attempt : nat) (s : State) r s' :
  attemptOnce P c url options cid attempt s = (r, s') ->
  fetchedFirst (tagged url options cid) s s' /\
  (forall e, r = Throw e -> isTimedOut e = false).
Proof.
  intros H. destruct (attemptOnce_run url options cid attempt s) as [s1 [Hf Hrun]].
  apply fetchWithTimeout_first in Hf.
  change {| url := url; init := init (tagged url options cid) |}
    with (tagged url options cid) in Hf.
  rewrite Hrun in H. clear Hrun.
  assert (Hsl : forall d, fetchedFirst (tagged url options cid) s (snd (sleep d s1)))
    by (intros d; eapply fetchedFirst_continues; [exact Hf | apply sleep_continues]).
  destruct (answer P c (fetches s) (tagged url options cid)) as [response|n t].
  - destruct (status response =? 429).
    + cbv zeta in H. destruct (attempt <? maxRetries c)%nat; inversion H; subst;
        (split; [first [assumption | apply Hsl]
                | intros e He; inversion He; reflexivity]).
    + destruct (retryable (status response) && (attempt <? maxRetries c)%nat);
        inversion H; subst;
        (split; [first [assumption | apply Hsl] | intros e He; inversion He]).
  - inversion H; subst. split; [assumption|]. intros e He. inversion He. reflexivity.
Qed.

Lemma retryLoop_continues (url : string) (options : RequestInit) (cid : string)
    (fuel : nat) :
  forall attempt lastError s r s',
    retryLoop P c url options cid fuel attempt lastError s = (r, s') ->
    continues s s' /\
    ((forall e, lastError = Some e -> isTimedOut e = false) ->
     forall e, r = Throw e -> isTimedOut e = false).
Proof.
  induction fuel as [|fuel IH]; intros attempt lastError s r s' H.
  - simpl in H. inversion H; subst. split; [apply continues_refl|].
    intros Hle e He. inversion He. destruct lastError as [e0|]; [now apply Hle | reflexivity].
  - cbn [retryLoop] in H.
    destruct (attempt <=? maxRetries c)%nat.
    + destruct (attemptOnce P c url options cid attempt s) as [[[|response]|error] s1] eqn:Ha;
        destruct (attemptOnce_first _ _ _ _ _ _ _ Ha) as [Hf Herr];
        apply fetchedFirst_weaken in Hf.
      * apply IH in H. destruct H as [Hc Hk].
        split; [eapply continues_trans; eassumption | exact Hk].
      * inversion H; subst. split; [assumption|]. intros _ e He. inversion He.
      * assert (Hsome : forall e, Some error = Some e -> isTimedOut e = false)
          by (intros e He; inversion He; subst; now apply Herr).
        destruct ((attempt <? maxRetries c)%nat && negb (name error =? "AbortError")%string).
        -- unfold bind in H. simpl in H. apply IH in H. destruct H as [Hc Hk].
           split; [|intros _; now apply Hk].
           eapply continues_trans; [exact Hf|].
           eapply continues_trans; [apply (sleep_continues (getRetryDelay attempt None))|].
           exact Hc.
        -- apply IH in H. destruct H as [Hc Hk].
           split; [eapply continues_trans; eassumption | intros _; now apply Hk].
    + inversion H; subst. split; [apply continues_refl|].
      intros Hle e He. inversion He. destruct lastError as [e0|]; [now apply Hle | reflexivity].
Qed.

Lemma retryLoop_first (url : string) (options : RequestInit) (cid : string)
    (fuel attempt : nat) lastError s r s' :
  (attempt <= maxRetries c)%nat ->
  retryLoop P c url options cid (S fuel) attempt lastError s = (r, s') ->
  fetchedFirst (tagged url options cid) s s'.
Proof.
  intros Hle H. cbn [retryLoop] in H.
  replace (attempt <=? maxRetries c)%nat with true in H
    by (symmetry; now apply Nat.leb_le).
  destruct (attemptOnce P c url options cid attempt s) as [[[|response]|error] s1] eqn:Ha;
    destruct (attemptOnce_first _ _ _ _ _ _ _ Ha) as [Hf _].
  - apply retryLoop_continues in H. eapply fetchedFirst_continues; [exact Hf | apply H].
  - inversion H; subst. exact Hf.
  - destruct ((attempt <? maxRetries c)%nat && negb (name error =? "AbortError")%string).
    + unfold bind in H. simpl in H. apply retryLoop_continues in H.
      eapply fetchedFirst_continues; [exact Hf|].
      eapply continues_trans; [apply (sleep_continues (getRetryDelay attempt None))|].
      apply H.
    + apply retryLoop_continues in H. eapply fetchedFirst_continues; [exact Hf | apply H].
Qed.

End TransportLemmas.

Section RequestLemmas.

Variable P : Platform.
Variable c : Client.

Lemma request_first (endpoint : string) (options : RequestInit) (s : State) r s' :
  request P c endpoint options s = (r, s') ->
  formatCache s' = formatCache s /\ randoms s' = S (randoms s) /\
  (fetches s < fetches s')%nat /\
  (exists req ev, trace s' = trace s ++ Fetch req :: ev /\
                  url req = (baseUrl c ++ "/api" ++ endpoint)%string) /\
  (forall e, r = Throw e -> isTimedOut e = false).
Proof.
  unfold request, bind, generateCorrelationId, fetchWithRetry. intros H.
  match type of H with
  | context [retryLoop P c ?u ?o ?cid ?f 0%nat None ?s0] =>
      destruct (retryLoop P c u o cid f 0%nat None s0) as [r1 s1] eqn:Hloop;
      pose proof (retryLoop_first P c u o cid _ 0%nat None s0 r1 s1 (Nat.le_0_l _) Hloop)
        as [Hc [Hr [Hf [ev Ht]]]];
      pose proof (proj2 (retryLoop_continues P c u o cid _ _ _ _ _ _ Hloop)) as Herr
  end.
  simpl in Hc, Hr, Hf, Ht.
  assert (Hframe : formatCache s1 = formatCache s /\ randoms s1 = S (randoms s) /\
                   (fetches s < fetches s1)%nat) by (repeat split; assumption).
  destruct r1 as [response|e].
  - destruct (negb (ok response)).
    + inversion H; subst. destruct Hframe as [? [? ?]].
      repeat split; try assumption.
      * eexists. exists ev. split; [exact Ht | reflexivity].
      * intros e He. inversion He. reflexivity.
    + destruct (json response); inversion H; subst; destruct Hframe as [? [? ?]];
        (repeat split; try assumption;
         [eexists; exists ev; split; [exact Ht | reflexivity]
         |intros e He; inversion He; try reflexivity]).
  - inversion H; subst. destruct Hframe as [? [? ?]].
    repeat split; try assumption.
    + eexists. exists ev. split; [exact Ht | reflexivity].
    + intros e0 He. inversion He; subst. apply Herr; [discriminate | reflexivity].
Qed.

Lemma getConversionStatus_first (id : string) (s : State) r s' :
  isValidUuid id = true ->
  getConversionStatus P c id s = (r, s') ->
  formatCache s' = formatCache s /\ randoms s' = S (randoms s) /\
  (fetches s < fetches s')%nat /\
  (exists req ev, trace s' = trace s ++ Fetch req :: ev /\
                  url req = (baseUrl c ++ "/api/convert/" ++ id)%string) /\
  (forall e, r = Throw e -> isTimedOut e = false).
Proof.
  intros Hid H. unfold getConversionStatus in H. rewrite Hid in H. simpl in H.
  apply request_first in H. exact H.
Qed.

End RequestLemmas.

(* ================================================================== *)
(** ** Retry and backoff *)
(* ================================================================== *)

Lemma fetchCount_backoffTrace (req : Request) (n attempt : nat) :
  fetchCount (backoffTrace req attempt n) = S n.
Proof.
  revert attempt. induction n as [|n IH]; intros attempt; simpl; [reflexivity|].
  now rewrite IH.
Qed.

Lemma sleeps_backoffTrace (req : Request) (n attempt : nat) :
  sleeps (backoffTrace req attempt n)
  = map (fun k => DEFAULT_RETRY_DELAY * 2 ^ Z.of_nat k) (seq attempt n).
Proof.
  revert attempt. induction n as [|n IH]; intros attempt; [reflexivity|].
  cbn [backoffTrace sleeps seq map]. now rewrite IH.
Qed.

(** One unfolding of the retry loop. *)
Lemma retryLoop_step (P : Platform) (c : Client) (url : string) (options : RequestInit)
    (cid : string) (fuel attempt : nat) (lastError : option JsError) (s : State) :
  retryLoop P c url options cid (S fuel) attempt lastError s =
  if (attempt <=? maxRetries c)%nat then
    match attemptOnce P c url options cid attempt s with
    | (Ok (Return response), s1) => (Ok response, s1)
    | (Ok Continue, s1) => retryLoop P c url options cid fuel (S attempt) lastError s1
    | (Throw error, s1) =>
        if (attempt <? maxRetries c)%nat && negb (name error =? "AbortError")%string
        then retryLoop P c url options cid fuel (S attempt) (Some error)
               (snd (sleep (getRetryDelay attempt None) s1))
        else retryLoop P c url options cid fuel (S attempt) (Some error) s1
    end
  else (Throw (match lastError with
               | Some e => e
               | None => Error MsgRequestFailedAfterRetries
               end), s).
Proof.
  cbn [retryLoop]. destruct (attempt <=? maxRetries c)%nat; [|reflexivity].
  destruct (attemptOnce P c url options cid attempt s) as [[[|response]|error] s1];
    reflexivity.
Qed.

Section Unavailable.

Variable P : Platform.
Variable c : Client.

(** Every fetch is answered, in time, with status 503. *)
Hypothesis always503 :
  forall n req, exists r, answer P c n req = Responds r /\ status r = 503.

Lemma attemptOnce_503 (url : string) (options : RequestInit) (cid : string)
    (attempt : nat) (s : State) :
  exists r s1,
    answer P c (fetches s) (tagged url options cid) = Responds r /\
    status r = 503 /\
    formatCache s1 = formatCache s /\ randoms s1 = randoms s /\
    fetches s1 = S (fetches s) /\
    trace s1 = trace s ++ [Fetch (tagged url options cid)] /\
    attemptOnce P c url options cid attempt s =
    if (attempt <? maxRetries c)%nat
    then (Ok Continue, snd (sleep (getRetryDelay attempt None) s1))
    else (Ok (Return r), s1).
Proof.
  destruct (always503 (fetches s) (tagged url options cid)) as [r [Ha Hs]].
  destruct (attemptOnce_run P c url options cid attempt s) as [s1 [Hf Hrun]].
  destruct (fetchWithTimeout_run P c url (init (tagged url options cid)) s)
    as [s1' [Hf' [Hc [Hr [Hn Ht]]]]].
  rewrite Hf in Hf'. inversion Hf'; subst s1'. clear Hf'.
  exists r, s1. repeat split; try assumption.
  rewrite Hrun, Ha, Hs. reflexivity.
Qed.

Lemma retryLoop_503 (url : string) (options : RequestInit) (cid : string) (k : nat) :
  forall attempt lastError s,
    (attempt + k = maxRetries c)%nat ->
    exists r s',
      retryLoop P c url options cid (S k) attempt lastError s = (Ok r, s') /\
      answer P c (fetches s + k) (tagged url options cid) = Responds r /\
      status r = 503 /\
      trace s' = trace s ++ backoffTrace (tagged url options cid) attempt k /\
      fetches s' = (fetches s + S k)%nat /\
      formatCache s' = formatCache s /\ randoms s' = randoms s.
Proof.
  induction k as [|k IH]; intros attempt lastError s Hk;
    destruct (attemptOnce_503 url options cid attempt s)
      as [r [s1 [Ha [Hs [Hc [Hr [Hn [Ht Hrun]]]]]]]];
    rewrite retryLoop_step;
    (replace (attempt <=? maxRetries c)%nat with true
      by (symmetry; apply Nat.leb_le; lia)).
  - replace (attempt <? maxRetries c)%nat with false in Hrun
      by (symmetry; apply Nat.ltb_ge; lia).
    exists r, s1. rewrite Hrun, Nat.add_0_r.
    repeat split; try assumption. lia.
  - replace (attempt <? maxRetries c)%nat with true in Hrun
      by (symmetry; apply Nat.ltb_lt; lia).
    destruct (IH (S attempt) lastError
                 (snd (sleep (getRetryDelay attempt None) s1)) ltac:(lia))
      as [r' [s' [Hloop [Ha' [Hs' [Ht' [Hn' [Hc' Hr']]]]]]]].
    exists r', s'. rewrite Hrun.
    split; [exact Hloop|]. simpl in Ha', Ht', Hn', Hc', Hr'.
    repeat split.
    + rewrite <- Ha'. f_equal. lia.
    + exact Hs'.
    + rewrite Ht', Ht. repeat rewrite <- app_assoc. reflexivity.
    + lia.
    + congruence.
    + congruence.
Qed.

End Unavailable.

(** C1: when every attempt of a call is answered 503, [fetchWithRetry]
    makes exactly [maxRetries + 1] fetches (4 with the default bound of 3),
    sleeps 1000 * 2^k milliseconds after attempt number k for every k below
    [maxRetries], and returns the response of the last attempt, a 503,
    which [request] raises as an API error carrying the status, the detail
    and the correlation id. *)
Theorem unavailable_exhausts_retries (P : Platform) (c : Client) :
  (forall n req, exists r, answer P c n req = Responds r /\ status r = 503) ->
  (forall url options cid s,
     let req := tagged url options cid in
     exists r s',
       fetchWithRetry P c url options cid s = (Ok r, s') /\
       answer P c (fetches s + maxRetries c) req = Responds r /\
       status r = 503 /\
       trace s' = trace s ++ backoffTrace req 0 (maxRetries c) /\
       fetchCount (backoffTrace req 0 (maxRetries c)) = S (maxRetries c) /\
       sleeps (backoffTrace req 0 (maxRetries c))
         = map (fun k => 1000 * 2 ^ Z.of_nat k) (seq 0 (maxRetries c)) /\
       fetches s' = (fetches s + S (maxRetries c))%nat /\
       (maxRetries c = DEFAULT_MAX_RETRIES -> fetches s' = (fetches s + 4)%nat)) /\
  (forall endpoint options s,
     exists r cid s',
       request P c endpoint options s
         = (Throw (Error (MsgApi 503 (statusText r) (errorDetail r) cid)), s') /\
       fetches s' = (fetches s + S (maxRetries c))%nat).
Proof.
  intros H503. split.
  - intros url options cid s req.
    destruct (retryLoop_503 P c H503 url options cid (maxRetries c) 0 None s eq_refl)
      as [r [s' [Hloop [Ha [Hs [Ht [Hn _]]]]]]].
    exists r, s'. unfold fetchWithRetry.
    repeat split; try assumption.
    + apply fetchCount_backoffTrace.
    + apply sleeps_backoffTrace.
    + intros Hd. rewrite Hn, Hd. reflexivity.
  - intros endpoint options s. unfold request, bind, generateCorrelationId, fetchWithRetry.
    match goal with
    | |- context [retryLoop P c ?u ?o ?cid ?f 0%nat None ?s0] =>
        destruct (retryLoop_503 P c H503 u o cid (maxRetries c) 0 None s0 eq_refl)
          as [r [s' [Hloop [_ [Hs [_ [Hn _]]]]]]];
        exists r, cid, s'; rewrite Hloop
    end.
    unfold ok. rewrite Hs. simpl. split; [reflexivity | exact Hn].
Qed.

(** Instance: a platform answering 503 after 5 ms to every fetch; the default
    client makes four attempts, sleeping 1, 2 and 4 seconds in between. *)
Lemma unavailable_exhausts_retries_witness :
  (forall n req, exists r,
      answer Example.unavailable Example.client n req = Responds r /\ status r = 503) /\
  exists r s',
    fetchWithRetry Example.unavailable Example.client "https://converteverything.io/api/user/usage"
      noInit "mcp-1700000000000-k3j9x2a" Example.start = (Ok r, s') /\
    status r = 503 /\
    fetches s' = 4%nat /\
    sleeps (trace s') = [1000; 2000; 4000].
Proof.
  assert (H : forall n req, exists r,
             answer Example.unavailable Example.client n req = Responds r /\ status r = 503).
  { intros n req. eexists. split; reflexivity. }
  split; [exact H|].
  destruct (proj1 (unavailable_exhausts_retries Example.unavailable Example.client H)
              "https://converteverything.io/api/user/usage" noInit
              "mcp-1700000000000-k3j9x2a" Example.start)
    as [r [s' [Hrun [_ [Hs [Ht [_ [Hsl [_ Hn]]]]]]]]].
  exists r, s'. split; [exact Hrun|]. split; [exact Hs|]. split.
  - exact (Hn eq_refl).
  - rewrite Ht. simpl trace. simpl app. exact Hsl.
Defined.

(* ------------------------------------------------------------------ *)
(** *** Rate limiting *)

Lemma getRetryDelay_given (attempt : nat) (retryAfter : option Z) (N : Z) :
  retryAfter = Some N -> N <> 0 ->
  getRetryDelay attempt (Js.numOrUndefined retryAfter) = N * 1000.
Proof.
  intros -> HN. unfold getRetryDelay, Js.numOrUndefined.
  destruct (N =? 0) eqn:E; [apply Z.eqb_eq in E; contradiction|].
  now rewrite E.
Qed.

Lemma getRetryDelay_backoff (attempt : nat) (retryAfter : option Z) :
  retryAfter = None \/ retryAfter = Some 0 ->
  getRetryDelay attempt (Js.numOrUndefined retryAfter)
  = DEFAULT_RETRY_DELAY * 2 ^ Z.of_nat attempt.
Proof. intros [-> | ->]; reflexivity. Qed.

Lemma timer_seconds (N : Z) :
  (1 <= N <= 2147483 -> timerDelay (N * 1000) = N * 1000) /\
  (N < 0 \/ 2147483 < N -> timerDelay (N * 1000) = 1).
Proof.
  unfold timerDelay, TIMEOUT_MAX. split; intros H;
    destruct (Z.ltb_spec (N * 1000) 1); destruct (Z.ltb_spec 2147483647 (N * 1000));
    simpl; lia.
Qed.

Lemma timer_backoff (attempt : nat) :
  (attempt <= 21)%nat ->
  timerDelay (DEFAULT_RETRY_DELAY * 2 ^ Z.of_nat attempt)
  = DEFAULT_RETRY_DELAY * 2 ^ Z.of_nat attempt.
Proof.
  intros H. apply timerDelay_exact. unfold DEFAULT_RETRY_DELAY, TIMEOUT_MAX.
  assert (H0 : 2 ^ 0 <= 2 ^ Z.of_nat attempt) by (apply Z.pow_le_mono_r; lia).
  assert (H1 : 2 ^ Z.of_nat attempt <= 2 ^ 21) by (apply Z.pow_le_mono_r; lia).
  change (2 ^ 0) with 1 in H0. change (2 ^ 21) with 2097152 in H1. lia.
Qed.




(* ------------------------------------------------------------------ *)
(** *** Attempts that obtain no response *)

(** A network error that is not an abort, with a retry left: the backoff
    sleep, then the next attempt. *)
Lemma network_error_retried (P : Platform) (c : Client) (url : string)
    (options : RequestInit) (cid : string) (fuel attempt : nat)
    (lastError : option JsError) (s : State) (errorName text : string) :
  answer P c (fetches s) (tagged url options cid) = Rejects errorName text ->
  (errorName =? "AbortError")%string = false ->
  (attempt < maxRetries c)%nat ->
  exists s1,
    trace s1 = trace s ++ [Fetch (tagged url options cid)] /\
    retryLoop P c url options cid (S fuel) attempt lastError s
    = retryLoop P c url options cid fuel (S attempt)
        (Some (platformError errorName text))
        (snd (sleep (DEFAULT_RETRY_DELAY * 2 ^ Z.of_nat attempt) s1)).
Proof.
  intros Ha Hname Hlt.
  destruct (attemptOnce_run P c url options cid attempt s) as [s1 [Hf Hrun]].
  destruct (fetchWithTimeout_run P c url (init (tagged url options cid)) s)
    as [s1' [Hf' [_ [_ [_ Ht]]]]].
  rewrite Hf in Hf'. inversion Hf'; subst s1'. clear Hf'.
  rewrite Ha in Hrun. exists s1. split; [exact Ht|].
  rewrite retryLoop_step, Hrun. simpl name. rewrite Hname.
  replace (attempt <=? maxRetries c)%nat with true by (symmetry; apply Nat.leb_le; lia).
  replace (attempt <? maxRetries c)%nat with true by (symmetry; now apply Nat.ltb_lt).
  reflexivity.
Qed.

(** An aborted attempt: no sleep, and the loop goes on to the next attempt
    all the same. *)
Lemma aborted_attempt_retried (P : Platform) (c : Client) (url : string)
    (options : RequestInit) (cid : string) (fuel attempt : nat)
    (lastError : option JsError) (s : State) (text : string) :
  answer P c (fetches s) (tagged url options cid) = Rejects "AbortError" text ->
  (attempt <= maxRetries c)%nat ->
  exists s1,
    trace s1 = trace s ++ [Fetch (tagged url options cid)] /\
    retryLoop P c url options cid (S fuel) attempt lastError s
    = retryLoop P c url options cid fuel (S attempt)
        (Some (platformError "AbortError" text)) s1.
Proof.
  intros Ha Hle.
  destruct (attemptOnce_run P c url options cid attempt s) as [s1 [Hf Hrun]].
  destruct (fetchWithTimeout_run P c url (init (tagged url options cid)) s)
    as [s1' [Hf' [_ [_ [_ Ht]]]]].
  rewrite Hf in Hf'. inversion Hf'; subst s1'. clear Hf'.
  rewrite Ha in Hrun. exists s1. split; [exact Ht|].
  rewrite retryLoop_step, Hrun.
  replace (attempt <=? maxRetries c)%nat with true by (symmetry; now apply Nat.leb_le).
  simpl name. change ("AbortError" =? "AbortError")%string with true.
  simpl negb. rewrite andb_false_r. reflexivity.
Qed.

(** Instance: a first fetch that fails with a network error is followed by
    the backoff sleep of attempt 0 and a second fetch, whose answer is
    returned. *)
Lemma network_error_then_answer :
  let run := fetchWithRetry Example.flakyOnce Example.client "https://h/api/convert"
               noInit "mcp-1-a" Example.start in
  fst run = Ok (Example.respond 200 [] (Some (JObj []))) /\
  sleeps (trace (snd run)) = [1000] /\
  fetchCount (trace (snd run)) = 2%nat.
Proof. vm_compute. repeat split. Qed.

(** When no attempt obtains a response, the error of the last attempt is
    raised. *)
Lemma no_response_raises_last (P : Platform) (c : Client) (url : string)
    (options : RequestInit) (cid : string) (k : nat) :
  (forall n req, exists errorName text, answer P c n req = Rejects errorName text) ->
  forall attempt lastError s,
    (attempt + k = maxRetries c)%nat ->
    exists errorName text s',
      retryLoop P c url options cid (S k) attempt lastError s
        = (Throw (platformError errorName text), s') /\
      (exists n, answer P c n (tagged url options cid) = Rejects errorName text).
Proof.
  intros Hall. induction k as [|k IH]; intros attempt lastError s Hk;
    destruct (Hall (fetches s) (tagged url options cid)) as [n [t Ha]];
    destruct (attemptOnce_run P c url options cid attempt s) as [s1 [_ Hrun]];
    rewrite Ha in Hrun; rewrite retryLoop_step, Hrun;
    (replace (attempt <=? maxRetries c)%nat with true
      by (symmetry; apply Nat.leb_le; lia)).
  - replace (attempt <? maxRetries c)%nat with false
      by (symmetry; apply Nat.ltb_ge; lia).
    simpl. exists n, t, s1. split; [reflexivity|]. now exists (fetches s).
  - destruct ((attempt <? maxRetries c)%nat && negb (name (platformError n t) =? "AbortError")%string);
      apply IH; lia.
Qed.

(** C3, where the code departs from it: the first attempt is aborted by the
    per-request timeout, and yet a second attempt is made, at once, whose
    answer (200) is what the call returns. *)
Theorem aborted_attempt_is_retried :
  let P := Example.slowOnce in
  let req := tagged "https://h/api/convert" noInit "mcp-1-a" in
  let run := fetchWithRetry P Example.client "https://h/api/convert" noInit "mcp-1-a"
               Example.start in
  answer P Example.client 0 req = Rejects "AbortError" "This operation was aborted" /\
  fst run = Ok (Example.respond 200 [] (Some (JObj []))) /\
  trace (snd run) = [Fetch req; Fetch req] /\
  now (snd run) = now Example.start + DEFAULT_TIMEOUT + 5.
Proof. vm_compute. repeat split. Qed.

(* ================================================================== *)
(** ** Local validation *)
(* ================================================================== *)

(** X24: input that the client's own checks reject is refused with the
    world left as it was: no fetch, no timer, no correlation id drawn.
    Construction fails for a credential that does not start with [ce_]
    (the constructor has no access to the world at all); the five methods
    that take a conversion id raise on an id that is not a UUID; both
    submission methods raise on a target format that [isFormatSupported]
    rejects and on a payload of more than 10 GiB, and [convertFile] also
    when the validated file cannot be read. *)
Theorem local_validation_precedes_network (P : Platform) (c : Client) (s : State) :
  (forall config,
     Js.startsWith (ClientConfig.apiKey config) "ce_" = false ->
     constructor P config = Throw (Error MsgApiKeyRequired) \/
     constructor P config = Throw (Error MsgInvalidApiKeyFormat)) /\
  (forall id,
     isValidUuid id = false ->
     getConversionStatus P c id s = (Throw (Error MsgInvalidConversionId), s) /\
     downloadFile P c id s = (Throw (Error MsgInvalidConversionId), s) /\
     (forall options fuel,
        waitForConversion P c id options fuel s
        = Some (Throw (Error MsgInvalidConversionId), s)) /\
     cancelConversion P c id s = (Throw (Error MsgInvalidConversionId), s) /\
     (forall newOptions,
        retryConversion P c id newOptions s = (Throw (Error MsgInvalidConversionId), s))) /\
  (forall targetFormat,
     isFormatSupported (normalizeFormat targetFormat) = false ->
     (forall filePath options,
        exists e, convertFile P c filePath targetFormat options s = (Throw e, s)) /\
     (forall payload name options,
        exists e, convertFileBuffer P c payload name targetFormat options s = (Throw e, s))) /\
  (forall buffer,
     byteLength buffer > MAX_SIZE ->
     (forall name targetFormat options,
        convertFileBuffer P c (Bytes buffer) name targetFormat options s
        = (Throw (Error MsgFileTooLarge), s)) /\
     (forall text name targetFormat options,
        fromBase64 P (stripDataUrlPrefix text) = buffer ->
        convertFileBuffer P c (Base64 text) name targetFormat options s
        = (Throw (Error MsgFileTooLarge), s)) /\
     (forall filePath realPath targetFormat options,
        validateFilePath P filePath = Ok realPath ->
        readFileSync P realPath = Reads buffer ->
        exists e, convertFile P c filePath targetFormat options s = (Throw e, s))) /\
  (forall filePath realPath targetFormat options errorName text,
     validateFilePath P filePath = Ok realPath ->
     readFileSync P realPath = ReadFails errorName text ->
     exists e, convertFile P c filePath targetFormat options s = (Throw e, s)).
Proof.
  split; [|split; [|split; [|split]]].
  - intros config Hkey. unfold constructor. rewrite Hkey.
    destruct (ClientConfig.apiKey config =? "")%string; [now left | now right].
  - intros id Hid.
    unfold getConversionStatus, downloadFile, waitForConversion, cancelConversion,
      retryConversion.
    rewrite Hid. repeat split.
  - intros targetFormat Hfmt. split.
    + intros filePath options. unfold convertFile.
      destruct (validateFilePath P filePath) as [realPath|e]; [|now exists e].
      rewrite Hfmt. eexists. reflexivity.
    + intros payload name options. unfold convertFileBuffer.
      match goal with
      | |- context [byteLength ?b >? MAX_SIZE] => destruct (byteLength b >? MAX_SIZE)
      end; [eexists; reflexivity|].
      rewrite Hfmt. eexists. reflexivity.
  - intros buffer Hsize.
    assert (Hgt : (byteLength buffer >? MAX_SIZE) = true).
    { rewrite Z.gtb_ltb. apply Z.ltb_lt. lia. }
    split; [|split].
    + intros name targetFormat options. unfold convertFileBuffer.
      now rewrite Hgt.
    + intros text name targetFormat options Hdec. unfold convertFileBuffer.
      now rewrite Hdec, Hgt.
    + intros filePath realPath targetFormat options Hpath Hread. unfold convertFile.
      rewrite Hpath.
      destruct (negb (isFormatSupported (normalizeFormat targetFormat)));
        [eexists; reflexivity|].
      unfold convertFileBuffer. rewrite Hread, Hgt. eexists. reflexivity.
  - intros filePath realPath targetFormat options errorName text Hpath Hread.
    unfold convertFile. rewrite Hpath.
    destruct (negb (isFormatSupported (normalizeFormat targetFormat)));
      [eexists; reflexivity|].
    rewrite Hread. eexists. reflexivity.
Qed.

(** Instances: a credential without the prefix, the id [not-a-uuid], the
    target format [exe], and a file of 10 GiB + 1 byte. *)
Lemma local_validation_precedes_network_witness :
  constructor Example.hugeFiles
    {| ClientConfig.apiKey := "sk_live_key"; ClientConfig.baseUrl := None;
       ClientConfig.timeout := None |} = Throw (Error MsgInvalidApiKeyFormat) /\
  downloadFile Example.hugeFiles Example.client "not-a-uuid" Example.start
    = (Throw (Error MsgInvalidConversionId), Example.start) /\
  (exists e, convertFileBuffer Example.completed Example.client
               (Bytes {| byteLength := 10 |}) "a.png" "exe" None Example.start
             = (Throw e, Example.start)) /\
  (exists e, convertFile Example.hugeFiles Example.client "/tmp/big.wav" "mp3" None
               Example.start = (Throw e, Example.start)).
Proof.
  pose proof (local_validation_precedes_network Example.hugeFiles Example.client
                Example.start) as [Hkey [Hid [_ [Hsize _]]]].
  pose proof (local_validation_precedes_network Example.completed Example.client
                Example.start) as [_ [_ [Hfmt _]]].
  split; [|split; [|split]].
  - destruct (Hkey {| ClientConfig.apiKey := "sk_live_key"; ClientConfig.baseUrl := None;
                      ClientConfig.timeout := None |} eq_refl) as [H|H];
      [discriminate H | exact H].
  - exact (proj1 (proj2 (Hid "not-a-uuid" eq_refl))).
  - exact (proj2 (Hfmt "exe" eq_refl) (Bytes {| byteLength := 10 |}) "a.png" None).
  - apply (proj2 (proj2 (Hsize {| byteLength := MAX_SIZE + 1 |}
                           ltac:(reflexivity)))
             "/tmp/big.wav" "/tmp/big.wav" "mp3" None); reflexivity.
Defined.

(** C6, where the code departs from it: the target formats [__proto__]
    and [constructor] are in no format table, and yet the format check lets
    them through (its [in] test also finds what every object inherits), so
    both submission methods go to the network: [convertFileBuffer] posts a
    form whose format is [__proto__], [convertFile] one whose format is
    [constructor]. *)
Theorem inherited_format_is_uploaded :
  let P := Sample.accepting in
  let buffered := convertFileBuffer P Example.client (Bytes {| byteLength := 10 |})
                    "a.txt" "__proto__" None Example.start in
  let fromPath := convertFile P Example.client "/data/a.txt" "constructor" None
                    Example.start in
  assoc "__proto__" FORMAT_CATEGORIES = None /\
  assoc "constructor" FORMAT_CATEGORIES = None /\
  isFormatSupported (normalizeFormat "__proto__") = true /\
  isFormatSupported (normalizeFormat "constructor") = true /\
  fst buffered = Ok (Example.job "pending") /\
  fetches (snd buffered) = 1%nat /\
  (exists req, trace (snd buffered) = [Fetch req] /\
               url req = "https://converteverything.io/api/convert" /\
               method (init req) = Some "POST" /\
               option_map output_format (body (init req)) = Some "__proto__") /\
  fst fromPath = Ok (Example.job "pending") /\
  fetches (snd fromPath) = 1%nat /\
  (exists req, trace (snd fromPath) = [Fetch req] /\
               option_map output_format (body (init req)) = Some "constructor").
Proof.
  cbv zeta. repeat (split; [vm_compute; reflexivity|]).
  split; [eexists; vm_compute; repeat split|].
  repeat (split; [vm_compute; reflexivity|]).
  eexists; vm_compute; repeat split.
Qed.

(* ================================================================== *)
(** ** The format cache *)
(* ================================================================== *)

Section FormatCache.

Variable P : Platform.
Variable c : Client.

(** A call that does not answer from the cache: the outcome of the
    request, stored with the time of its arrival when it succeeds. *)
Lemma getSupportedFormats_miss (skipCache : bool) (s : State) :
  (skipCache = true \/ formatCache s = None \/
   exists entry, formatCache s = Some entry /\
                 FORMAT_CACHE_TTL <= now s - timestamp entry) ->
  getSupportedFormats P c skipCache s =
  match request P c "/convert/formats" noInit s with
  | (Ok value, s') =>
      (Ok value, snd (setCache (Some {| cached := value; timestamp := now s' |}) s'))
  | (Throw e, s') => (Throw e, s')
  end.
Proof.
  intros H. unfold getSupportedFormats, bind, getCache, dateNow.
  assert (Hfresh :
    (let (r, s') := request P c "/convert/formats" noInit s in
     match r with
     | Ok a => let (r0, s'0) := setCache (Some {| cached := a; timestamp := now s' |}) s' in
               match r0 with
               | Ok _ => ret a s'0
               | Throw e => (Throw e, s'0)
               end
     | Throw e => (Throw e, s')
     end) =
    match request P c "/convert/formats" noInit s with
    | (Ok value, s') =>
        (Ok value, snd (setCache (Some {| cached := value; timestamp := now s' |}) s'))
    | (Throw e, s') => (Throw e, s')
    end).
  { destruct (request P c "/convert/formats" noInit s) as [[v|e] s']; reflexivity. }
  destruct H as [-> | [Hnone | [entry [Hsome Hold]]]].
  - exact Hfresh.
  - rewrite Hnone. destruct skipCache; exact Hfresh.
  - rewrite Hsome. destruct skipCache; [exact Hfresh|].
    replace (now s - timestamp entry <? FORMAT_CACHE_TTL) with false
      by (symmetry; apply Z.ltb_ge; lia).
    exact Hfresh.
Qed.

Lemma getSupportedFormats_hit (s : State) (entry : CacheEntry) :
  formatCache s = Some entry ->
  now s - timestamp entry < FORMAT_CACHE_TTL ->
  getSupportedFormats P c false s = (Ok (cached entry), s).
Proof.
  intros Hsome Hage. unfold getSupportedFormats, bind, getCache, dateNow.
  rewrite Hsome.
  replace (now s - timestamp entry <? FORMAT_CACHE_TTL) with true
    by (symmetry; now apply Z.ltb_lt).
  reflexivity.
Qed.

Lemma getSupportedFormats_ok (s s1 : State) (first : Json) :
  getSupportedFormats P c false s = (Ok first, s1) ->
  (requestsStarted s1 <= S (requestsStarted s))%nat /\
  exists entry, formatCache s1 = Some entry /\ cached entry = first.
Proof.
  intros H. unfold requestsStarted.
  destruct (formatCache s) as [entry|] eqn:Hc.
  - destruct (Z.lt_ge_cases (now s - timestamp entry) FORMAT_CACHE_TTL) as [Hage|Hage].
    + rewrite (getSupportedFormats_hit s entry Hc Hage) in H. inversion H; subst.
      split; [lia | now exists entry].
    + rewrite getSupportedFormats_miss in H by (right; right; now exists entry).
      destruct (request P c "/convert/formats" noInit s) as [[v|e] s'] eqn:Hr;
        inversion H; subst.
      apply request_first in Hr. destruct Hr as [_ [Hn _]]. simpl.
      split; [lia | eexists; split; reflexivity].
  - rewrite getSupportedFormats_miss in H by (right; now left).
    destruct (request P c "/convert/formats" noInit s) as [[v|e] s'] eqn:Hr;
      inversion H; subst.
    apply request_first in Hr. destruct Hr as [_ [Hn _]]. simpl.
    split; [lia | eexists; split; reflexivity].
Qed.

End FormatCache.


(* ================================================================== *)
(** ** Polling *)
(* ================================================================== *)

Section Polling.

Variable P : Platform.
Variable c : Client.
Variable id : string.

(** One pass of the loop, by what fetching the status gives. *)
Lemma pollOnce_run (pollInterval timeout startTime : Z) (s : State) :
  pollOnce P c id pollInterval timeout startTime s =
  match fetchStatus P c id s with
  | (Ok (conversion, st), s1) =>
      if terminal st then (Ok (Some conversion), s1)
      else if now s1 - startTime >? timeout
           then (Throw (Error (MsgTimedOut timeout st)), s1)
           else (Ok None, snd (sleep pollInterval s1))
  | (Throw e, s1) => (Throw e, s1)
  end.
Proof.
  unfold pollOnce, fetchStatus, bind.
  destruct (getConversionStatus P c id s) as [[conversion|e] s1]; [|reflexivity].
  destruct conversion; cbv beta iota delta [getProp ret throw dateNow]; try reflexivity;
    match goal with
    | |- context [terminal ?st] => destruct (terminal st); [reflexivity|]
    end;
    match goal with
    | |- context [?a >? ?b] => destruct (a >? b); reflexivity
    end.
Qed.

Lemma pollLoop_step (pollInterval timeout startTime : Z) (fuel : nat) (s : State) :
  pollLoop P c id pollInterval timeout startTime (S fuel) s =
  match fetchStatus P c id s with
  | (Ok (conversion, st), s1) =>
      if terminal st then Some (Ok conversion, s1)
      else if now s1 - startTime >? timeout
           then Some (Throw (Error (MsgTimedOut timeout st)), s1)
           else pollLoop P c id pollInterval timeout startTime fuel
                  (snd (sleep pollInterval s1))
  | (Throw e, s1) => Some (Throw e, s1)
  end.
Proof.
  cbn [pollLoop]. rewrite pollOnce_run.
  destruct (fetchStatus P c id s) as [[[conversion st]|e] s1]; [|reflexivity].
  destruct (terminal st); [reflexivity|].
  destruct (now s1 - startTime >? timeout); reflexivity.
Qed.

Lemma sleep_asleep (interval : Z) (s : State) :
  snd (sleep interval s) = Spec.asleep interval s.
Proof.
  unfold sleep, Spec.asleep, advance, logEvent, timerDelay, Spec.lasts, TIMEOUT_MAX.
  simpl. f_equal. f_equal.
  destruct (Z.ltb_spec interval 1); destruct (Z.ltb_spec 2147483647 interval);
    destruct (Z.leb_spec 1 interval); destruct (Z.leb_spec interval 2147483647);
    simpl; lia.
Qed.

(** The loop of the code and the state machine of the specification have
    the same runs. *)
Lemma pollLoop_waits (pollInterval timeout startTime : Z) (s : State) r s' :
  (exists fuel, pollLoop P c id pollInterval timeout startTime fuel s = Some (r, s')) <->
  Spec.waits (fetchStatus P c id) pollInterval timeout startTime s r s'.
Proof.
  split.
  - intros [fuel H]. revert s H.
    induction fuel as [|fuel IH]; intros s H; [discriminate|].
    rewrite pollLoop_step in H.
    destruct (fetchStatus P c id s) as [[[conversion st]|e] s1] eqn:Hf.
    + destruct (terminal st) eqn:Ht.
      * inversion H; subst. eapply Spec.waits_terminal; eassumption.
      * destruct (now s1 - startTime >? timeout) eqn:Hgt.
        -- inversion H; subst. eapply Spec.waits_timeout; try eassumption.
           rewrite Z.gtb_ltb in Hgt. apply Z.ltb_lt in Hgt. lia.
        -- eapply Spec.waits_sleep; try eassumption.
           ++ rewrite Z.gtb_ltb in Hgt. apply Z.ltb_ge in Hgt. lia.
           ++ rewrite <- sleep_asleep. now apply IH.
    + inversion H; subst. now apply Spec.waits_error.
  - induction 1 as [s conversion st s1 Hf Ht
                   |s conversion st s1 Hf Ht Hgt
                   |s conversion st s1 r s2 Hf Ht Hle _ [fuel IH]
                   |s e s1 Hf].
    + exists 1%nat. now rewrite pollLoop_step, Hf, Ht.
    + exists 1%nat. rewrite pollLoop_step, Hf, Ht.
      replace (now s1 - startTime >? timeout) with true
        by (symmetry; rewrite Z.gtb_ltb; apply Z.ltb_lt; lia).
      reflexivity.
    + exists (S fuel). rewrite pollLoop_step, Hf, Ht.
      replace (now s1 - startTime >? timeout) with false
        by (symmetry; rewrite Z.gtb_ltb; apply Z.ltb_ge; lia).
      rewrite sleep_asleep. exact IH.
    + exists 1%nat. now rewrite pollLoop_step, Hf.
Qed.

Hypothesis validId : isValidUuid id = true.

Lemma fetchStatus_first (s : State) r s1 :
  fetchStatus P c id s = (r, s1) ->
  statusFetched c id s s1 /\ (forall e, r = Throw e -> isTimedOut e = false).
Proof.
  unfold fetchStatus, bind. intros H.
  destruct (getConversionStatus P c id s) as [[conversion|e] s0] eqn:Hg;
    apply (getConversionStatus_first P c id s _ _ validId) in Hg;
    destruct Hg as [_ [_ [Hf [Hev Herr]]]].
  - assert (s1 = s0) by (destruct conversion; inversion H; reflexivity). subst s1.
    split; [split; assumption|].
    intros e He. subst r. destruct conversion; inversion H; reflexivity.
  - inversion H; subst. split; [split; assumption|].
    intros e0 He. inversion He; subst. now apply Herr.
Qed.

Lemma statusFetched_later (s s1 s2 : State) :
  statusFetched c id s s1 ->
  (fetches s1 <= fetches s2)%nat -> (exists ev, trace s2 = trace s1 ++ ev) ->
  statusFetched c id s s2.
Proof.
  intros [Hf [req [ev [Ht Hu]]]] Hle [ev' Ht']. split; [lia|].
  exists req, (ev ++ ev'). split; [|exact Hu].
  rewrite Ht', Ht, <- app_assoc. reflexivity.
Qed.

(** Whatever the loop ends with, a status fetch came first; and a timeout
    error reports a status that is not terminal. *)
Lemma pollLoop_fetches (pollInterval timeout startTime : Z) (fuel : nat) :
  forall s r s',
    pollLoop P c id pollInterval timeout startTime fuel s = Some (r, s') ->
    statusFetched c id s s' /\
    (forall e t st, r = Throw e -> message e = MsgTimedOut t st -> terminal st = false).
Proof.
  induction fuel as [|fuel IH]; intros s r s' H; [discriminate|].
  rewrite pollLoop_step in H.
  destruct (fetchStatus P c id s) as [[[conversion st]|e] s1] eqn:Hf;
    apply fetchStatus_first in Hf; destruct Hf as [Hfirst Herr].
  - destruct (terminal st) eqn:Ht.
    + inversion H; subst. split; [assumption|]. intros e t st' He. discriminate He.
    + destruct (now s1 - startTime >? timeout).
      * inversion H; subst. split; [assumption|].
        intros e t st' He Hm. inversion He; subst e. simpl in Hm.
        inversion Hm; subst. exact Ht.
      * apply IH in H. destruct H as [[Hf2 [req2 [ev2 [Ht2 _]]]] Hk].
        split; [|exact Hk].
        eapply statusFetched_later; [exact Hfirst | simpl in Hf2; lia |].
        simpl in Ht2. eexists. rewrite Ht2, <- app_assoc. reflexivity.
  - inversion H; subst. split; [assumption|].
    intros e0 t st He Hm. inversion He; subst e0.
    specialize (Herr e eq_refl). unfold isTimedOut in Herr. rewrite Hm in Herr.
    discriminate Herr.
Qed.

End Polling.




(** C10: whatever the conversion id and the wait options, a timeout of 0
    included, a wait that ends in the timeout error has fetched the status
    at least once before, and the status that error reports is not
    terminal; and when the first status fetched is terminal, the wait
    returns that very answer, with no error and no further action. *)
Theorem timeout_only_after_status (P : Platform) (c : Client) (id : string)
    (options : WaitOptions.t) (fuel : nat) (s : State) :
  (forall e s' t st,
     waitForConversion P c id options fuel s = Some (Throw e, s') ->
     message e = MsgTimedOut t st ->
     statusFetched c id s s' /\ terminal st = false) /\
  (forall conversion s1,
     isValidUuid id = true ->
     getConversionStatus P c id s = (Ok conversion, s1) ->
     terminal (prop conversion "status") = true ->
     waitForConversion P c id options (S fuel) s = Some (Ok conversion, s1)).
Proof.
  split.
  - intros e s' t st H Hm. unfold waitForConversion in H.
    destruct (isValidUuid id) eqn:Hid; simpl in H.
    + destruct (pollLoop_fetches P c id Hid _ _ _ _ _ _ _ H) as [Hf Hk].
      split; [exact Hf|]. eapply Hk; [reflexivity | exact Hm].
    + inversion H; subst. discriminate Hm.
  - intros conversion s1 Hid Hg Ht. unfold waitForConversion.
    rewrite Hid. simpl negb. cbv iota. rewrite pollLoop_step.
    unfold fetchStatus, bind. rewrite Hg.
    destruct conversion; try discriminate Ht.
    cbv beta iota delta [getProp ret]. rewrite Ht. reflexivity.
Qed.

(** Instances: with a timeout of 0 and a job already completed, the wait
    returns the job after its single status fetch; with a timeout of 1 ms
    and a job still processing, the timeout error comes after one status
    fetch and reports [processing]. *)
Lemma timeout_only_after_status_witness :
  let zero := {| WaitOptions.pollInterval := None; WaitOptions.timeout := Some 0 |} in
  let one := {| WaitOptions.pollInterval := None; WaitOptions.timeout := Some 1 |} in
  let s1 := snd (getConversionStatus Example.completed Example.client Example.uuid
                   Example.start) in
  let s2 := snd (getConversionStatus Example.processingOnce Example.client Example.uuid
                   Example.start) in
  waitForConversion Example.completed Example.client Example.uuid zero 1 Example.start
    = Some (Ok (Example.job "completed"), s1) /\
  statusFetched Example.client Example.uuid Example.start s2 /\
  terminal (Some (JStr "processing")) = false.
Proof.
  intros zero one s1 s2. split.
  - apply (proj2 (timeout_only_after_status Example.completed Example.client Example.uuid
                    zero 0 Example.start));
      [reflexivity | reflexivity | reflexivity].
  - apply (proj1 (timeout_only_after_status Example.processingOnce Example.client
                    Example.uuid one 1 Example.start)
             (Error (MsgTimedOut 1 (Some (JStr "processing")))) s2 1
             (Some (JStr "processing")));
      [reflexivity | reflexivity].
Defined.

(* ================================================================== *)
(** ** Further properties of the transport *)
(* ================================================================== *)

Lemma sends_app (req : Request) (a b : list Event) :
  sends req a -> sends req b -> sends req (a ++ b).
Proof. unfold sends. intros Ha Hb. apply Forall_app. now split. Qed.

Lemma fetchCount_app (a b : list Event) :
  fetchCount (a ++ b) = (fetchCount a + fetchCount b)%nat.
Proof.
  induction a as [|[q|ms] a IH]; simpl; [reflexivity | now rewrite IH | exact IH].
Qed.

Lemma sleeps_app (a b : list Event) : sleeps (a ++ b) = sleeps a ++ sleeps b.
Proof.
  induction a as [|[q|ms] a IH]; simpl; [reflexivity | exact IH | now rewrite IH].
Qed.

Section Bounds.

Variable P : Platform.
Variable c : Client.

(** One pass of the retry loop: a fetch, and a sleep exactly when the pass
    asks for another one. *)
Lemma attemptOnce_trace (url : string) (options : RequestInit) (cid : string)
    (attempt : nat) (s : State) r s' :
  attemptOnce P c url options cid attempt s = (r, s') ->
  fetches s' = S (fetches s) /\
  ((r = Ok Continue /\ (attempt < maxRetries c)%nat /\
    exists d, trace s' = trace s ++ [Fetch (tagged url options cid); Sleep d]) \/
   (r <> Ok Continue /\ trace s' = trace s ++ [Fetch (tagged url options cid)])).
Proof.
  intros H. destruct (attemptOnce_run P c url options cid attempt s) as [s1 [Hf Hrun]].
  destruct (fetchWithTimeout_run P c url (init (tagged url options cid)) s)
    as [s1' [Hf' [_ [_ [Hn Ht]]]]].
  rewrite Hf in Hf'. inversion Hf'; subst s1'. clear Hf' Hf.
  change {| url := url; init := init (tagged url options cid) |}
    with (tagged url options cid) in Ht.
  rewrite Hrun in H. clear Hrun.
  destruct (answer P c (fetches s) (tagged url options cid)) as [response|n t].
  - destruct (status response =? 429).
    + cbv zeta in H. destruct (attempt <? maxRetries c)%nat eqn:Hlt; inversion H; subst.
      * split; [exact Hn|]. left. split; [reflexivity|].
        split; [now apply Nat.ltb_lt|]. eexists. simpl. rewrite Ht, <- app_assoc. reflexivity.
      * split; [exact Hn|]. right. split; [discriminate | exact Ht].
    + destruct (attempt <? maxRetries c)%nat eqn:Hlt;
        destruct (retryable (status response)); simpl in H; inversion H; subst;
        (split; [exact Hn|]);
        try (right; split; [discriminate | exact Ht]).
      left. split; [reflexivity|]. split; [now apply Nat.ltb_lt|].
      eexists. simpl. rewrite Ht, <- app_assoc. reflexivity.
  - inversion H; subst. split; [exact Hn|]. right. split; [discriminate | exact Ht].
Qed.

Lemma retryLoop_bounded (url : string) (options : RequestInit) (cid : string)
    (fuel : nat) :
  forall attempt lastError s,
    (S (maxRetries c) <= fuel + attempt)%nat ->
    exists ev,
      trace (snd (retryLoop P c url options cid fuel attempt lastError s)) = trace s ++ ev /\
      sends (tagged url options cid) ev /\
      fetches (snd (retryLoop P c url options cid fuel attempt lastError s))
        = (fetches s + fetchCount ev)%nat /\
      (fetchCount ev <= S (maxRetries c) - attempt)%nat /\
      ((attempt <= maxRetries c)%nat ->
       (List.length (sleeps ev) < fetchCount ev)%nat) /\
      ((maxRetries c < attempt)%nat -> ev = []).
Proof.
  induction fuel as [|fuel IH]; intros attempt lastError s Hfuel.
  - exists []. cbn [retryLoop snd throw fetchCount sleeps List.length]. rewrite app_nil_r.
    split; [reflexivity|]. split; [constructor|]. split; [lia|]. split; [lia|].
    split; [intros; lia | reflexivity].
  - rewrite retryLoop_step.
    destruct (attempt <=? maxRetries c)%nat eqn:Hle.
    + apply Nat.leb_le in Hle.
      destruct (attemptOnce P c url options cid attempt s) as [r s1] eqn:Ha.
      destruct (attemptOnce_trace _ _ _ _ _ _ _ Ha) as [Hn Hcase].
      assert (Hone : sends (tagged url options cid) [Fetch (tagged url options cid)])
        by (repeat constructor).
      assert (Htwo : forall d, sends (tagged url options cid)
                                 [Fetch (tagged url options cid); Sleep d])
        by (intros d; repeat constructor).
      destruct Hcase as [[-> [Hlt [d Ht]]] | [Hnc Ht]].
      * destruct (IH (S attempt) lastError s1 ltac:(lia))
          as [ev [Ht' [Hs' [Hn' [Hb' [Hsl' Hnone]]]]]].
        exists ([Fetch (tagged url options cid); Sleep d] ++ ev).
        rewrite Ht', Ht, <- app_assoc, Hn', Hn, fetchCount_app, sleeps_app.
        split; [reflexivity|]. split; [apply sends_app; [apply Htwo | exact Hs']|].
        cbn [fetchCount sleeps app List.length]. split; [lia|]. split; [lia|].
        split; [intros _; specialize (Hsl' ltac:(lia)); lia | intros; lia].
      * destruct r as [[|response]|error]; [contradiction Hnc; reflexivity | |].
        -- exists [Fetch (tagged url options cid)]. cbn [snd fetchCount sleeps List.length].
           split; [exact Ht|]. split; [exact Hone|]. split; [lia|]. split; [lia|].
           split; [intros; lia | intros; lia].
        -- destruct ((attempt <? maxRetries c)%nat
                     && negb (name error =? "AbortError")%string) eqn:Hretry.
           ++ apply andb_true_iff in Hretry. destruct Hretry as [Hlt _].
              apply Nat.ltb_lt in Hlt.
              destruct (IH (S attempt) (Some error)
                          (snd (sleep (getRetryDelay attempt None) s1)) ltac:(lia))
                as [ev [Ht' [Hs' [Hn' [Hb' [Hsl' Hnone]]]]]].
              exists ([Fetch (tagged url options cid);
                       Sleep (getRetryDelay attempt None)] ++ ev).
              rewrite Ht', Hn'. simpl trace. simpl fetches. rewrite Ht, Hn.
              rewrite fetchCount_app, sleeps_app.
              split; [repeat rewrite <- app_assoc; reflexivity|].
              split; [apply sends_app; [apply Htwo | exact Hs']|].
              cbn [fetchCount sleeps app List.length]. split; [lia|]. split; [lia|].
              split; [intros _; specialize (Hsl' ltac:(lia)); lia | intros; lia].
           ++ destruct (IH (S attempt) (Some error) s1 ltac:(lia))
                as [ev [Ht' [Hs' [Hn' [Hb' [Hsl' Hnone]]]]]].
              exists ([Fetch (tagged url options cid)] ++ ev).
              rewrite Ht', Hn', Ht, Hn, fetchCount_app, sleeps_app.
              split; [repeat rewrite <- app_assoc; reflexivity|].
              split; [apply sends_app; [exact Hone | exact Hs']|].
              cbn [fetchCount sleeps app List.length]. split; [lia|]. split; [lia|].
              split; [|intros; lia].
              intros _.
              destruct (Nat.le_gt_cases (S attempt) (maxRetries c)) as [Hin|Hout].
              ** specialize (Hsl' Hin). lia.
              ** rewrite (Hnone Hout). cbn [fetchCount sleeps app List.length]. lia.
    + apply Nat.leb_gt in Hle. exists []. cbn [snd fetchCount sleeps List.length].
      rewrite app_nil_r.
      split; [reflexivity|]. split; [constructor|]. split; [lia|]. split; [lia|].
      split; [intros; lia | reflexivity].
Qed.

End Bounds.

(** The bound on the attempts of one call, in the form [request] uses. *)
Lemma fetchWithRetry_bounded_aux (P : Platform) (c : Client) (url : string)
    (options : RequestInit) (cid : string) (s : State) :
  exists ev,
    trace (snd (fetchWithRetry P c url options cid s)) = trace s ++ ev /\
    sends (tagged url options cid) ev /\
    (1 <= fetchCount ev <= S (maxRetries c))%nat.
Proof.
  unfold fetchWithRetry.
  destruct (retryLoop_bounded P c url options cid (S (maxRetries c)) 0 None s ltac:(lia))
    as [ev [Ht [Hs [Hn [Hb [Hsl _]]]]]].
  exists ev. specialize (Hsl (Nat.le_0_l _)).
  split; [exact Ht|]. split; [exact Hs | lia].
Qed.

Lemma request_fetches (P : Platform) (c : Client) (endpoint : string)
    (options : RequestInit) (s : State) r s' :
  request P c endpoint options s = (r, s') ->
  (fetches s < fetches s' <= fetches s + S (maxRetries c))%nat.
Proof.
  unfold request, bind, generateCorrelationId, fetchWithRetry. intros H.
  match type of H with
  | context [retryLoop P c ?u ?o ?cid ?f 0%nat None ?s0] =>
      destruct (retryLoop_bounded P c u o cid f 0%nat None s0 ltac:(lia))
        as [ev [_ [_ [Hn [Hb [Hsl _]]]]]];
      destruct (retryLoop P c u o cid f 0%nat None s0) as [r1 s1] eqn:Hloop
  end.
  specialize (Hsl (Nat.le_0_l _)). cbn [snd fetches] in Hn.
  assert (Hs1 : s' = s1).
  { destruct r1 as [response|e]; [|now inversion H].
    destruct (negb (ok response)); [now inversion H|].
    destruct (json response); now inversion H. }
  subst s'. lia.
Qed.

(** C5 (as amended): the format list is cached for one hour.  A call that
    returned the list has started at most one logical request, which is at
    most [maxRetries + 1] fetches, and a second call made after it, while
    the age of the cache entry is below the TTL, returns the same list from
    memory and leaves the world as it was: no request, no fetch.  A call
    made once the age has reached the TTL, or with the bypass flag, starts
    exactly one new logical request on the formats endpoint, which is
    between 1 and [maxRetries + 1] fetches; when that request succeeds its
    answer is returned and stored with the time of its arrival, and when it
    fails the cache is left as it was. *)
Theorem format_cache_window (P : Platform) (c : Client) (s s1 : State) (first : Json) :
  getSupportedFormats P c false s = (Ok first, s1) ->
  (requestsStarted s1 <= S (requestsStarted s))%nat /\
  (fetches s1 <= fetches s + S (maxRetries c))%nat /\
  (exists entry, formatCache s1 = Some entry /\ cached entry = first) /\
  (forall s2 entry,
     formatCache s1 = Some entry -> formatCache s2 = Some entry ->
     now s2 - timestamp entry < FORMAT_CACHE_TTL ->
     getSupportedFormats P c false s2 = (Ok first, s2)) /\
  (forall s3 skipCache entry,
     formatCache s3 = Some entry ->
     FORMAT_CACHE_TTL <= now s3 - timestamp entry \/ skipCache = true ->
     exists r s4,
       getSupportedFormats P c skipCache s3 = (r, s4) /\
       requestsStarted s4 = S (requestsStarted s3) /\
       (fetches s3 < fetches s4 <= fetches s3 + S (maxRetries c))%nat /\
       (exists req ev, trace s4 = trace s3 ++ Fetch req :: ev /\
                       url req = (baseUrl c ++ "/api/convert/formats")%string) /\
       (forall fresh, r = Ok fresh ->
          formatCache s4 = Some {| cached := fresh; timestamp := now s4 |}) /\
       (forall e, r = Throw e -> formatCache s4 = formatCache s3)).
Proof.
  intros H. destruct (getSupportedFormats_ok P c s s1 first H) as [Hreq [entry1 [Hc1 Hd1]]].
  split; [exact Hreq|]. split; [|split; [now exists entry1|split]].
  - destruct (formatCache s) as [entry|] eqn:Hc.
    + destruct (Z.lt_ge_cases (now s - timestamp entry) FORMAT_CACHE_TTL) as [Hage|Hage].
      * rewrite (getSupportedFormats_hit P c s entry Hc Hage) in H. inversion H; subst. lia.
      * rewrite getSupportedFormats_miss in H by (right; right; now exists entry).
        destruct (request P c "/convert/formats" noInit s) as [[v|e] s'] eqn:Hr;
          inversion H; subst. apply request_fetches in Hr. simpl. lia.
    + rewrite getSupportedFormats_miss in H by (right; now left).
      destruct (request P c "/convert/formats" noInit s) as [[v|e] s'] eqn:Hr;
        inversion H; subst. apply request_fetches in Hr. simpl. lia.
  - intros s2 entry He1 He2 Hage.
    rewrite (getSupportedFormats_hit P c s2 entry He2 Hage).
    rewrite Hc1 in He1. inversion He1; subst. reflexivity.
  - intros s3 skipCache entry He Hwhy.
    rewrite getSupportedFormats_miss
      by (destruct Hwhy as [Hold | ->]; [right; right; now exists entry | now left]).
    destruct (request P c "/convert/formats" noInit s3) as [[v|e] s'] eqn:Hr;
      pose proof (request_fetches _ _ _ _ _ _ _ Hr) as Hbound;
      apply request_first in Hr; destruct Hr as [Hc [Hn [Hf [[req [ev [Ht Hu]]] _]]]].
    + eexists. eexists. split; [reflexivity|]. unfold requestsStarted. simpl.
      split; [exact Hn|]. split; [exact Hbound|]. split; [|split].
      * exists req, ev. split; [exact Ht | exact Hu].
      * intros fresh Hfresh. inversion Hfresh; subst. reflexivity.
      * intros e He'. discriminate He'.
    + eexists. eexists. split; [reflexivity|]. unfold requestsStarted.
      split; [exact Hn|]. split; [exact Hbound|]. split; [|split].
      * exists req, ev. split; [exact Ht | exact Hu].
      * intros fresh Hfresh. discriminate Hfresh.
      * intros e0 _. exact Hc.
Qed.

(** Instance: a first call on an empty cache, a second call 59 minutes
    later, a third call after 61 minutes. *)
Lemma format_cache_window_witness :
  let P := Example.formats in
  let s1 := Example.listed in
  let s2 := advance 3540000 s1 in
  let s3 := advance 3660000 s1 in
  getSupportedFormats P Example.client false Example.start = (Ok Example.formatList, s1) /\
  requestsStarted s1 = 1%nat /\
  getSupportedFormats P Example.client false s2 = (Ok Example.formatList, s2) /\
  exists r s4, getSupportedFormats P Example.client false s3 = (r, s4) /\
               requestsStarted s4 = 2%nat.
Proof.
  intros P s1 s2 s3.
  assert (H : getSupportedFormats P Example.client false Example.start
              = (Ok Example.formatList, s1)) by (vm_compute; reflexivity).
  destruct (format_cache_window P Example.client Example.start s1 Example.formatList H)
    as [_ [_ [_ [Hhit Hmiss]]]].
  split; [exact H|]. split; [reflexivity|]. split.
  - apply (Hhit s2 {| cached := Example.formatList; timestamp := 1700000000005 |});
      [reflexivity | reflexivity | reflexivity].
  - assert (Hold : FORMAT_CACHE_TTL
                   <= now s3 - timestamp {| cached := Example.formatList;
                                            timestamp := 1700000000005 |})
      by (vm_compute; discriminate).
    destruct (Hmiss s3 false {| cached := Example.formatList; timestamp := 1700000000005 |}
                eq_refl (or_introl Hold))
      as [r [s4 [Hrun [Hn _]]]].
    exists r, s4. split; [exact Hrun | exact Hn].
Defined.

(** C5 (as stated) fails: the formats endpoint answers 503 three times
    and then serves the list.  Two calls made within the hour, none of
    them forcing a refresh, both return the list; the second comes from
    the cache, and the first has made four network requests, not one. *)
Lemma formats_after_four_fetches :
  let P := Sample.formatsAfterRetries in
  let first := getSupportedFormats P Example.client false Example.start in
  let second := getSupportedFormats P Example.client false (snd first) in
  fst first = Ok Example.formatList /\
  fst second = Ok Example.formatList /\
  now (snd second) - now Example.start < FORMAT_CACHE_TTL /\
  requestsStarted (snd second) = 1%nat /\
  fetches (snd second) = 4%nat /\
  fetchCount (trace (snd second)) = 4%nat.
Proof. vm_compute. repeat split. Qed.

(** X1: whatever the network does, one call of [fetchWithRetry] makes at
    least one and at most [maxRetries + 1] fetches, all of the same request
    (same address, same headers, same correlation id), and sleeps only
    between two fetches, so fewer times than it fetches. *)
Theorem fetchWithRetry_attempts_bounded (P : Platform) (c : Client) (url : string)
    (options : RequestInit) (cid : string) (s : State) :
  exists ev,
    trace (snd (fetchWithRetry P c url options cid s)) = trace s ++ ev /\
    sends (tagged url options cid) ev /\
    (1 <= fetchCount ev <= S (maxRetries c))%nat /\
    (List.length (sleeps ev) < fetchCount ev)%nat /\
    fetches (snd (fetchWithRetry P c url options cid s)) = (fetches s + fetchCount ev)%nat.
Proof.
  unfold fetchWithRetry.
  destruct (retryLoop_bounded P c url options cid (S (maxRetries c)) 0 None s ltac:(lia))
    as [ev [Ht [Hs [Hn [Hb [Hsl _]]]]]].
  exists ev. specialize (Hsl (Nat.le_0_l _)).
  split; [exact Ht|]. split; [exact Hs|]. split; [lia|]. split; [exact Hsl | exact Hn].
Qed.

(** X2: a response whose status is neither 429 nor in the list of
    retryable codes is the result of the call after a single fetch, with no
    sleep, whatever the attempt budget. *)
Theorem final_response_returned_at_once (P : Platform) (c : Client) (url : string)
    (options : RequestInit) (cid : string) (s : State) (response : Response) :
  answer P c (fetches s) (tagged url options cid) = Responds response ->
  status response <> 429 ->
  retryable (status response) = false ->
  exists s1,
    fetchWithRetry P c url options cid s = (Ok response, s1) /\
    trace s1 = trace s ++ [Fetch (tagged url options cid)] /\
    fetches s1 = S (fetches s).
Proof.
  intros Ha H429 Hretry.
  destruct (attemptOnce_run P c url options cid 0 s) as [s1 [Hf Hrun]].
  destruct (fetchWithTimeout_run P c url (init (tagged url options cid)) s)
    as [s1' [Hf' [_ [_ [Hn Ht]]]]].
  rewrite Hf in Hf'. inversion Hf'; subst s1'. clear Hf' Hf.
  rewrite Ha in Hrun.
  replace (status response =? 429) with false in Hrun
    by (symmetry; now apply Z.eqb_neq).
  rewrite Hretry in Hrun. simpl in Hrun.
  exists s1. unfold fetchWithRetry. rewrite retryLoop_step, Hrun.
  split; [reflexivity|]. split; [exact Ht | exact Hn].
Qed.

(** Instance: a 404 is returned after one fetch. *)
Lemma final_response_returned_at_once_witness :
  exists s1,
    fetchWithRetry Sample.notFound Example.client "https://h/api/convert/x" noInit
      "mcp-1-a" Example.start
    = (Ok (Example.respond 404 [] (Some (JObj [("detail", JStr "Not found")]))), s1) /\
    trace s1 = [Fetch (tagged "https://h/api/convert/x" noInit "mcp-1-a")] /\
    fetches s1 = 1%nat.
Proof.
  apply (final_response_returned_at_once Sample.notFound Example.client
           "https://h/api/convert/x" noInit "mcp-1-a" Example.start
           (Example.respond 404 [] (Some (JObj [("detail", JStr "Not found")]))));
    [reflexivity | discriminate | reflexivity].
Defined.

Section RateLimited.

Variable P : Platform.
Variable c : Client.

(** Every fetch is answered, in time, with status 429. *)
Hypothesis always429 :
  forall n req, exists r, answer P c n req = Responds r /\ status r = 429.

Lemma retryLoop_429 (url : string) (options : RequestInit) (cid : string) (k : nat) :
  forall attempt lastError s,
    (attempt + k = maxRetries c)%nat ->
    exists r s',
      retryLoop P c url options cid (S k) attempt lastError s
      = (Throw (Error (MsgRateLimit
                         (Js.numOr (Js.parseInt
                                      (Js.strOr (headerGet "Retry-After" (responseHeaders r))
                                                "0")) 60))), s') /\
      answer P c (fetches s + k) (tagged url options cid) = Responds r /\
      fetches s' = (fetches s + S k)%nat.
Proof.
  induction k as [|k IH]; intros attempt lastError s Hk;
    destruct (always429 (fetches s) (tagged url options cid)) as [r [Ha Hs]];
    destruct (attemptOnce_run P c url options cid attempt s) as [s1 [Hf Hrun]];
    destruct (fetchWithTimeout_run P c url (init (tagged url options cid)) s)
      as [s1' [Hf' [_ [_ [Hn _]]]]];
    rewrite Hf in Hf'; inversion Hf'; subst s1'; clear Hf' Hf;
    rewrite Ha, Hs in Hrun; change (429 =? 429) with true in Hrun;
    cbv iota zeta in Hrun;
    rewrite retryLoop_step;
    (replace (attempt <=? maxRetries c)%nat with true
      by (symmetry; apply Nat.leb_le; lia)).
  - replace (attempt <? maxRetries c)%nat with false in Hrun
      by (symmetry; apply Nat.ltb_ge; lia).
    rewrite Hrun.
    replace (attempt <? maxRetries c)%nat with false
      by (symmetry; apply Nat.ltb_ge; lia).
    exists r, s1. cbn [andb retryLoop throw].
    split; [reflexivity|]. split; [now rewrite Nat.add_0_r | lia].
  - replace (attempt <? maxRetries c)%nat with true in Hrun
      by (symmetry; apply Nat.ltb_lt; lia).
    rewrite Hrun.
    match goal with
    | |- context [retryLoop P c url options cid (S k) (S attempt) lastError ?s2] =>
        destruct (IH (S attempt) lastError s2 ltac:(lia)) as [r' [s' [Hloop [Ha' Hn']]]]
    end.
    exists r', s'. split; [exact Hloop|]. simpl fetches in Ha', Hn'.
    split; [rewrite <- Ha'; f_equal; lia | lia].
Qed.

End RateLimited.

(** X3: when every attempt of a call is answered 429, the call fails after
    [maxRetries + 1] fetches with the rate-limit error, whose hint is the
    Retry-After value of the last answer, or 60 when that value is absent,
    not a number or 0. *)
Theorem rate_limit_exhausted (P : Platform) (c : Client) (url : string)
    (options : RequestInit) (cid : string) (s : State) :
  (forall n req, exists r, answer P c n req = Responds r /\ status r = 429) ->
  exists r s',
    fetchWithRetry P c url options cid s
    = (Throw (Error (MsgRateLimit
                       (Js.numOr (Js.parseInt
                                    (Js.strOr (headerGet "Retry-After" (responseHeaders r))
                                              "0")) 60))), s') /\
    answer P c (fetches s + maxRetries c) (tagged url options cid) = Responds r /\
    fetches s' = (fetches s + S (maxRetries c))%nat.
Proof.
  intros H. unfold fetchWithRetry.
  exact (retryLoop_429 P c H url options cid (maxRetries c) 0 None s eq_refl).
Qed.

(** Instance: with [Retry-After: 7] on every answer the call gives up after
    four fetches with the hint 7. *)
Lemma rate_limit_exhausted_witness :
  exists s',
    fetchWithRetry Sample.alwaysLimited Example.client "https://h/api/convert" noInit
      "mcp-1-a" Example.start = (Throw (Error (MsgRateLimit 7)), s') /\
    fetches s' = 4%nat.
Proof.
  destruct (rate_limit_exhausted Sample.alwaysLimited Example.client "https://h/api/convert"
              noInit "mcp-1-a" Example.start)
    as [r [s' [Hrun [Ha Hn]]]].
  { intros n req. eexists. split; reflexivity. }
  exists s'. split; [|exact Hn].
  rewrite Hrun. vm_compute in Ha. inversion Ha; subst r. reflexivity.
Defined.

(* ------------------------------------------------------------------ *)
(** *** Headers *)

Lemma assoc_setKey_same (k v : string) (o : Headers) : assoc k (setKey k v o) = Some v.
Proof.
  induction o as [|[k' v'] o IH]; simpl.
  - now rewrite String.eqb_refl.
  - destruct (k' =? k)%string eqn:E; simpl; [now rewrite String.eqb_refl|].
    now rewrite E.
Qed.

Lemma assoc_setKey_other (k k0 v : string) (o : Headers) :
  k0 <> k -> assoc k0 (setKey k v o) = assoc k0 o.
Proof.
  intros Hne. induction o as [|[k' v'] o IH]; simpl.
  - destruct (k =? k0)%string eqn:E; [apply String.eqb_eq in E; congruence | reflexivity].
  - destruct (k' =? k)%string eqn:E; simpl.
    + apply String.eqb_eq in E. subst k'.
      destruct (k =? k0)%string eqn:E0; [apply String.eqb_eq in E0; congruence | reflexivity].
    + destruct (k' =? k0)%string; [reflexivity | exact IH].
Qed.

Lemma assoc_spread_absent (k : string) (b : Headers) :
  assoc k b = None -> forall a, assoc k (spread a b) = assoc k a.
Proof.
  unfold spread. induction b as [|[k' v'] b IH]; intros Hb a; simpl; [reflexivity|].
  simpl in Hb. destruct (k' =? k)%string eqn:E; [discriminate|].
  rewrite (IH Hb). apply assoc_setKey_other.
  intros Heq. subst k'. rewrite String.eqb_refl in E. discriminate.
Qed.

(** X4: every attempt of one logical request is a fetch of one and the
    same request: the address is the base address followed by [/api] and
    the endpoint, the correlation id header holds the id drawn once for the
    call, and, unless the caller's headers set them, the Authorization
    header holds the bearer credential and the User-Agent header the
    client's identifier. *)
Theorem request_attempts_share_identity (P : Platform) (c : Client) (endpoint : string)
    (options : RequestInit) (s : State) :
  let req := outgoing P c endpoint options s in
  let cid := ("mcp-" ++ Js.showZ (now s) ++ "-" ++ random36 P (randoms s))%string in
  (exists ev,
     trace (snd (request P c endpoint options s)) = trace s ++ ev /\
     sends req ev /\
     (1 <= fetchCount ev <= S (maxRetries c))%nat) /\
  url req = (baseUrl c ++ "/api" ++ endpoint)%string /\
  method (init req) = method options /\
  body (init req) = body options /\
  assoc "X-Correlation-ID" (headers (init req)) = Some cid /\
  (assoc "Authorization" (headers options) = None ->
   assoc "Authorization" (headers (init req)) = Some ("Bearer " ++ apiKey c)%string) /\
  (assoc "User-Agent" (headers options) = None ->
   assoc "User-Agent" (headers (init req)) = Some (userAgent c)).
Proof.
  intros req cid. split; [|repeat split].
  - unfold request, bind, generateCorrelationId.
    match goal with
    | |- context [fetchWithRetry P c ?u ?o ?i ?s0] =>
        destruct (fetchWithRetry_bounded_aux P c u o i s0) as [ev [Ht [Hs Hb]]];
        destruct (fetchWithRetry P c u o i s0) as [[response|e] s1] eqn:Hrun
    end.
    + exists ev. simpl in Ht. split; [|split; [exact Hs | exact Hb]].
      destruct (negb (ok response)); [exact Ht|].
      destruct (json response); exact Ht.
    + exists ev. simpl in Ht. split; [exact Ht | split; [exact Hs | exact Hb]].
  - apply assoc_setKey_same.
  - intros Hnone. simpl. rewrite assoc_setKey_other by discriminate.
    rewrite (assoc_spread_absent _ _ Hnone). reflexivity.
  - intros Hnone. simpl. rewrite assoc_setKey_other by discriminate.
    rewrite (assoc_spread_absent _ _ Hnone). reflexivity.
Qed.

(** Instance: a status request of the default client. *)
Lemma request_attempts_share_identity_witness :
  let req := outgoing Example.completed Example.client "/user/usage" noInit Example.start in
  assoc "Authorization" (headers (init req)) = Some "Bearer ce_live_key" /\
  assoc "User-Agent" (headers (init req)) = Some "converteverything-mcp/1.2.0 (Node.js)".
Proof.
  intros req.
  destruct (request_attempts_share_identity Example.completed Example.client "/user/usage"
              noInit Example.start) as [_ [_ [_ [_ [_ [Hauth Hua]]]]]].
  split; [exact (Hauth eq_refl) | exact (Hua eq_refl)].
Defined.

(* ================================================================== *)
(** ** Operations on an existing job *)
(* ================================================================== *)

Lemma getConversionStatus_valid (P : Platform) (c : Client) (id : string) (s : State)
    v s1 :
  getConversionStatus P c id s = (Ok v, s1) -> isValidUuid id = true.
Proof.
  unfold getConversionStatus. destruct (isValidUuid id); [reflexivity|].
  simpl. discriminate.
Qed.

(** X5: once the status of the job has been fetched, [cancelConversion]
    does not throw.  For a job that is processing it answers that it cannot
    cancel and sends nothing more (no DELETE); for any other job it sends
    one DELETE request and reports success exactly when that request
    succeeds, the error of a failed request becoming the message of the
    result. *)
Theorem cancelConversion_outcomes (P : Platform) (c : Client) (id : string)
    (s s1 : State) (conversion : Json) :
  getConversionStatus P c id s = (Ok conversion, s1) ->
  conversion <> JNull ->
  let delete := request P c ("/convert/" ++ id)%string
                  {| method := Some "DELETE"; headers := []; body := None |} s1 in
  (isStr (prop conversion "status") "processing" = true ->
   cancelConversion P c id s
   = (Ok {| success := false; cancelMessage := MsgCannotCancel |}, s1)) /\
  (isStr (prop conversion "status") "processing" = false ->
   (forall v, fst delete = Ok v ->
      cancelConversion P c id s
      = (Ok {| success := true; cancelMessage := MsgDeleted |}, snd delete)) /\
   (forall e, fst delete = Throw e ->
      cancelConversion P c id s
      = (Ok {| success := false; cancelMessage := message e |}, snd delete))).
Proof.
  intros Hg Hnull delete.
  pose proof (getConversionStatus_valid _ _ _ _ _ _ Hg) as Hid.
  unfold cancelConversion, bind. rewrite Hid. cbn [negb]. cbv beta iota. rewrite Hg.
  assert (Hp : getProp conversion "status" s1 = (Ok (prop conversion "status"), s1))
    by (destruct conversion; try reflexivity; contradiction Hnull; reflexivity).
  rewrite Hp. split.
  - intros ->. reflexivity.
  - intros ->. unfold tryCatch, bind. fold delete.
    split; intros v Hv; destruct delete as [[w|e] s2]; simpl in Hv;
      inversion Hv; subst; reflexivity.
Qed.

(** Instance: a job that is still processing. *)
Lemma cancelConversion_outcomes_witness :
  let s1 := snd (getConversionStatus Sample.processing Example.client Example.uuid
                   Example.start) in
  cancelConversion Sample.processing Example.client Example.uuid Example.start
  = (Ok {| success := false; cancelMessage := MsgCannotCancel |}, s1) /\
  fetches s1 = 1%nat.
Proof.
  intros s1. split; [|reflexivity].
  apply (proj1 (cancelConversion_outcomes Sample.processing Example.client Example.uuid
                  Example.start s1 (Example.job "processing") eq_refl
                  ltac:(discriminate)) eq_refl).
Defined.

(** X6: [retryConversion] never returns a job: every call ends in an
    error, after at most one logical request (the status request). *)
Theorem retryConversion_always_fails (P : Platform) (c : Client) (id : string)
    (newOptions : option ConversionOptions) (s : State) :
  exists e,
    fst (retryConversion P c id newOptions s) = Throw e /\
    (requestsStarted (snd (retryConversion P c id newOptions s))
     <= S (requestsStarted s))%nat.
Proof.
  unfold retryConversion, requestsStarted.
  destruct (isValidUuid id) eqn:Hid; cbn [negb]; cbv beta iota.
  - unfold bind.
    destruct (getConversionStatus P c id s) as [[original|e] s1] eqn:Hg;
      apply (getConversionStatus_first P c id s _ _ Hid) in Hg;
      destruct Hg as [_ [Hn _]].
    + destruct original; simpl;
        try (eexists; split; [reflexivity | simpl; lia]);
        match goal with
        | |- context [isStr ?v "failed"] =>
            destruct (isStr v "failed"); simpl; eexists; split; try reflexivity; simpl; lia
        end.
    + eexists. split; [reflexivity | simpl; lia].
  - eexists. split; [reflexivity | simpl; lia].
Qed.

(** X7: what [downloadFile] does once the status of the job is known.  A
    job that is not completed, a completed job without a download locator,
    and a locator whose expiry lies in the past each end the call in the
    matching error with nothing fetched; otherwise the locator is fetched
    exactly once, with the User-Agent header only (no credential, no
    correlation id) and without any retry. *)
Theorem downloadFile_guards (P : Platform) (c : Client) (id : string)
    (s s1 : State) (conversion : Json) :
  getConversionStatus P c id s = (Ok conversion, s1) ->
  conversion <> JNull ->
  let locator := prop conversion "download_url" in
  let expires := orUndefined (prop conversion "download_expires_at") in
  let expired :=
    match expires with
    | Some v => match dateParse P v with
                | Some expiresAt => expiresAt <? now s1
                | None => false
                end
    | None => false
    end in
  (isStr (prop conversion "status") "completed" = false ->
   downloadFile P c id s
   = (Throw (Error (MsgNotComplete (prop conversion "status")
                      (orUndefined (prop conversion "error_message")))), s1)) /\
  (isStr (prop conversion "status") "completed" = true ->
   (truthy locator = false ->
    downloadFile P c id s = (Throw (Error MsgNoDownloadUrl), s1)) /\
   (truthy locator = true -> expired = true ->
    downloadFile P c id s = (Throw (Error MsgDownloadExpired), s1)) /\
   (truthy locator = true -> expired = false ->
    let req := {| url := render P locator;
                  init := {| method := None;
                             headers := [("User-Agent", userAgent c)];
                             body := None |} |} in
    trace (snd (downloadFile P c id s)) = trace s1 ++ [Fetch req] /\
    fetches (snd (downloadFile P c id s)) = S (fetches s1) /\
    forall response,
      answer P c (fetches s1) req = Responds response ->
      ok response = false ->
      fst (downloadFile P c id s)
      = Throw (Error (MsgDownloadFailed (status response) (statusText response))))).
Proof.
  intros Hg Hnull locator expires expired.
  pose proof (getConversionStatus_valid _ _ _ _ _ _ Hg) as Hid.
  assert (Hp : getProp conversion "status" s1 = (Ok (prop conversion "status"), s1))
    by (destruct conversion; try reflexivity; contradiction Hnull; reflexivity).
  unfold downloadFile, bind. rewrite Hid. cbn [negb]. cbv beta iota. rewrite Hg, Hp.
  unfold dateNow. subst locator expires expired.
  split.
  - intros Hst. rewrite Hst. reflexivity.
  - intros Hst. rewrite Hst. cbn [negb]. cbv beta iota. split; [|split].
    + intros Hl. rewrite Hl. reflexivity.
    + intros Hl Hexp. rewrite Hl. cbn [negb]. cbv beta iota. rewrite Hexp. reflexivity.
    + intros Hl Hexp. rewrite Hl. cbn [negb]. cbv beta iota. rewrite Hexp.
      cbv beta iota.
      set (req := {| url := render P (prop conversion "download_url");
                     init := {| method := None;
                                headers := [("User-Agent", userAgent c)];
                                body := None |} |}).
      destruct (fetchWithTimeout_run P c (render P (prop conversion "download_url"))
                  (init req) s1)
        as [s2 [Hf [_ [_ [Hn Ht]]]]].
      change {| url := render P (prop conversion "download_url"); init := init req |}
        with req in Hf, Ht.
      change {| method := None; headers := [("User-Agent", userAgent c)]; body := None |}
        with (init req).
      rewrite Hf.
      destruct (answer P c (fetches s1) req) as [response|n t] eqn:Ha; cbn [thrown].
      * destruct (negb (ok response)) eqn:Hok.
        -- cbn [throw fst snd]. split; [exact Ht|]. split; [exact Hn|].
           intros r Hr _. inversion Hr; subst. reflexivity.
        -- match goal with
           | |- context [match ?m s2 with _ => _ end] =>
               assert (Hm : (exists name, m s2 = (Ok name, s2))
                            \/ (exists e, m s2 = (Throw e, s2)))
           end.
           { destruct (headerGet "Content-Disposition" (responseHeaders response))
               as [[|ch rest]|];
               try (destruct (orUndefined (prop conversion "original_filename"))
                      as [[]|]);
               first [left; eexists; reflexivity | right; eexists; reflexivity]. }
           destruct Hm as [[name Hm] | [e Hm]]; rewrite Hm; cbn [ret fst snd];
             (split; [exact Ht|]; split; [exact Hn|]);
             intros r Hr Hbad; inversion Hr; subst;
             apply negb_false_iff in Hok; congruence.
      * cbn [fst snd]. split; [exact Ht|]. split; [exact Hn|].
        intros r Hr. discriminate Hr.
Qed.

(** Instance: a completed job with a locator and no expiry; the locator is
    fetched once. *)
Lemma downloadFile_guards_witness :
  let s1 := snd (getConversionStatus Sample.ready Example.client Example.uuid
                   Example.start) in
  let run := downloadFile Sample.ready Example.client Example.uuid Example.start in
  trace (snd run)
  = trace s1 ++ [Fetch {| url := "https://cdn.example.com/f/song.mp3";
                          init := {| method := None;
                                     headers := [("User-Agent", userAgent Example.client)];
                                     body := None |} |}] /\
  fetches (snd run) = 2%nat.
Proof.
  intros s1 run.
  destruct (proj2 (downloadFile_guards Sample.ready Example.client Example.uuid
                     Example.start s1 Sample.readyJob eq_refl ltac:(discriminate))
              eq_refl) as [_ [_ Hfetch]].
  destruct (Hfetch eq_refl eq_refl) as [Ht [Hn _]].
  split; [exact Ht | exact Hn].
Defined.

(* ================================================================== *)
(** ** The wait is bounded *)
(* ================================================================== *)

Section Clock.

Variable P : Platform.
Variable c : Client.

Hypothesis causalP : causal P.

Lemma fetchWithTimeout_now (url : string) (options : RequestInit) (s : State) r s1 :
  fetchWithTimeout P c url options s = (r, s1) -> now s <= now s1.
Proof.
  unfold fetchWithTimeout. intros H.
  pose proof (causalP (fetches s) {| url := url; init := options |}) as Hl.
  pose proof (timerDelay_range (timeout c)) as Ht.
  destruct (timerDelay (timeout c)
            <=? latency (network P (fetches s) {| url := url; init := options |})).
  - inversion H; subst. simpl. lia.
  - destruct (settles (network P (fetches s) {| url := url; init := options |}));
      inversion H; subst; simpl; lia.
Qed.

Lemma attemptOnce_now (url : string) (options : RequestInit) (cid : string)
    (attempt : nat) (s : State) r s' :
  attemptOnce P c url options cid attempt s = (r, s') -> now s <= now s'.
Proof.
  intros H. destruct (attemptOnce_run P c url options cid attempt s) as [s1 [Hf Hrun]].
  apply fetchWithTimeout_now in Hf. rewrite Hrun in H. clear Hrun.
  destruct (answer P c (fetches s) (tagged url options cid)) as [response|n t].
  - destruct (status response =? 429).
    + cbv zeta in H. destruct (attempt <? maxRetries c)%nat; inversion H; subst;
        simpl;
        try match goal with
            | |- context [timerDelay ?d] => pose proof (timerDelay_range d)
            end; lia.
    + destruct (retryable (status response) && (attempt <? maxRetries c)%nat);
        inversion H; subst; simpl;
        try match goal with
            | |- context [timerDelay ?d] => pose proof (timerDelay_range d)
            end; lia.
  - inversion H; subst. exact Hf.
Qed.

Lemma retryLoop_now (url : string) (options : RequestInit) (cid : string) (fuel : nat) :
  forall attempt lastError s r s',
    retryLoop P c url options cid fuel attempt lastError s = (r, s') -> now s <= now s'.
Proof.
  induction fuel as [|fuel IH]; intros attempt lastError s r s' H.
  - simpl in H. inversion H; subst. lia.
  - rewrite retryLoop_step in H.
    destruct (attempt <=? maxRetries c)%nat; [|inversion H; subst; lia].
    destruct (attemptOnce P c url options cid attempt s) as [[[|response]|error] s1] eqn:Ha;
      apply attemptOnce_now in Ha.
    + apply IH in H. lia.
    + inversion H; subst. exact Ha.
    + destruct ((attempt <? maxRetries c)%nat && negb (name error =? "AbortError")%string);
        apply IH in H; simpl in H;
        try match type of H with
            | context [timerDelay ?d] => pose proof (timerDelay_range d)
            end; lia.
Qed.

Lemma request_now (endpoint : string) (options : RequestInit) (s : State) r s' :
  request P c endpoint options s = (r, s') -> now s <= now s'.
Proof.
  unfold request, bind, generateCorrelationId, fetchWithRetry. intros H.
  match type of H with
  | context [retryLoop P c ?u ?o ?cid ?f 0%nat None ?s0] =>
      destruct (retryLoop P c u o cid f 0%nat None s0) as [r1 s1] eqn:Hloop;
      apply retryLoop_now in Hloop; simpl in Hloop
  end.
  destruct r1 as [response|e]; [|inversion H; subst; exact Hloop].
  destruct (negb (ok response)); [inversion H; subst; exact Hloop|].
  destruct (json response); inversion H; subst; exact Hloop.
Qed.

Lemma fetchStatus_now (id : string) (s : State) r s1 :
  fetchStatus P c id s = (r, s1) -> now s <= now s1.
Proof.
  unfold fetchStatus, bind, getConversionStatus. intros H.
  destruct (negb (isValidUuid id)); [inversion H; subst; lia|].
  destruct (request P c ("/convert/" ++ id)%string noInit s) as [[conversion|e] s0] eqn:Hr;
    apply request_now in Hr.
  - destruct conversion; inversion H; subst; exact Hr.
  - inversion H; subst. exact Hr.
Qed.

(** The polling loop ends within the ticks the timeout leaves room for. *)
Lemma pollLoop_ends (id : string) (pollInterval timeout startTime : Z) :
  forall fuel s,
    timeout - (now s - startTime) < Z.of_nat fuel * timerDelay pollInterval ->
    pollLoop P c id pollInterval timeout startTime (S fuel) s <> None.
Proof.
  pose proof (timerDelay_range pollInterval) as Hpoll.
  induction fuel as [|fuel IH]; intros s Hroom; rewrite pollLoop_step;
    destruct (fetchStatus P c id s) as [[[conversion st]|e] s1] eqn:Hf;
    try discriminate; apply fetchStatus_now in Hf;
    (destruct (terminal st); [discriminate|]);
    destruct (now s1 - startTime >? timeout) eqn:Hgt; try discriminate;
    rewrite Z.gtb_ltb in Hgt; apply Z.ltb_ge in Hgt.
  - exfalso. lia.
  - apply IH. simpl. lia.
Qed.

End Clock.



Section Elapsed.

Variable P : Platform.
Variable c : Client.
Variable id : string.
Hypothesis validId : isValidUuid id = true.

Lemma pollLoop_timeout_elapsed (pollInterval timeout startTime : Z) (fuel : nat) :
  forall s e s' t st,
    pollLoop P c id pollInterval timeout startTime fuel s = Some (Throw e, s') ->
    message e = MsgTimedOut t st ->
    t = timeout /\ now s' - startTime > t.
Proof.
  induction fuel as [|fuel IH]; intros s e s' t st H Hm; [discriminate|].
  rewrite pollLoop_step in H.
  destruct (fetchStatus P c id s) as [[[conversion st0]|e0] s1] eqn:Hf;
    apply (fetchStatus_first P c id validId) in Hf; destruct Hf as [_ Herr].
  - destruct (terminal st0); [discriminate|].
    destruct (now s1 - startTime >? timeout) eqn:Hgt.
    + inversion H; subst. simpl in Hm. inversion Hm; subst.
      rewrite Z.gtb_ltb in Hgt. apply Z.ltb_lt in Hgt. split; [reflexivity | lia].
    + eapply IH; eassumption.
  - inversion H; subst. specialize (Herr e eq_refl).
    unfold isTimedOut in Herr. rewrite Hm in Herr. discriminate.
Qed.

End Elapsed.

(** X9: a wait that ends in the timeout error has lasted longer than the
    effective timeout, and that timeout is the one the error reports: the
    caller's value, or 300000 ms when it is absent or 0. *)
Theorem timeout_error_after_timeout (P : Platform) (c : Client) (id : string)
    (options : WaitOptions.t) (fuel : nat) (s s' : State) (e : JsError)
    (t : Z) (st : JsVal) :
  waitForConversion P c id options fuel s = Some (Throw e, s') ->
  message e = MsgTimedOut t st ->
  t = Js.numOr (WaitOptions.timeout options) 300000 /\
  now s' - now s > t.
Proof.
  unfold waitForConversion. intros H Hm.
  destruct (isValidUuid id) eqn:Hid; cbn [negb] in H; cbv beta iota in H.
  - eapply pollLoop_timeout_elapsed; eassumption.
  - inversion H; subst. discriminate Hm.
Qed.

(** Instance: with a timeout of 1 ms, the error comes 5 ms after the start. *)
Lemma timeout_error_after_timeout_witness :
  let options := {| WaitOptions.pollInterval := None; WaitOptions.timeout := Some 1 |} in
  let s' := snd (getConversionStatus Example.processingOnce Example.client Example.uuid
                   Example.start) in
  now s' - now Example.start > 1.
Proof.
  intros options s'.
  apply (timeout_error_after_timeout Example.processingOnce Example.client Example.uuid
           options 1 Example.start s'
           (Error (MsgTimedOut 1 (Some (JStr "processing")))) 1
           (Some (JStr "processing")) eq_refl eq_refl).
Defined.

(* ================================================================== *)
(** ** Validators are stable *)
(* ================================================================== *)

Lemma stripTrailingSlashes_id (s : string) :
  lastChar s <> Some "/"%char -> Js.stripTrailingSlashes s = s.
Proof.
  induction s as [|ch s IH]; intros Hlast; [reflexivity|].
  cbn [Js.stripTrailingSlashes]. destruct s as [|b t].
  - simpl. destruct (Ascii.eqb_spec ch "/"); [subst; contradiction Hlast; reflexivity|].
    reflexivity.
  - rewrite IH by exact Hlast. simpl. now rewrite andb_false_r.
Qed.

Lemma sanitizeUrl_again (P : Platform) (address u : string) :
  sanitizeUrl P address = Ok u -> sanitizeUrl P u = Ok u.
Proof.
  intros H. destruct (sanitizeUrl_ok P address u H) as [Hu [Hlast [Hup Hkeep]]].
  unfold sanitizeUrl. rewrite (stripTrailingSlashes_id u Hlast).
  unfold Spec.insecure in Hup, Hkeep.
  destruct (Js.startsWith (Js.stripTrailingSlashes address) "http://") eqn:Hp;
    destruct (Js.includes (Js.stripTrailingSlashes address) "localhost") eqn:Hl.
  - pose proof (Hkeep (or_intror eq_refl)) as E. rewrite <- E in Hp, Hl.
    rewrite Hp, Hl. simpl. now rewrite Hu.
  - pose proof (Hup eq_refl eq_refl) as E.
    assert (Hs : Js.startsWith u "http://" = false).
    { rewrite E. unfold Js.startsWith.
      generalize (Js.drop 7 (Js.stripTrailingSlashes address)).
      intros r. reflexivity. }
    rewrite Hs. simpl. now rewrite Hu.
  - pose proof (Hkeep (or_introl eq_refl)) as E. rewrite <- E in Hp.
    rewrite Hp. simpl. now rewrite Hu.
  - pose proof (Hkeep (or_introl eq_refl)) as E. rewrite <- E in Hp.
    rewrite Hp. simpl. now rewrite Hu.
Qed.

(** X10: normalizing a base address is idempotent: an address that
    [sanitizeUrl] returned is returned unchanged when it is given again. *)
Theorem sanitizeUrl_idempotent (P : Platform) (address u : string) :
  sanitizeUrl P address = Ok u -> sanitizeUrl P u = Ok u.
Proof. apply sanitizeUrl_again. Qed.

(** Instance: the address stored for [http://api.example.com//]. *)
Lemma sanitizeUrl_idempotent_witness :
  sanitizeUrl Example.completed "https://api.example.com" = Ok "https://api.example.com".
Proof.
  apply (sanitizeUrl_idempotent Example.completed "http://api.example.com//").
  reflexivity.
Defined.

Lemma everyChar_append (p : ascii -> bool) (a b : string) :
  everyChar p (a ++ b)%string = everyChar p a && everyChar p b.
Proof.
  induction a as [|ch a IH]; simpl; [reflexivity|]. now rewrite IH, andb_assoc.
Qed.

Lemma length_append (a b : string) :
  String.length (a ++ b)%string = (String.length a + String.length b)%nat.
Proof. induction a as [|ch a IH]; simpl; [reflexivity | now rewrite IH]. Qed.

Lemma hexRun_split (n : nat) :
  forall s rest, hexRun n s = Some rest ->
    exists digits, s = (digits ++ rest)%string /\ String.length digits = n /\
                   everyChar Js.isHex digits = true.
Proof.
  induction n as [|n IH]; intros s rest H; simpl in H.
  - inversion H; subst. now exists EmptyString.
  - destruct s as [|ch t]; [discriminate|].
    destruct (Js.isHex ch) eqn:Hh; [|discriminate].
    destruct (IH t rest H) as [digits [-> [Hlen Hall]]].
    exists (String ch digits). simpl. rewrite Hh, Hlen, Hall. repeat split.
Qed.

Lemma dash_split (s : option string) (rest : string) :
  dash s = Some rest -> s = Some (String "-" rest).
Proof.
  destruct s as [[|ch t]|]; simpl; try discriminate.
  destruct ch as [[] [] [] [] [] [] [] []]; try discriminate.
  intros H. inversion H. reflexivity.
Qed.

Lemma everyChar_weaken (p q : ascii -> bool) (s : string) :
  (forall ch, p ch = true -> q ch = true) -> everyChar p s = true -> everyChar q s = true.
Proof.
  intros Hpq. induction s as [|ch s IH]; simpl; [reflexivity|].
  intros H. apply andb_true_iff in H. destruct H as [H1 H2].
  now rewrite (Hpq _ H1), IH.
Qed.

(** X11: an identifier that [isValidUuid] accepts has exactly 36
    characters, each a hexadecimal digit or a hyphen, so it holds nothing
    (slash, question mark, hash, dot) that could change the address it is
    spliced into. *)
Theorem isValidUuid_shape (id : string) :
  isValidUuid id = true ->
  String.length id = 36%nat /\ everyChar uuidChar id = true.
Proof.
  unfold isValidUuid, andThen. intros H.
  destruct (hexRun 8 id) as [r1|] eqn:H1; [|discriminate H].
  destruct (dash (Some r1)) as [r2|] eqn:D1; [|discriminate H].
  destruct (hexRun 4 r2) as [r3|] eqn:H2; [|discriminate H].
  destruct (dash (Some r3)) as [r4|] eqn:D2; [|discriminate H].
  destruct (hexRun 4 r4) as [r5|] eqn:H3; [|discriminate H].
  destruct (dash (Some r5)) as [r6|] eqn:D3; [|discriminate H].
  destruct (hexRun 4 r6) as [r7|] eqn:H4; [|discriminate H].
  destruct (dash (Some r7)) as [r8|] eqn:D4; [|discriminate H].
  destruct (hexRun 12 r8) as [[|ch r9]|] eqn:H5; try discriminate H.
  apply dash_split in D1, D2, D3, D4.
  inversion D1; inversion D2; inversion D3; inversion D4; subst r1 r3 r5 r7.
  apply hexRun_split in H1, H2, H3, H4, H5.
  destruct H1 as [d1 [-> [L1 A1]]]. destruct H2 as [d2 [-> [L2 A2]]].
  destruct H3 as [d3 [-> [L3 A3]]]. destruct H4 as [d4 [-> [L4 A4]]].
  destruct H5 as [d5 [-> [L5 A5]]].
  assert (Hhex : forall ch, Js.isHex ch = true -> uuidChar ch = true)
    by (intros ch Hc; unfold uuidChar; now rewrite Hc).
  apply (everyChar_weaken _ _ _ Hhex) in A1, A2, A3, A4, A5.
  split.
  - repeat (rewrite length_append; cbn [String.length]).
    rewrite L1, L2, L3, L4, L5. reflexivity.
  - repeat (rewrite everyChar_append; cbn [everyChar]).
    rewrite A1, A2, A3, A4, A5. reflexivity.
Qed.

(** Instance: a canonical identifier. *)
Lemma isValidUuid_shape_witness :
  String.length Example.uuid = 36%nat /\ everyChar uuidChar Example.uuid = true.
Proof. apply isValidUuid_shape. reflexivity. Defined.

Lemma clean_id (l : list ascii) : noUnsafe l -> Filename.clean l = l.
Proof.
  intros H. unfold Filename.clean. apply forallb_filter_id. apply forallb_forall.
  intros x Hx. unfold noUnsafe in H. rewrite Forall_forall in H.
  now rewrite (H x Hx).
Qed.

Lemma sanitizeChars_idempotent (f : list ascii) :
  (List.length (Filename.sanitizeChars f) <= 255)%nat ->
  Filename.sanitizeChars (Filename.sanitizeChars f) = Filename.sanitizeChars f.
Proof.
  intros Hlen.
  destruct (sanitizeChars_cases f) as [[-> _]|[Hr [Hne Hnd]]]; [reflexivity|].
  rewrite Hr in *. set (r := shortened (cleaned f)) in *.
  assert (Hsep : noSeparator r).
  { eapply incl_Forall; [apply shortened_incl, cleaned_noSeparator|].
    apply cleaned_noSeparator. }
  assert (Hsafe : noUnsafe r).
  { eapply incl_Forall; [apply shortened_incl, cleaned_noSeparator|].
    apply clean_noUnsafe. }
  rewrite sanitizeChars_stages. cbv zeta. unfold cleaned at 1 2 3.
  rewrite (basenameChars_id r Hsep), (clean_id r Hsafe).
  unfold shortened at 1 2 3.
  replace (255 <? Z.of_nat (List.length r)) with false
    by (symmetry; apply Z.ltb_ge; lia).
  destruct r as [|a l] eqn:E; [contradiction Hne; reflexivity|].
  destruct (Js.charsEqb (a :: l) (Js.chars ".")) eqn:Hd; [|reflexivity].
  apply charsEqb_eq in Hd. contradiction.
Qed.

(** X12: sanitizing a file name twice gives what sanitizing it once gives,
    as long as the first result respects the limit of 255 characters. *)
Theorem sanitizeFilename_idempotent (f : string) :
  (String.length (sanitizeFilename f) <= 255)%nat ->
  sanitizeFilename (sanitizeFilename f) = sanitizeFilename f.
Proof.
  unfold sanitizeFilename. rewrite length_str, chars_str. intros H.
  now rewrite sanitizeChars_idempotent.
Qed.

(** Instance: a relative path with directories. *)
Lemma sanitizeFilename_idempotent_witness :
  sanitizeFilename (sanitizeFilename "../uploads/report.final.pdf")
  = sanitizeFilename "../uploads/report.final.pdf".
Proof.
  apply sanitizeFilename_idempotent. vm_compute. lia.
Defined.

(* ================================================================== *)
(** ** Paging *)
(* ================================================================== *)

(** X13: for whole-number arguments with [(page - 1) * 100] within the
    safe integers (where the arithmetic of the source is exact and numbers
    print in plain digits), [listConversions] asks for a window the remote
    API can serve: the limit lies between 1 and 100, the number of skipped
    items is not negative and is a whole number of pages; page numbers
    below 1 count as 1, and absent arguments as page 1 of 10 items. *)
Theorem listConversions_window (P : Platform) (c : Client) (page perPage : option Z) :
  (match page with Some p => p | None => 1 end - 1) * 100 <= Js.MAX_SAFE_INTEGER ->
  exists skip limit,
    listConversions P c page perPage
    = request P c ("/convert/list?skip=" ++ Js.showZ skip ++ "&limit=" ++ Js.showZ limit)%string
        noInit /\
    1 <= limit <= 100 /\
    0 <= skip <= Js.MAX_SAFE_INTEGER /\
    limit = Z.min 100 (Z.max 1 (match perPage with Some n => n | None => 10 end)) /\
    skip = (Z.max 1 (match page with Some p => p | None => 1 end) - 1) * limit.
Proof.
  unfold listConversions, Js.MAX_SAFE_INTEGER.
  set (p := match page with Some p => p | None => 1 end).
  set (n := match perPage with Some n => n | None => 10 end).
  intros Hsafe.
  exists ((Z.max 1 p - 1) * Z.min 100 (Z.max 1 n)), (Z.min 100 (Z.max 1 n)).
  assert (Hp : (if p <? 1 then 1 else p) = Z.max 1 p)
    by (destruct (Z.ltb_spec p 1); lia).
  assert (Hn : (if (if n <? 1 then 1 else n) >? 100 then 100 else (if n <? 1 then 1 else n))
               = Z.min 100 (Z.max 1 n)).
  { destruct (Z.ltb_spec n 1).
    - change (1 >? 100) with false. cbv iota. lia.
    - rewrite Z.gtb_ltb. destruct (Z.ltb_spec 100 n); lia. }
  cbv zeta. rewrite Hp, Hn.
  split; [reflexivity|]. split; [lia|]. split; [nia|]. split; reflexivity.
Qed.

(** Instance: page 3 of 250 items a page is the window of 100 items after
    the first 200. *)
Lemma listConversions_window_witness :
  exists skip limit,
    listConversions Example.completed Example.client (Some 3) (Some 250)
    = request Example.completed Example.client
        ("/convert/list?skip=" ++ Js.showZ skip ++ "&limit=" ++ Js.showZ limit)%string noInit /\
    skip = 200 /\ limit = 100.
Proof.
  destruct (listConversions_window Example.completed Example.client (Some 3) (Some 250)
              ltac:(vm_compute; discriminate))
    as [skip [limit [Hrun [_ [_ [Hl Hs]]]]]].
  exists skip, limit. split; [exact Hrun|].
  subst limit. split; [exact Hs | reflexivity].
Defined.

(* ================================================================== *)
(** ** Presets and explicit options *)
(* ================================================================== *)

Section Bags.

Context {A : Type}.

Lemma assoc_objSet_same (k : string) (v : A) (o : list (string * A)) :
  assoc k (objSet k v o) = Some v.
Proof.
  induction o as [|[k' v'] o IH]; simpl.
  - now rewrite String.eqb_refl.
  - destruct (k' =? k)%string eqn:E; simpl; [now rewrite String.eqb_refl|].
    now rewrite E.
Qed.

Lemma assoc_objSet_other (k k0 : string) (v : A) (o : list (string * A)) :
  k0 <> k -> assoc k0 (objSet k v o) = assoc k0 o.
Proof.
  intros Hne. induction o as [|[k' v'] o IH]; simpl.
  - destruct (String.eqb_spec k k0); [congruence | reflexivity].
  - destruct (String.eqb_spec k' k) as [->|Hk]; simpl.
    + destruct (String.eqb_spec k k0); [congruence | reflexivity].
    + destruct (k' =? k0)%string; [reflexivity | exact IH].
Qed.

Lemma assoc_absent (k : string) (o : list (string * A)) :
  ~ In k (map fst o) -> assoc k o = None.
Proof.
  induction o as [|[k' v'] o IH]; simpl; intros H; [reflexivity|].
  destruct (String.eqb_spec k' k); [exfalso; auto | apply IH; auto].
Qed.

Lemma assoc_objSpread (k : string) (b : list (string * A)) :
  NoDup (map fst b) ->
  forall a, assoc k (objSpread a b)
            = match assoc k b with Some v => Some v | None => assoc k a end.
Proof.
  unfold objSpread. induction b as [|[k' v'] b IH]; intros Hd a; simpl; [reflexivity|].
  simpl in Hd. inversion Hd as [|? ? Hnot Hrest]; subst.
  rewrite (IH Hrest). destruct (String.eqb_spec k' k) as [->|Hk].
  - rewrite (assoc_absent k b Hnot). apply assoc_objSet_same.
  - destruct (assoc k b); [reflexivity|]. apply assoc_objSet_other. congruence.
Qed.

End Bags.

(** X14: when a preset applies to the target format, [resolveOptions]
    merges it with the caller's options and the caller wins: each key the
    caller gave keeps the caller's value, each other key has the preset's
    value, and no other key appears. *)
Theorem resolveOptions_caller_wins (targetFormat name : string) (options : option Bag)
    (category : FormatCategory) (presetOptions : Bag) :
  name <> "" ->
  getFormatCategory targetFormat = Own category ->
  getPresetOptions name (categoryName category) = Some presetOptions ->
  let given := match options with Some o => o | None => [] end in
  NoDup (map fst given) ->
  exists merged,
    resolveOptions targetFormat (Some name) options = Some merged /\
    forall k, assoc k merged
              = match assoc k given with Some v => Some v | None => assoc k presetOptions end.
Proof.
  intros Hname Hcat Hpreset given Hd. unfold resolveOptions.
  destruct (String.eqb_spec name ""); [contradiction|].
  rewrite Hcat, Hpreset. fold given. eexists. split; [reflexivity|].
  intros k. now apply assoc_objSpread.
Qed.

(** Instance: an explicit bitrate over the web preset, for an MP3 target. *)
Lemma resolveOptions_caller_wins_witness :
  exists merged,
    resolveOptions "MP3" (Some "web-optimized") (Some [("bitrate", JStr "320k")]) = Some merged /\
    forall k, assoc k merged
              = match assoc k [("bitrate", JStr "320k")] with
                | Some v => Some v
                | None => assoc k [("bitrate", JStr "128k"); ("sample_rate", JNum 44100);
                                   ("channels", JNum 2)]
                end.
Proof.
  apply (resolveOptions_caller_wins "MP3" "web-optimized" (Some [("bitrate", JStr "320k")])
           Category.audio).
  - discriminate.
  - reflexivity.
  - reflexivity.
  - repeat constructor. simpl. tauto.
Defined.

(* ================================================================== *)
(** ** Batches *)
(* ================================================================== *)

Section Batch.

Variable P : Platform.
Variable c : Client.
Variable args : BatchArgs.t.

Lemma batchOne_ok (f : BatchFile.t) (s : State) :
  exists e s', batchOne P c args f s = (Ok e, s') /\
               entryFile e = BatchFile.file_path f /\ oneSided e.
Proof.
  unfold batchOne, tryCatch, bind, ret, oneSided.
  destruct (convertFile P c _ _ _ s) as [[result|err] s1].
  - destruct (getProp result "id" s1) as [[id|err] s2]; eexists; eexists;
      (split; [reflexivity|]); simpl; auto.
  - eexists; eexists; (split; [reflexivity|]); simpl; auto.
Qed.

Lemma batchLoop_ok (todo : list BatchFile.t) :
  forall done s,
    exists out s', batchLoop P c args todo done s = (Ok (done ++ out), s') /\
                   map entryFile out = map BatchFile.file_path todo /\
                   Forall oneSided out.
Proof.
  induction todo as [|f rest IH]; intros done s.
  - exists [], s. simpl. rewrite app_nil_r. repeat split. constructor.
  - cbn [batchLoop]. unfold bind at 1.
    destruct (batchOne_ok f s) as [e [s1 [He [Hf Hside]]]]. rewrite He.
    destruct (IH (done ++ [e]) s1) as [out [s' [Hrun [Hfiles Hall]]]].
    exists (e :: out), s'. rewrite Hrun, <- app_assoc. simpl.
    rewrite Hf, Hfiles. repeat split. now constructor.
Qed.

End Batch.

Lemma filter_disjoint_length {A} (p q : A -> bool) (l : list A) :
  (forall x, In x l -> p x = true -> q x = false) ->
  (List.length (filter p l) + List.length (filter q l) <= List.length l)%nat.
Proof.
  induction l as [|x l IH]; intros H; simpl; [lia|].
  assert (IH' := IH (fun y Hy => H y (or_intror Hy))).
  specialize (H x (or_introl eq_refl)).
  destruct (p x) eqn:Hp; destruct (q x) eqn:Hq; simpl; try lia.
Qed.

Lemma batchReport_ok (P : Platform) (c : Client) (parsed : BatchArgs.t) (s : State) :
  exists report s',
    batchReport P c parsed s = (Ok report, s') /\
    map entryFile (results report) = map BatchFile.file_path (BatchArgs.files parsed) /\
    (forall e, In e (successful report) -> ~ In e (failed report)) /\
    (List.length (successful report) + List.length (failed report)
     <= List.length (BatchArgs.files parsed))%nat.
Proof.
  unfold batchReport, bind, ret.
  destruct (batchLoop_ok P c parsed (BatchArgs.files parsed) [] s)
    as [out [s' [Hrun [Hfiles Hall]]]].
  rewrite Hrun. simpl app. eexists. eexists. split; [reflexivity|]. simpl.
  assert (Hdis : forall x, In x out -> truthy (entryId x) = true ->
                   match entryError x with
                   | Some m => negb (messageBlank m)
                   | None => false
                   end = false).
  { intros x Hx Ht. rewrite Forall_forall in Hall. destruct (Hall x Hx) as [Hn|Hn].
    - rewrite Hn in Ht. discriminate.
    - now rewrite Hn. }
  split; [exact Hfiles|]. split.
  - intros e He Hf. apply filter_In in He, Hf. destruct He as [Hin Ht], Hf as [_ Hf'].
    rewrite (Hdis e Hin Ht) in Hf'. discriminate.
  - rewrite <- (length_map BatchFile.file_path), <- Hfiles, length_map.
    now apply filter_disjoint_length.
Qed.

Lemma schema_file_ok (j : Json) (f : BatchFile.t) :
  BatchConvertSchema.file j = Some f ->
  (1 <= String.length (BatchFile.file_path f))%nat /\
  (1 <= String.length (BatchFile.target_format f) <= 10)%nat.
Proof.
  unfold BatchConvertSchema.file, BatchConvertSchema.lengthWithin. intros H.
  destruct j as [| | | | |fields]; try discriminate.
  destruct (assoc "file_path" fields) as [[| | |filePath| |]|]; try discriminate.
  destruct (assoc "target_format" fields) as [[| | |targetFormat| |]|]; try discriminate.
  destruct (1 <=? String.length filePath)%nat eqn:H1; [|discriminate].
  destruct (1 <=? String.length targetFormat)%nat eqn:H2; [|discriminate].
  destruct (String.length targetFormat <=? 10)%nat eqn:H3; [|discriminate].
  simpl in H. inversion H; subst. simpl.
  apply Nat.leb_le in H1, H2, H3. lia.
Qed.

Lemma schema_each_ok (items : list Json) :
  forall files, BatchConvertSchema.each items = Some files ->
    Forall (fun f => (1 <= String.length (BatchFile.file_path f))%nat /\
                     (1 <= String.length (BatchFile.target_format f) <= 10)%nat) files.
Proof.
  induction items as [|j rest IH]; intros files H; simpl in H.
  - inversion H. constructor.
  - destruct (BatchConvertSchema.file j) as [f|] eqn:Hf; [|discriminate].
    destruct (BatchConvertSchema.each rest) as [fs|]; [|discriminate].
    inversion H; subst. constructor; [now apply (schema_file_ok j) | now apply IH].
Qed.

Lemma schema_parse_ok (args : JsVal) (parsed : BatchArgs.t) :
  BatchConvertSchema.parse args = Ok parsed ->
  (1 <= List.length (BatchArgs.files parsed) <= 50)%nat /\
  Forall (fun f => (1 <= String.length (BatchFile.file_path f))%nat /\
                   (1 <= String.length (BatchFile.target_format f) <= 10)%nat)
         (BatchArgs.files parsed).
Proof.
  unfold BatchConvertSchema.parse. intros H.
  destruct args as [[| | | | |fields]|]; try discriminate.
  destruct (assoc "files" fields) as [[| | | |items|]|]; try discriminate.
  destruct (BatchConvertSchema.each items) as [files|] eqn:He; [|discriminate].
  destruct (BatchConvertSchema.optionalRecord (assoc "options" fields)); [|discriminate].
  destruct (BatchConvertSchema.optionalString (assoc "preset" fields)); [|discriminate].
  destruct (1 <=? List.length files)%nat eqn:H1; [|discriminate].
  destruct (List.length files <=? 50)%nat eqn:H2; [|discriminate].
  simpl in H. inversion H; subst. simpl.
  apply Nat.leb_le in H1, H2. split; [lia | now apply (schema_each_ok items)].
Qed.


(* ================================================================== *)
(** ** The registry by category *)
(* ================================================================== *)

Lemma In_insertSorted (x y : string) (l : list string) :
  In x (insertSorted y l) <-> x = y \/ In x l.
Proof.
  induction l as [|z l IH]; simpl; [intuition|].
  destruct (y <=? z)%string; simpl; [intuition|]. rewrite IH. intuition.
Qed.

Lemma In_sortStrings (x : string) (l : list string) : In x (sortStrings l) <-> In x l.
Proof.
  unfold sortStrings. induction l as [|y l IH]; simpl; [tauto|].
  rewrite In_insertSorted, IH. intuition.
Qed.

Lemma ascending_insertSorted (x : string) (l : list string) :
  ascending l -> ascending (insertSorted x l).
Proof.
  induction l as [|y t IH]; intros H; [simpl; auto|].
  cbn [insertSorted]. destruct (x <=? y)%string eqn:E.
  - split; [exact E | exact H].
  - destruct H as [Hy Ht]. specialize (IH Ht). split; [|exact IH].
    destruct t as [|z t']; cbn [insertSorted].
    + destruct (String.leb_total x y) as [H|H]; [congruence | exact H].
    + destruct (x <=? z)%string; [|exact Hy].
      destruct (String.leb_total x y) as [H|H]; [congruence | exact H].
Qed.

Lemma ascending_sortStrings (l : list string) : ascending (sortStrings l).
Proof.
  unfold sortStrings. induction l as [|x l IH]; simpl; [exact I|].
  now apply ascending_insertSorted.
Qed.

Lemma categoryEqb_eq (a b : FormatCategory) : categoryEqb a b = true <-> a = b.
Proof. destruct a, b; simpl; split; intros H; try reflexivity; discriminate. Qed.

Lemma assoc_In {A} (k : string) (v : A) (l : list (string * A)) :
  assoc k l = Some v -> In (k, v) l.
Proof.
  induction l as [|[k' v'] l IH]; simpl; [discriminate|].
  destruct (String.eqb_spec k' k) as [->|Hk]; intros H.
  - inversion H. now left.
  - right. exact (IH H).
Qed.

Lemma existsb_eqb_In (k : string) (l : list string) :
  existsb (String.eqb k) l = false -> ~ In k l.
Proof.
  intros H Hin. assert (existsb (String.eqb k) l = true); [|congruence].
  apply existsb_exists. exists k. split; [exact Hin | apply String.eqb_refl].
Qed.

Lemma In_assoc {A} (k : string) (v : A) (l : list (string * A)) :
  distinct (map fst l) = true -> In (k, v) l -> assoc k l = Some v.
Proof.
  induction l as [|[k' v'] l IH]; simpl; [tauto|].
  intros Hd [Heq|Hin].
  - inversion Heq; subst. now rewrite String.eqb_refl.
  - apply andb_true_iff in Hd. destruct Hd as [Hnew Hd].
    apply negb_true_iff, existsb_eqb_In in Hnew.
    destruct (String.eqb_spec k' k) as [->|Hk]; [|now apply IH].
    exfalso. apply Hnew. apply in_map_iff. now exists (k, v).
Qed.

Lemma listed_iff (category : FormatCategory) (format : string) :
  In format (getFormatsByCategory category)
  <-> assoc format FORMAT_CATEGORIES = Some category.
Proof.
  unfold getFormatsByCategory. rewrite In_sortStrings, in_map_iff. split.
  - intros [[k v] [Hk Hin]]. simpl in Hk. subst k. apply filter_In in Hin.
    destruct Hin as [Hin Hc]. simpl in Hc. apply categoryEqb_eq in Hc. subst v.
    apply In_assoc; [vm_compute; reflexivity | exact Hin].
  - intros H. exists (format, category). split; [reflexivity|].
    apply filter_In. split; [now apply assoc_In | now apply categoryEqb_eq].
Qed.

Lemma lowerChar_idempotent (ch : ascii) : Js.lowerChar (Js.lowerChar ch) = Js.lowerChar ch.
Proof. destruct ch as [[] [] [] [] [] [] [] []]; reflexivity. Qed.

Lemma toLowerCase_idempotent (s : string) :
  Js.toLowerCase (Js.toLowerCase s) = Js.toLowerCase s.
Proof.
  induction s as [|ch s IH]; [reflexivity|].
  cbn [Js.toLowerCase]. now rewrite lowerChar_idempotent, IH.
Qed.

Lemma registry_keys_lower (format : string) (category : FormatCategory) :
  assoc format FORMAT_CATEGORIES = Some category -> Js.toLowerCase format = format.
Proof.
  intros H. apply assoc_In in H.
  assert (Hall : forallb (fun e => (Js.toLowerCase (fst e) =? fst e)%string)
                   FORMAT_CATEGORIES = true) by (vm_compute; reflexivity).
  rewrite forallb_forall in Hall. specialize (Hall _ H). simpl in Hall.
  now apply String.eqb_eq.
Qed.

Lemma getFormatCategory_own (format : string) (category : FormatCategory) :
  getFormatCategory format = Own category
  <-> assoc (Js.toLowerCase format) FORMAT_CATEGORIES = Some category.
Proof.
  unfold getFormatCategory, jsIndex.
  destruct (assoc (Js.toLowerCase format) FORMAT_CATEGORIES) as [a|].
  - split; intros H; inversion H; reflexivity.
  - destruct (existsb _ _); split; discriminate.
Qed.

(** X16: [getFormatsByCategory] and [getFormatCategory] agree: every
    format listed for a category is supported and has that category, every
    format of that category is listed (in lower case, whatever the case it
    was asked in), and the list is in ascending order. *)
Theorem getFormatsByCategory_agrees (category : FormatCategory) :
  (forall format, In format (getFormatsByCategory category) ->
     getFormatCategory format = Own category /\ isFormatSupported format = true) /\
  (forall format, getFormatCategory format = Own category ->
     In (Js.toLowerCase format) (getFormatsByCategory category)) /\
  ascending (getFormatsByCategory category).
Proof.
  split; [|split].
  - intros format H. apply listed_iff in H.
    pose proof (registry_keys_lower _ _ H) as Hl. split.
    + apply getFormatCategory_own. now rewrite Hl.
    + unfold isFormatSupported, js_in, hasKey. rewrite Hl.
      apply orb_true_iff. left. apply existsb_exists.
      exists (format, category). split; [now apply assoc_In | apply String.eqb_refl].
  - intros format H. apply listed_iff. now apply getFormatCategory_own.
  - apply ascending_sortStrings.
Qed.

(* ================================================================== *)
(** ** Submitting a conversion *)
(* ================================================================== *)

Lemma toLowerCase_stripLeadingDot (s : string) :
  Js.toLowerCase s = s -> Js.toLowerCase (Js.stripLeadingDot s) = Js.stripLeadingDot s.
Proof.
  destruct s as [|ch t]; [reflexivity|]. cbn [Js.toLowerCase]. intros H.
  injection H as Hc Ht.
  destruct ch as [[] [] [] [] [] [] [] []]; cbn [Js.stripLeadingDot];
    try exact Ht; cbn [Js.toLowerCase]; now rewrite Hc, Ht.
Qed.

Lemma normalizeFormat_lower (f : string) :
  Js.toLowerCase (normalizeFormat f) = normalizeFormat f.
Proof. apply toLowerCase_stripLeadingDot, toLowerCase_idempotent. Qed.

Lemma hasKey_In {A} (k : string) (o : list (string * A)) :
  hasKey k o = true -> In k (map fst o).
Proof.
  unfold hasKey. intros H. apply existsb_exists in H. destruct H as [e [He Hk]].
  apply String.eqb_eq in Hk. subst k. now apply in_map.
Qed.

Lemma supported_no_dot (n : string) :
  js_in n FORMAT_CATEGORIES = true -> Js.stripLeadingDot n = n.
Proof.
  unfold js_in. intros H.
  assert (Hin : In n (map fst FORMAT_CATEGORIES ++ OBJECT_PROTOTYPE_KEYS)).
  { apply in_or_app. apply orb_true_iff in H. destruct H as [H|H].
    - left. now apply hasKey_In.
    - right. apply existsb_exists in H. destruct H as [x [Hx Hk]].
      apply String.eqb_eq in Hk. now subst. }
  assert (Hall : forallb (fun k => (Js.stripLeadingDot k =? k)%string)
                   (map fst FORMAT_CATEGORIES ++ OBJECT_PROTOTYPE_KEYS) = true)
    by (vm_compute; reflexivity).
  rewrite forallb_forall in Hall. now apply String.eqb_eq, Hall.
Qed.

Lemma normalizeFormat_stable (f : string) :
  isFormatSupported (normalizeFormat f) = true ->
  normalizeFormat (normalizeFormat f) = normalizeFormat f.
Proof.
  unfold isFormatSupported. rewrite normalizeFormat_lower. intros H.
  unfold normalizeFormat at 1. rewrite normalizeFormat_lower.
  now apply supported_no_dot.
Qed.

(** X17: [convertFile] is [convertFileBuffer] on the contents and the base
    name of the validated path: when the path passes [validateFilePath]
    and the target format is supported, the file at the real path is read;
    when the read fails (a file that cannot be read, or one of 2 GiB or
    more) its error is thrown and nothing is sent; otherwise the call is
    the same computation as [convertFileBuffer] on the bytes read
    (normalizing the format a second time changes nothing).  The path read
    is the resolved real path, absolute and free of [..]. *)
Theorem convertFile_delegates (P : Platform) (c : Client) (filePath targetFormat : string)
    (options : option ConversionOptions) (realPath : string) :
  validateFilePath P filePath = Ok realPath ->
  isFormatSupported (normalizeFormat targetFormat) = true ->
  convertFile P c filePath targetFormat options
  = match readFileSync P realPath with
    | Reads bytes =>
        convertFileBuffer P c (Bytes bytes) (path.basename realPath) targetFormat options
    | ReadFails errorName text => throw (platformError errorName text)
    end /\
  realPath = realpathSync P (resolve P filePath) /\
  path.isAbsolute realPath = true /\
  Js.includes realPath ".." = false /\
  Js.includes (resolve P filePath) NUL = false /\
  existsSync P (resolve P filePath) = true /\
  isFile P (resolve P filePath) = true.
Proof.
  intros Hv Hs. split.
  - unfold convertFile. rewrite Hv, Hs. cbn [negb]. cbv beta iota zeta.
    destruct (readFileSync P realPath) as [bytes|errorName text]; [|reflexivity].
    unfold convertFileBuffer. rewrite (normalizeFormat_stable _ Hs), Hs. reflexivity.
  - unfold validateFilePath in Hv. cbv zeta in Hv.
    destruct (Js.includes (resolve P filePath) NUL); [discriminate|].
    destruct (existsSync P (resolve P filePath)); [|discriminate].
    destruct (isFile P (resolve P filePath)); [|discriminate].
    cbn [negb] in Hv. cbv beta iota in Hv.
    destruct (Js.includes (realpathSync P (resolve P filePath)) "..") eqn:Hd;
      [discriminate|].
    destruct (path.isAbsolute (realpathSync P (resolve P filePath))) eqn:Ha;
      [|discriminate].
    cbn in Hv. inversion Hv; subst. rewrite Ha, Hd. repeat split.
Qed.

(** Instances: an absolute path and an upper-case format with a dot, on a
    platform that reads every file, and on one that reads none. *)
Lemma convertFile_delegates_witness :
  convertFile Example.completed Example.client "/data/in/song.wav" ".MP3" None
  = convertFileBuffer Example.completed Example.client (Bytes {| byteLength := 10 |})
      (path.basename "/data/in/song.wav") ".MP3" None /\
  convertFile unreadable Example.client "/data/in/song.wav" ".MP3" None
  = throw (platformError "Error" "EACCES: permission denied, open").
Proof.
  split.
  - apply (convertFile_delegates Example.completed Example.client "/data/in/song.wav" ".MP3"
             None "/data/in/song.wav"); reflexivity.
  - apply (convertFile_delegates unreadable Example.client "/data/in/song.wav" ".MP3"
             None "/data/in/song.wav"); reflexivity.
Defined.

Lemma request_sends (P : Platform) (c : Client) (endpoint : string)
    (options : RequestInit) (s : State) :
  exists ev,
    trace (snd (request P c endpoint options s)) = trace s ++ ev /\
    sends (outgoing P c endpoint options s) ev /\
    (1 <= fetchCount ev <= S (maxRetries c))%nat.
Proof.
  unfold request, bind, generateCorrelationId, outgoing.
  match goal with
  | |- context [fetchWithRetry P c ?u ?o ?i ?s0] =>
      destruct (fetchWithRetry_bounded_aux P c u o i s0) as [ev [Ht [Hs Hb]]];
      destruct (fetchWithRetry P c u o i s0) as [[response|e] s1] eqn:Hrun
  end.
  - exists ev. simpl in Ht. split; [|split; [exact Hs | exact Hb]].
    destruct (negb (ok response)); [exact Ht|].
    destruct (json response); exact Ht.
  - exists ev. simpl in Ht. split; [exact Ht | split; [exact Hs | exact Hb]].
Qed.

Lemma sanitizeChars_safe (f : list ascii) :
  noSeparator (Filename.sanitizeChars f) /\ noUnsafe (Filename.sanitizeChars f) /\
  Filename.sanitizeChars f <> [].
Proof.
  destruct (sanitizeChars_cases f) as [[-> _]|[-> [Hne _]]].
  - split; [|split; [|discriminate]]; unfold noSeparator, noUnsafe;
      apply Forall_forall; intros x Hx; vm_compute in Hx;
      repeat (destruct Hx as [<-|Hx]; [reflexivity|]); contradiction.
  - split; [|split; [|exact Hne]].
    + eapply incl_Forall; [apply shortened_incl, cleaned_noSeparator|].
      apply cleaned_noSeparator.
    + eapply incl_Forall; [apply shortened_incl, cleaned_noSeparator|].
      apply clean_noUnsafe.
Qed.

(** X18: what an accepted upload sends.  When the buffer is within the
    size ceiling and the normalized target format is supported, every fetch
    of [convertFileBuffer] is a POST to [/api/convert] of one form whose
    file is the buffer, whose format is the normalized one and whose file
    name is the sanitized one: not empty, without a path separator and
    without an unsafe character.  The options are left out of the form when
    none was given or the object has no key. *)
Theorem convertFileBuffer_submission (P : Platform) (c : Client) (payload : Payload)
    (name targetFormat : string) (options : option ConversionOptions) (s : State) :
  let buffer := match payload with
                | Base64 text => fromBase64 P (stripDataUrlPrefix text)
                | Bytes b => b
                end in
  byteLength buffer <= MAX_SIZE ->
  isFormatSupported (normalizeFormat targetFormat) = true ->
  exists form ev,
    trace (snd (convertFileBuffer P c payload name targetFormat options s)) = trace s ++ ev /\
    (1 <= fetchCount ev <= S (maxRetries c))%nat /\
    sends (outgoing P c "/convert"
             {| method := Some "POST"; headers := []; body := Some form |} s) ev /\
    file form = buffer /\
    output_format form = normalizeFormat targetFormat /\
    fileName form = sanitizeFilename name /\
    fileName form <> "" /\
    noSeparator (Js.chars (fileName form)) /\
    noUnsafe (Js.chars (fileName form)) /\
    (optionsField form = None <->
     match options with Some o => keyCount o = 0%nat | None => True end).
Proof.
  intros buffer Hsize Hfmt. unfold convertFileBuffer. fold buffer.
  replace (byteLength buffer >? MAX_SIZE) with false
    by (symmetry; rewrite Z.gtb_ltb; apply Z.ltb_ge; exact Hsize).
  rewrite Hfmt. cbn [negb]. cbv beta iota zeta.
  match goal with
  | |- context [request P c "/convert" ?o s] =>
      destruct (request_sends P c "/convert" o s) as [ev [Ht [Hs Hb]]]
  end.
  eexists. exists ev. split; [exact Ht|]. split; [exact Hb|]. split; [exact Hs|].
  cbn [file output_format fileName optionsField].
  destruct (sanitizeChars_safe (Js.chars name)) as [Hsep [Hsafe Hne]].
  unfold sanitizeFilename. rewrite chars_str.
  repeat split; try assumption.
  - intros Hempty. apply Hne. rewrite <- (chars_str (Filename.sanitizeChars _)).
    now rewrite Hempty.
  - destruct options as [o|]; [|trivial].
    destruct (keyCount o); [reflexivity | discriminate].
  - destruct options as [o|]; [|reflexivity]. intros ->. reflexivity.
Qed.

(** Instance: a path-like name and an upper-case format. *)
Lemma convertFileBuffer_submission_witness :
  exists form ev,
    trace (snd (convertFileBuffer Example.completed Example.client
                  (Bytes {| byteLength := 10 |}) "../../etc/passwd" "PDF" None Example.start))
    = trace Example.start ++ ev /\
    (1 <= fetchCount ev <= S (maxRetries Example.client))%nat /\
    sends (outgoing Example.completed Example.client "/convert"
             {| method := Some "POST"; headers := []; body := Some form |} Example.start) ev /\
    file form = {| byteLength := 10 |} /\
    output_format form = normalizeFormat "PDF" /\
    fileName form = sanitizeFilename "../../etc/passwd" /\
    fileName form <> "" /\
    noSeparator (Js.chars (fileName form)) /\
    noUnsafe (Js.chars (fileName form)) /\
    (optionsField form = None <-> True).
Proof.
  apply (convertFileBuffer_submission Example.completed Example.client
           (Bytes {| byteLength := 10 |}) "../../etc/passwd" "PDF" None Example.start).
  - vm_compute. discriminate.
  - reflexivity.
Defined.

(* ================================================================== *)
(** ** Data URLs *)
(* ================================================================== *)

Lemma chars_append (a b : string) : Js.chars (a ++ b)%string = Js.chars a ++ Js.chars b.
Proof. induction a as [|ch a IH]; simpl; [reflexivity | now rewrite IH]. Qed.

Lemma takeWhile_stop {A} (p : A -> bool) (l : list A) (x : A) (r : list A) :
  Forall (fun y => p y = true) l -> p x = false ->
  Js.takeWhile p (l ++ x :: r) = l /\ Js.dropWhile p (l ++ x :: r) = x :: r.
Proof.
  intros Hl Hx. induction Hl as [|y l Hy _ [IH1 IH2]]; simpl.
  - now rewrite Hx.
  - rewrite Hy. now rewrite IH1, IH2.
Qed.

Lemma everyChar_Forall (p : ascii -> bool) (s : string) :
  everyChar p s = true -> Forall (fun ch => p ch = true) (Js.chars s).
Proof.
  induction s as [|ch s IH]; simpl; intros H; [constructor|].
  apply andb_true_iff in H. destruct H. constructor; auto.
Qed.



(* ================================================================== *)
(** ** Refreshing the format list *)
(* ================================================================== *)

(** X20: a forced refresh, and the first call after [clearFormatCache],
    always go to the network: the first thing that happens is a fetch of
    [/api/convert/formats].  A successful answer becomes the cache entry,
    stamped with the time of its arrival; a failure leaves the cache as it
    was at the start of the call. *)
Theorem refresh_goes_to_network (P : Platform) (c : Client) (skipCache : bool)
    (s start : State) (r : Result Json) (s' : State) :
  (skipCache = true /\ start = s) \/ start = snd (clearFormatCache s) ->
  getSupportedFormats P c skipCache start = (r, s') ->
  (fetches s < fetches s')%nat /\
  (exists req ev, trace s' = trace s ++ Fetch req :: ev /\
                  url req = (baseUrl c ++ "/api/convert/formats")%string) /\
  match r with
  | Ok value => formatCache s' = Some {| cached := value; timestamp := now s' |}
  | Throw _ => formatCache s' = formatCache start
  end.
Proof.
  intros Hstart Hrun.
  assert (Hmiss : skipCache = true \/ formatCache start = None \/
                  exists entry, formatCache start = Some entry /\
                                FORMAT_CACHE_TTL <= now start - timestamp entry).
  { destruct Hstart as [[-> _] | ->]; [now left | right; left; reflexivity]. }
  assert (Hsame : fetches start = fetches s /\ trace start = trace s).
  { destruct Hstart as [[_ ->] | ->]; split; reflexivity. }
  destruct Hsame as [Hf Ht].
  rewrite (getSupportedFormats_miss P c skipCache start Hmiss) in Hrun.
  destruct (request P c "/convert/formats" noInit start) as [[value|e] s1] eqn:Hreq;
    destruct (request_first P c _ _ _ _ _ Hreq) as [Hc [_ [Hn [[req [ev [Htr Hu]]] _]]]];
    inversion Hrun; subst r s'; simpl; rewrite <- Hf, <- Ht.
  - split; [exact Hn|]. split; [|reflexivity]. now exists req, ev.
  - split; [exact Hn|]. split; [|exact Hc]. now exists req, ev.
Qed.

(** Instance: the list is cached, the cache is cleared, the list is asked
    for again. *)
Lemma refresh_goes_to_network_witness :
  let run := getSupportedFormats Example.formats Example.client false
               (snd (clearFormatCache Example.listed)) in
  (fetches Example.listed < fetches (snd run))%nat.
Proof.
  intros run.
  exact (proj1 (refresh_goes_to_network Example.formats Example.client false
                  Example.listed (snd (clearFormatCache Example.listed))
                  (fst run) (snd run) (or_intror eq_refl) (surjective_pairing run))).
Defined.

(* ================================================================== *)
(** ** A constructed client *)
(* ================================================================== *)

(** X21: what a constructed client holds can be given back to the
    constructor.  The stored key starts with [ce_], the stored timeout is
    never 0 (a configured 0 is replaced by the default), the retry budget
    is the default one, and, on a platform whose URL parser rejects the
    empty address, constructing a client from the stored key, address and
    timeout gives the same client again. *)
Theorem constructor_round_trip (P : Platform) (config : ClientConfig.t) (c : Client) :
  urlParses P "" = false ->
  constructor P config = Ok c ->
  Js.startsWith (apiKey c) "ce_" = true /\
  timeout c <> 0 /\
  maxRetries c = DEFAULT_MAX_RETRIES /\
  constructor P {| ClientConfig.apiKey := apiKey c;
                   ClientConfig.baseUrl := Some (baseUrl c);
                   ClientConfig.timeout := Some (timeout c) |} = Ok c.
Proof.
  intros Hempty H. unfold constructor in H.
  destruct (ClientConfig.apiKey config =? "")%string eqn:Hk; [discriminate|].
  destruct (Js.startsWith (ClientConfig.apiKey config) "ce_") eqn:Hp; [|discriminate].
  cbn [negb] in H. cbv beta iota in H.
  destruct (sanitizeUrl P (Js.strOr (ClientConfig.baseUrl config) DEFAULT_BASE_URL))
    as [u|e] eqn:Hs; [|discriminate].
  inversion H; subst c; clear H. cbn [apiKey timeout maxRetries baseUrl].
  assert (Ht : Js.numOr (ClientConfig.timeout config) DEFAULT_TIMEOUT <> 0).
  { unfold Js.numOr. destruct (ClientConfig.timeout config) as [t|]; [|discriminate].
    destruct (Z.eqb_spec t 0); [discriminate | assumption]. }
  split; [exact Hp|]. split; [exact Ht|]. split; [reflexivity|].
  unfold constructor. cbn [ClientConfig.apiKey ClientConfig.baseUrl ClientConfig.timeout].
  rewrite Hk, Hp. cbn [negb]. cbv beta iota.
  assert (Hu : urlParses P u = true) by apply (sanitizeUrl_ok P _ u Hs).
  assert (Hne : (u =? "")%string = false).
  { destruct (String.eqb_spec u ""); [subst; congruence | reflexivity]. }
  unfold Js.strOr at 1. rewrite Hne, (sanitizeUrl_again P _ u Hs).
  unfold Js.numOr at 1.
  destruct (Z.eqb_spec (Js.numOr (ClientConfig.timeout config) DEFAULT_TIMEOUT) 0);
    [contradiction | reflexivity].
Qed.

(** Instance: an address with trailing slashes and a timeout of 0. *)
Lemma constructor_round_trip_witness :
  exists c,
    constructor strictPlatform
      {| ClientConfig.apiKey := "ce_live_key";
         ClientConfig.baseUrl := Some "http://api.example.com//";
         ClientConfig.timeout := Some 0 |} = Ok c /\
    timeout c <> 0 /\
    constructor strictPlatform
      {| ClientConfig.apiKey := apiKey c;
         ClientConfig.baseUrl := Some (baseUrl c);
         ClientConfig.timeout := Some (timeout c) |} = Ok c.
Proof.
  eexists. split; [reflexivity|].
  match goal with
  | |- timeout ?c <> 0 /\ _ =>
      destruct (constructor_round_trip strictPlatform
                  {| ClientConfig.apiKey := "ce_live_key";
                     ClientConfig.baseUrl := Some "http://api.example.com//";
                     ClientConfig.timeout := Some 0 |} c eq_refl eq_refl)
        as [_ [Ht [_ Hagain]]]
  end.
  split; [exact Ht | exact Hagain].
Defined.

(* ================================================================== *)
(** ** Where presets and options do not apply *)
(* ================================================================== *)

(** X22: presets exist for audio, video, image, document and e-book
    targets only: for a target format of another category (data, 3D, font,
    archive, CAD), or of no category, [resolveOptions] returns the caller's
    options unchanged whatever preset is named. *)
Theorem resolveOptions_leaves_options (targetFormat : string) (preset : option string)
    (options : option Bag) :
  match getFormatCategory targetFormat with
  | Own category =>
      In category [Category.data; Category.three_d; Category.font; Category.archive;
                   Category.cad]
  | Inherited _ | Missing => True
  end ->
  resolveOptions targetFormat preset options = options.
Proof.
  intros H. unfold resolveOptions. destruct preset as [name|]; [|reflexivity].
  destruct (name =? "")%string; [reflexivity|].
  destruct (getFormatCategory targetFormat) as [category| |]; try reflexivity.
  unfold getPresetOptions. destruct (assoc name PRESETS); [|reflexivity].
  simpl in H.
  destruct H as [<-|[<-|[<-|[<-|[<-|[]]]]]]; reflexivity.
Qed.

(** Instance: a JSON target with the web preset. *)
Lemma resolveOptions_leaves_options_witness :
  resolveOptions "json" (Some "web-optimized") (Some [("indent", JNum 2)])
  = Some [("indent", JNum 2)].
Proof.
  apply (resolveOptions_leaves_options "json" (Some "web-optimized")).
  vm_compute. tauto.
Defined.

(** X23: the estimator reads the options only for lossy audio targets
    (mp3, aac, ogg, opus), for video targets (mp4, webm, mkv) and for
    lossy image targets (jpg, jpeg, webp): for every other target format
    the estimate with options is the estimate without. *)
Theorem estimateOutputSize_ignores_options (inputSize : float)
    (sourceFormat targetFormat : string) (options : option ConversionOptions) :
  let tgt := Js.toLowerCase targetFormat in
  includesStr ["mp3"; "aac"; "ogg"; "opus"] tgt = false ->
  includesStr ["mp4"; "webm"; "mkv"] tgt = false ->
  includesStr ["jpg"; "jpeg"; "webp"] tgt = false ->
  estimateOutputSize inputSize sourceFormat targetFormat options
  = estimateOutputSize inputSize sourceFormat targetFormat None.
Proof.
  intros tgt Ha Hv Hi. unfold estimateOutputSize. fold tgt. cbv zeta.
  rewrite Ha, Hv, Hi. reflexivity.
Qed.

(** Instance: a JPEG turned into a PNG, with a bitrate given. *)
Lemma estimateOutputSize_ignores_options_witness :
  estimateOutputSize 1000 "jpg" "PNG" (Some Example.wavToMp3)
  = estimateOutputSize 1000 "jpg" "PNG" None.
Proof.
  apply (estimateOutputSize_ignores_options 1000 "jpg" "PNG" (Some Example.wavToMp3));
    reflexivity.
Defined.
